(** * wptsync: a shallow embedding of the sync pipeline

    The repository holds two copies of the sync tool: the root command
    [main.go] (sub-commands [init], [add], [sync]) and the older single
    purpose command [sync-wpt].  The functions [processFile], [download],
    [applyPatch] and [ensureSupportedPatchFormat] are textually the same in
    both; [validate] and the driver ([runSync] / [run]) differ and are
    embedded separately (module [SyncWpt] holds the older copy).

    Go strings are byte sequences: they are modelled by [string], one
    [ascii] per byte.  The file system is a finite map from path spellings
    to file contents, and every observable action of the program (a line on
    standard output, an HTTP request, a file-system call, a run of the
    external tool) is appended to a trace. *)

From Stdlib Require Import Ascii NArith.
From stdpp Require Import base option list gmap strings pretty.

(** ** Errors *)

(** Go [error] values.  [errors_New] stands for [errors.New] and for
    [fmt.Errorf] without a wrapping verb, [fmt_Errorf_w] for
    [fmt.Errorf("<prefix>%w", cause)], [PathError] for [*fs.PathError]. *)
Inductive error : Type :=
| errors_New (msg : string)
| PathError (op path : string) (err : error)
| fmt_Errorf_w (prefix : string) (cause : error).

#[global] Instance error_eq_dec : EqDecision error.
Proof. solve_decision. Defined.

(** The [Error()] method: the rendered message. *)
Fixpoint Error (e : error) : string :=
  match e with
  | errors_New msg => msg
  | PathError op path err => op +:+ " " +:+ path +:+ ": " +:+ Error err
  | fmt_Errorf_w prefix cause => prefix +:+ Error cause
  end.

(** [errors.Is]: [target] occurs on the unwrap chain of [e]. *)
Fixpoint errors_Is (e target : error) : bool :=
  bool_decide (e = target) ||
  match e with
  | errors_New _ => false
  | PathError _ _ err => errors_Is err target
  | fmt_Errorf_w _ cause => errors_Is cause target
  end.

Definition ENOENT : error := errors_New "no such file or directory".
Definition EEXIST : error := errors_New "file exists".
(** [bufio.ErrTooLong]. *)
Definition ErrTooLong : error := errors_New "bufio.Scanner: token too long".

(** ** Package [strings] *)

Definition byte (n : nat) : ascii := ascii_of_nat n.

Fixpoint bytes (l : list nat) : string :=
  match l with
  | [] => ""
  | n :: l' => String (byte n) (bytes l')
  end.

Fixpoint strings_HasPrefix (s prefix : string) {struct prefix} : bool :=
  match prefix, s with
  | EmptyString, _ => true
  | String c p, String d s' => Ascii.eqb c d && strings_HasPrefix s' p
  | String _ _, EmptyString => false
  end.

Fixpoint strings_ContainsByte (cutset : string) (c : ascii) : bool :=
  match cutset with
  | EmptyString => false
  | String d cutset' => Ascii.eqb c d || strings_ContainsByte cutset' c
  end.

(** [strings.TrimLeft] for a cutset of ASCII bytes (the program passes
    ["/"]): the leading bytes that belong to the cutset are dropped. *)
Fixpoint strings_TrimLeft (s cutset : string) : string :=
  match s with
  | EmptyString => ""
  | String c s' =>
      if strings_ContainsByte cutset c then strings_TrimLeft s' cutset else s
  end.

Fixpoint strip_prefix (p s : string) : option string :=
  match p, s with
  | EmptyString, _ => Some s
  | String c p', String d s' =>
      if Ascii.eqb c d then strip_prefix p' s' else None
  | String _ _, EmptyString => None
  end.

Fixpoint strip_any_prefix (ps : list string) (s : string) : option string :=
  match ps with
  | [] => None
  | p :: ps' =>
      match strip_prefix p s with
      | Some rest => Some rest
      | None => strip_any_prefix ps' s
      end
  end.

Fixpoint strip_prefixes (ps : list string) (fuel : nat) (s : string) : string :=
  match fuel with
  | 0 => s
  | S fuel' =>
      match strip_any_prefix ps s with
      | Some rest => strip_prefixes ps fuel' rest
      | None => s
      end
  end.

(** The UTF-8 encodings of the code points for which [unicode.IsSpace]
    holds: tab, LF, VT, FF, CR, space, U+0085, U+00A0, U+1680,
    U+2000..U+200A, U+2028, U+2029, U+202F, U+205F and U+3000. *)
Definition unicode_space : list string :=
  [ bytes [9]; bytes [10]; bytes [11]; bytes [12]; bytes [13]; bytes [32];
    bytes [194; 133]; bytes [194; 160]; bytes [225; 154; 128] ]
  ++ ((λ n, bytes [226; 128; n]) <$> seq 128 11)
  ++ [ bytes [226; 128; 168]; bytes [226; 128; 169]; bytes [226; 128; 175];
       bytes [226; 129; 159]; bytes [227; 128; 128] ].

(** [strings.TrimSpace]: leading and trailing white space code points are
    removed.  A white space code point is decoded at the start (at the end)
    of a string exactly when one of the encodings above is a prefix (a
    suffix) of it, so trimming strips encodings; every encoding is at least
    one byte long, so the length of the string is enough fuel. *)
Definition strings_TrimSpace (s : string) : string :=
  let l := strip_prefixes unicode_space (String.length s) s in
  let r := String.rev l in
  String.rev (strip_prefixes (String.rev <$> unicode_space) (String.length r) r).

(** [splitOn sep s]: the pieces of [s] between occurrences of the byte
    [sep]; never empty, [n] occurrences give [n + 1] pieces. *)
Fixpoint splitOn (sep : ascii) (s : string) : list string :=
  match s with
  | EmptyString => [""]
  | String c s' =>
      if Ascii.eqb c sep then "" :: splitOn sep s'
      else match splitOn sep s' with
           | [] => [String c ""]
           | e :: es => String c e :: es
           end
  end.


Fixpoint strings_HasSuffixByte (s : string) (c : ascii) : bool :=
  match s with
  | EmptyString => false
  | String d EmptyString => Ascii.eqb c d
  | String _ s' => strings_HasSuffixByte s' c
  end.

(** ** Package [path/filepath] (Unix: the separator is ["/"] and there are
    no volume names) *)

Definition filepath_IsAbs (path : string) : bool := strings_HasPrefix path "/".

(** [filepath.FromSlash] replaces ["/"] by the separator, which is ["/"]. *)
Definition filepath_FromSlash (path : string) : string := path.

(** One round of the loop of [filepath.Clean], element by element.  [out]
    is the output buffer as a stack of elements (last written first) and
    [dotdot] the number of leading elements that [..] must not remove (the
    [../..] prefix of a relative path). *)
Definition clean_step (rooted : bool) (st : list string * nat) (e : string)
  : list string * nat :=
  let '(out, dotdot) := st in
  if String.eqb e "" then st                  (* empty path element *)
  else if String.eqb e "." then st            (* . element *)
  else if String.eqb e ".." then              (* .. element *)
    if dotdot <? length out then (tail out, dotdot)       (* can backtrack *)
    else if rooted then st                    (* cannot backtrack, rooted *)
    else (".." :: out, S (length out))        (* keep the .. element *)
  else (e :: out, dotdot).                    (* real path element *)

Definition clean_elems (rooted : bool) (es : list string) : list string :=
  rev (fst (foldl (clean_step rooted) ([], 0) es)).

Definition filepath_Clean (path : string) : string :=
  if String.eqb path "" then "."
  else
    let rooted := strings_HasPrefix path "/" in
    let out := clean_elems rooted (splitOn "/"%char path) in
    if rooted then "/" +:+ String.concat "/" out
    else match out with
         | [] => "."
         | _ => String.concat "/" out
         end.

(** [filepath.Join]: leading empty elements are skipped, the rest is joined
    with the separator and cleaned. *)
Fixpoint filepath_Join (elem : list string) : string :=
  match elem with
  | [] => ""
  | e :: rest =>
      if String.eqb e "" then filepath_Join rest
      else filepath_Clean (String.concat "/" elem)
  end.

(** The longest prefix of [path] that ends with a separator. *)
Fixpoint upto_last_separator (path : string) : string :=
  match path with
  | EmptyString => ""
  | String c path' =>
      let r := upto_last_separator path' in
      if String.eqb r "" then (if Ascii.eqb c "/"%char then "/" else "")
      else String c r
  end.

Definition filepath_Dir (path : string) : string :=
  filepath_Clean (upto_last_separator path).

(** [filepath.Abs]; [wd] is the outcome of [os.Getwd]. *)
Definition filepath_Abs (wd : error + string) (path : string) : error + string :=
  if filepath_IsAbs path then inr (filepath_Clean path)
  else match wd with
       | inl e => inl e
       | inr d => inr (filepath_Join [d; path])
       end.

(** ** Package [bufio]: a [Scanner] with the default split function
    [ScanLines] and the default buffer *)

Definition bufio_MaxScanTokenSize : N := 65536.

Definition dropCR (data : string) : string :=
  if strings_HasSuffixByte data (byte 13)
  then String.substring 0 (String.length data - 1) data
  else data.

(** The lines of a text: the pieces between line feeds, without a last
    empty piece (a text that ends with a line feed has no further line),
    each without its trailing carriage return. *)
Definition raw_lines (data : string) : list string :=
  let l := splitOn (byte 10) data in
  if String.eqb (List.last l "") "" then removelast l else l.

Definition text_lines (data : string) : list string := dropCR <$> raw_lines data.

(** A line fits the scanner when the line and its line feed fit in the
    buffer of [MaxScanTokenSize] bytes. *)
Definition fits_scanner (raw : string) : bool :=
  (N.of_nat (String.length raw) <? bufio_MaxScanTokenSize)%N.

(** What [Scan] makes of the next line: the line without its carriage
    return, or [ErrTooLong], after which scanning stops. *)
Definition Scanner_token (raw : string) : error + string :=
  if fits_scanner raw then inr (dropCR raw) else inl ErrTooLong.


(** ** Configuration (the JSON document [wpt.json]) *)

Record fileSpec : Type := {
  Src : string;
  Dst : string;
  Enabled : option bool;        (* [*bool]: [None] is the nil pointer *)
  Patch : string
}.

Record config : Type := {
  Commit : string;
  TargetDir : string;
  Files : list fileSpec
}.

Definition isEnabled (f : fileSpec) : bool :=
  match Enabled f with
  | None => true
  | Some b => b
  end.

(** ** The world: file system and trace *)

(** The calls the program makes to the outside, in the order it makes
    them.  A call is logged whether it succeeds or not; closing a handle is
    not logged. *)
Inductive event : Type :=
| Stdout (text : string)                    (* fmt.Printf, fmt.Println *)
| HttpGet (url : string)                    (* http.DefaultClient.Do *)
| MkdirAll (path : string)
| CreateTemp (dir pattern : string)
| Write (name data : string)                (* io.Copy into the open file *)
| Fsync (name : string)
| Rename (oldpath newpath : string)
| Remove (name : string)
| Stat (name : string)
| Open (name : string)
| Exec (dir : string) (argv : list string). (* exec.Cmd.Run *)

#[global] Instance event_eq_dec : EqDecision event.
Proof. solve_decision. Defined.

Record world : Type := {
  files : gmap string string;   (* regular files, by the spelling of their path *)
  trace : list event
}.

Definition log (e : event) (w : world) : world :=
  {| files := files w; trace := trace w ++ [e] |}.

Definition set_files (fs : gmap string string) (w : world) : world :=
  {| files := fs; trace := trace w |}.

Record Response : Type := {
  StatusCode : Z;
  Status : string;              (* e.g. "404 Not Found" *)
  Body : string
}.

(** What the program cannot decide: library functions that are not
    modelled ([json], [strconv]) and the outcome of the fallible calls.
    An outcome may depend on everything that happened before (the world
    holds the trace), so two calls with the same arguments may differ.
    Only the calls whose error the program inspects can fail; reading a file
    that exists succeeds. *)
Record Env : Type := {
  os_Getwd : error + string;
  os_TempDir : string;
  json_Decode : string → error + config;
  strconv_Quote : string → string;
  (** [http.NewRequestWithContext]: the error for a URL it rejects. *)
  http_NewRequest : string → option error;
  http_Do : world → string → error + Response;
  os_MkdirAll_err : world → string → option error;
  (** The random part of the name that [os.CreateTemp] settles on. *)
  os_nextRandom : world → string;
  os_OpenFile_err : world → string → option error;
  (** [io.Copy] failing after so many bytes reached the file. *)
  io_Copy_err : world → option (nat * error);
  os_Sync_err : world → string → option error;
  os_Rename_err : world → string → string → option error;
  (** The external command: its error and the file system it leaves. *)
  exec_Run : world → string → list string → option error * gmap string string
}.

(** ** Effectful code: state and error *)

Definition M (A : Type) : Type := world → (error + A) * world.

Definition ret {A} (a : A) : M A := λ w, (inr a, w).

Definition bind {A B} (m : M A) (k : A → M B) : M B :=
  λ w, match m w with
       | (inl e, w') => (inl e, w')
       | (inr a, w') => k a w'
       end.

Notation "x <- m ;; k" := (bind m (λ x, k))
  (at level 100, m at next level, right associativity).
Notation "m ;;; k" := (bind m (λ _, k))
  (at level 100, right associativity).

(** [if err != nil { return err }] for a pure outcome. *)
Definition lift {A} (r : error + A) : M A := λ w, (r, w).

Definition check (r : option error) : M unit :=
  lift (match r with Some e => inl e | None => inr tt end).

(** [if err := m; err != nil { return fmt.Errorf("<prefix>%w", err) }]. *)
Definition wrap {A} (prefix : string) (m : M A) : M A :=
  λ w, match m w with
       | (inl e, w') => (inl (fmt_Errorf_w prefix e), w')
       | r => r
       end.

(** [defer cleanup()]: runs when the body returns, whatever it returns. *)
Definition defer {A} (cleanup : world → world) (body : M A) : M A :=
  λ w, let '(r, w') := body w in (r, cleanup w').

Definition emit (e : event) : M unit := λ w, (inr tt, log e w).

Definition LF : string := bytes [10].

Definition fmt_Print (text : string) : M unit := emit (Stdout text).

Definition fail {A} (e : error) : M A := lift (inl e).

(** ** The system calls the program uses *)

Section Calls.
Context (env : Env).

Definition http_Client_Do (url : string) : M Response :=
  λ w, (http_Do env w url, log (HttpGet url) w).

Definition os_MkdirAll (path : string) : M unit :=
  λ w, check (os_MkdirAll_err env w path) (log (MkdirAll path) w).

(** [os.CreateTemp]: the pattern is split at its last ["*"], the random
    string goes in between, and the file is created exclusively. *)
Definition prefixAndSuffix (pattern : string) : error + string * string :=
  if bool_decide (length (splitOn "/"%char pattern) = 1) then
    let ps := splitOn "*"%char pattern in
    if bool_decide (length ps = 1) then inr (pattern, "")
    else inr (String.concat "*" (removelast ps), List.last ps "")
  else inl (PathError "createtemp" pattern
              (errors_New "pattern contains path separator")).

Definition joinPath (dir name : string) : string :=
  if strings_HasSuffixByte dir "/"%char then dir +:+ name
  else dir +:+ "/" +:+ name.

Definition os_CreateTemp (dir pattern : string) : M string :=
  λ w,
    let w1 := log (CreateTemp dir pattern) w in
    let dir := if String.eqb dir "" then os_TempDir env else dir in
    match prefixAndSuffix pattern with
    | inl e => (inl e, w1)
    | inr (prefix, suffix) =>
        let name := joinPath dir prefix +:+ os_nextRandom env w +:+ suffix in
        match os_OpenFile_err env w name with
        | Some e => (inl e, w1)
        | None =>
            match files w !! name with
            | Some _ =>
                (inl (PathError "createtemp"
                        (joinPath dir prefix +:+ "*" +:+ suffix) EEXIST), w1)
            | None => (inr name, set_files (<[name := ""]> (files w)) w1)
            end
        end
    end.

(** [io.Copy(file, body)]: the whole body reaches the file, or a prefix
    of it when the copy fails. *)
Definition io_Copy (name body : string) : M unit :=
  λ w,
    match io_Copy_err env w with
    | Some (n, e) =>
        let written := String.substring 0 n body in
        (inl e, set_files (<[name := written]> (files w))
                  (log (Write name written) w))
    | None =>
        (inr tt, set_files (<[name := body]> (files w))
                   (log (Write name body) w))
    end.

Definition File_Sync (name : string) : M unit :=
  λ w, check (os_Sync_err env w name) (log (Fsync name) w).

Definition os_Rename (oldpath newpath : string) : M unit :=
  λ w,
    let w1 := log (Rename oldpath newpath) w in
    match os_Rename_err env w oldpath newpath with
    | Some e => (inl e, w1)
    | None =>
        match files w !! oldpath with
        | None => (inl (PathError "rename" oldpath ENOENT), w1)
        | Some data =>
            (inr tt,
             set_files (<[newpath := data]> (delete oldpath (files w))) w1)
        end
    end.

(** [os.Remove], its error ignored. *)
Definition os_Remove (name : string) (w : world) : world :=
  set_files (delete name (files w)) (log (Remove name) w).

Definition os_Stat (name : string) : M unit :=
  λ w, match files w !! name with
       | None => (inl (PathError "stat" name ENOENT), log (Stat name) w)
       | Some _ => (inr tt, log (Stat name) w)
       end.

(** [os.Open] followed by reading: the content of the file. *)
Definition os_Open (name : string) : M string :=
  λ w, match files w !! name with
       | None => (inl (PathError "open" name ENOENT), log (Open name) w)
       | Some data => (inr data, log (Open name) w)
       end.

Definition exec_Cmd_Run (dir : string) (argv : list string) : M unit :=
  λ w, let '(r, fs) := exec_Run env w dir argv in
       check r (set_files fs (log (Exec dir argv) w)).
End Calls.

(** ** The program *)

Definition wptRepoRawURL : string :=
  "https://raw.githubusercontent.com/web-platform-tests/wpt".

Definition apply_patch_sentinel : string := "*** Begin Patch".

Definition wrong_format (path : string) : error :=
  errors_New ("patch " +:+ path
    +:+ " looks like apply_patch format; regenerate it with `git diff > "
    +:+ path +:+ "` so git apply can read it").

(** The scanning loop of [ensureSupportedPatchFormat] followed by the test
    of [scanner.Err()]; [lines] are the lines still to be scanned.  The
    scanner reads on demand: after [break] no error has been met. *)
Fixpoint scanPatch (path : string) (lines : list string) : option error :=
  match lines with
  | [] => None
  | raw :: rest =>
      match Scanner_token raw with
      | inl e => Some (fmt_Errorf_w ("read patch " +:+ path +:+ ": ") e)
      | inr text =>
          let line := strings_TrimSpace text in
          if String.eqb line "" then scanPatch path rest
          else if strings_HasPrefix line apply_patch_sentinel
               then Some (wrong_format path)
               else None
      end
  end.

Section Program.
Context (env : Env).

Definition ensureSupportedPatchFormat (path : string) : M unit :=
  data <- wrap ("open patch " +:+ path +:+ ": ") (os_Open path) ;;
  check (scanPatch path (raw_lines data)).

Definition git_apply_argv (absPatch : string) : list string :=
  ["git"; "apply"; "--allow-empty"; "--whitespace=nowarn"; absPatch].

Definition applyPatch (root patchPath : string) : M unit :=
  let absPatch :=
    if filepath_IsAbs patchPath then patchPath
    else filepath_Join [root; patchPath] in
  wrap "stat patch: " (os_Stat absPatch) ;;;
  ensureSupportedPatchFormat absPatch ;;;
  wrap "git apply failed: " (exec_Cmd_Run env root (git_apply_argv absPatch)).

Definition download (url dest : string) : M unit :=
  check (http_NewRequest env url) ;;;
  resp <- http_Client_Do env url ;;
  if negb (StatusCode resp =? 200)%Z
  then fail (errors_New ("unexpected status " +:+ Status resp))
  else
    wrap "create destination directory: "
      (os_MkdirAll env (filepath_Dir dest)) ;;;
    tmpFile <- wrap "create temp file: "
      (os_CreateTemp env (filepath_Dir dest) ".wpt-download-*") ;;
    defer (os_Remove tmpFile)
      (wrap "write temp file: " (io_Copy env tmpFile (Body resp)) ;;;
       wrap "sync temp file: " (File_Sync env tmpFile) ;;;
       wrap "move file into place: " (os_Rename env tmpFile dest)).

Definition fetch_url (cfg : config) (file : fileSpec) : string :=
  wptRepoRawURL +:+ "/" +:+ Commit cfg +:+ "/"
    +:+ strings_TrimLeft (Src file) "/".

Definition dest_path (root : string) (cfg : config) (file : fileSpec) : string :=
  filepath_Join [root; TargetDir cfg; filepath_FromSlash (Dst file)].

Definition plan_line (root : string) (cfg : config) (file : fileSpec) : string :=
  " - " +:+ strings_TrimLeft (Src file) "/" +:+ " -> "
    +:+ dest_path root cfg file +:+ LF.

Definition processFile (root : string) (cfg : config) (file : fileSpec)
    (skipPatching dryRun : bool) : M unit :=
  let src := strings_TrimLeft (Src file) "/" in
  let url := fetch_url cfg file in
  let dest := dest_path root cfg file in
  fmt_Print (plan_line root cfg file) ;;;
  if dryRun then ret tt
  else
    wrap ("download " +:+ src +:+ ": ") (download url dest) ;;;
    if skipPatching || String.eqb (Patch file) "" then ret tt
    else wrap ("apply patch " +:+ Patch file +:+ ": ")
           (applyPatch root (Patch file)).

Definition skip_line (file : fileSpec) : string :=
  " - skipping " +:+ Src file +:+ " (disabled)" +:+ LF.

(** The body of the [for _, file := range cfg.Files] loop of [runSync]
    and [run]: [continue] after the skip message, [return err] when
    [processFile] fails. *)
Definition syncEntry (root : string) (cfg : config) (skipPatching dryRun : bool)
    (file : fileSpec) : M unit :=
  if negb (isEnabled file) then fmt_Print (skip_line file)
  else processFile root cfg file skipPatching dryRun.

Fixpoint syncFiles (root : string) (cfg : config) (skipPatching dryRun : bool)
    (todo : list fileSpec) : M unit :=
  match todo with
  | [] => ret tt
  | file :: rest =>
      syncEntry root cfg skipPatching dryRun file ;;;
      syncFiles root cfg skipPatching dryRun rest
  end.

Definition loadConfig (path : string) : M config :=
  data <- wrap ("open config " +:+ strconv_Quote env path +:+ ": ")
            (os_Open path) ;;
  wrap ("decode config " +:+ strconv_Quote env path +:+ ": ")
    (lift (json_Decode env data)).

Definition syncing_line (cfg : config) : string :=
  "Syncing " +:+ pretty (length (Files cfg)) +:+ " WPT files from "
    +:+ wptRepoRawURL +:+ " at commit " +:+ Commit cfg +:+ LF.
End Program.

(** [validate] of the root command. *)
Definition validate (c : config) : option error :=
  if String.eqb (Commit c) ""
  then Some (errors_New "config: commit hash must be provided")
  else if String.eqb (TargetDir c) ""
  then Some (errors_New "config: target_dir must be provided")
  else None.

(** [runSync] of the root command. *)
Definition runSync (env : Env) (configPath : string)
    (skipPatching dryRun : bool) : M unit :=
  root <- wrap "determine repo root from config: "
            (lift (filepath_Abs (os_Getwd env) (filepath_Dir configPath))) ;;
  cfg <- loadConfig env configPath ;;
  check (validate cfg) ;;;
  if bool_decide (length (Files cfg) = 0)
  then fmt_Print ("No files configured to sync." +:+ LF)
  else
    fmt_Print (syncing_line cfg) ;;;
    syncFiles env root cfg skipPatching dryRun (Files cfg).

(** The older command [sync-wpt]: the same pipeline with a stricter
    [validate] and no special case for an empty list in the driver. *)
Module SyncWpt.

Definition validate (c : config) : option error :=
  if String.eqb (Commit c) ""
  then Some (errors_New "config: commit hash must be provided")
  else if String.eqb (TargetDir c) ""
  then Some (errors_New "config: target_dir must be provided")
  else if bool_decide (length (Files c) = 0)
  then Some (errors_New "config: files list cannot be empty")
  else None.

Definition run (env : Env) (configPath : string)
    (skipPatching dryRun : bool) : M unit :=
  root <- wrap "determine repo root from config: "
            (lift (filepath_Abs (os_Getwd env) (filepath_Dir configPath))) ;;
  cfg <- loadConfig env configPath ;;
  check (validate cfg) ;;;
  fmt_Print (syncing_line cfg) ;;;
  syncFiles env root cfg skipPatching dryRun (Files cfg).

End SyncWpt.

(** ** Vocabulary of the properties *)

Definition is_network (e : event) : bool :=
  match e with
  | HttpGet _ => true
  | _ => false
  end.

Definition is_fs_write (e : event) : bool :=
  match e with
  | MkdirAll _ | CreateTemp _ _ | Write _ _ | Fsync _ | Rename _ _ | Remove _ => true
  | _ => false
  end.

(** The calls of the patch applier: looking at the patch file and running
    the external tool. *)
Definition is_patch (e : event) : bool :=
  match e with
  | Stat _ | Open _ | Exec _ _ => true
  | _ => false
  end.

Definition is_exec (e : event) : bool :=
  match e with
  | Exec _ _ => true
  | _ => false
  end.

(** The calls [download] may make. *)
Definition is_download (e : event) : Prop := is_network e = true ∨ is_fs_write e = true.

(** [emits P m]: running [m] only appends events, all of which satisfy [P]. *)
Definition emits {A} (P : event → Prop) (m : M A) : Prop :=
  ∀ w, ∃ t, trace (m w).2 = trace w ++ t ∧ Forall P t.

Definition emits_after (P : event → Prop) (f : world → world) : Prop :=
  ∀ w, ∃ t, trace (f w) = trace w ++ t ∧ Forall P t.

(** Lexical containment of cleaned absolute paths: [p] is [base] or lies
    below it. *)
Definition path_under (base p : string) : bool :=
  String.eqb p base
  || strings_HasPrefix p (if String.eqb base "/" then "/" else base +:+ "/").

Definition has_dotdot (path : string) : bool :=
  existsb (String.eqb "..") (splitOn "/"%char path).

Definition blank (line : string) : bool :=
  String.eqb (strings_TrimSpace line) "".

(** The first line of a text that is not blank, if there is one. *)
Definition first_nonblank_line (data : string) : option string :=
  List.find (λ l, negb (blank l)) (text_lines data).

(** The lines a scanner has to get through to deliver the first non-blank
    line: the blank lines before it and the line itself, as they are in the
    file. *)
Fixpoint upto_first_nonblank (raws : list string) : list string :=
  match raws with
  | [] => []
  | raw :: rest =>
      if blank (dropCR raw) then raw :: upto_first_nonblank rest else [raw]
  end.

(** ** Sample environments and inputs *)

Definition ok_response (body : string) : Response :=
  {| StatusCode := 200; Status := "200 OK"; Body := body |}.

Definition not_found_response : Response :=
  {| StatusCode := 404; Status := "404 Not Found"; Body := "404: Not Found" |}.

(** An environment in which no call fails: the request for [url] is
    answered by [http url], the copy fails as [copy_err] says, the external
    tool leaves the files as they are. *)
Definition sample_env (http : string → Response)
    (copy_err : option (nat * error)) : Env :=
  {| os_Getwd := inr "/repo";
     os_TempDir := "/tmp";
     json_Decode := λ _, inl (errors_New "unexpected end of JSON input");
     strconv_Quote := λ s, s;
     http_NewRequest := λ _, None;
     http_Do := λ _ url, inr (http url);
     os_MkdirAll_err := λ _ _, None;
     os_nextRandom := λ _, "2041796531";
     os_OpenFile_err := λ _ _, None;
     io_Copy_err := λ _, copy_err;
     os_Sync_err := λ _ _, None;
     os_Rename_err := λ _ _ _, None;
     exec_Run := λ w _ _, (None, files w) |}.

Definition entry (src dst : string) : fileSpec :=
  {| Src := src; Dst := dst; Enabled := None; Patch := "" |}.

Definition sample_config (entries : list fileSpec) : config :=
  {| Commit := "deadbeef"; TargetDir := "out"; Files := entries |}.

(** A server that has every file but [b.js]. *)
Definition b_missing (url : string) : Response :=
  if String.eqb url (wptRepoRawURL +:+ "/deadbeef/b.js")
  then not_found_response
  else ok_response "console.log(1)".

Definition empty_world : world := {| files := ∅; trace := [] |}.

Definition disabled_entry : fileSpec :=
  {| Src := "/b.js"; Dst := "b.js"; Enabled := Some false; Patch := "b.patch" |}.

(** How [processFile] labels the error of an entry: by the source path for
    a failed download, by the patch path for a failed patch. *)
Definition names_entry (file : fileSpec) (e : error) : Prop :=
  (∃ cause, e = fmt_Errorf_w
                  ("download " +:+ strings_TrimLeft (Src file) "/" +:+ ": ") cause)
  ∨ (Patch file ≠ ""
     ∧ ∃ cause, e = fmt_Errorf_w ("apply patch " +:+ Patch file +:+ ": ") cause).

(** A copy that breaks off after seven bytes, and a world in which the
    destination already exists. *)
Definition copy_fails_env : Env :=
  sample_env (λ _, ok_response "console.log(1)")
    (Some (7, errors_New "unexpected EOF")).

Definition world_with (name data : string) : world :=
  {| files := {[ name := data ]}; trace := [] |}.

(** The name [os.CreateTemp] settles on in the world [w]. *)
Definition temp_name (env : Env) (dir pattern : string) (w : world) : string :=
  match prefixAndSuffix pattern with
  | inl _ => ""
  | inr (prefix, suffix) =>
      joinPath (if String.eqb dir "" then os_TempDir env else dir) prefix
        +:+ os_nextRandom env w +:+ suffix
  end.

(** No call of the download path fails. *)
Definition faultless (env : Env) : Prop :=
  (∀ url, http_NewRequest env url = None)
  ∧ (∀ w path, os_MkdirAll_err env w path = None)
  ∧ (∀ w name, os_OpenFile_err env w name = None)
  ∧ (∀ w, io_Copy_err env w = None)
  ∧ (∀ w name, os_Sync_err env w name = None)
  ∧ (∀ w old new, os_Rename_err env w old new = None).

(** The calls of a download that succeeds, [tmp] being the temporary file. *)
Definition download_calls (url dest tmp body : string) : list event :=
  [ HttpGet url; MkdirAll (filepath_Dir dest);
    CreateTemp (filepath_Dir dest) ".wpt-download-*";
    Write tmp body; Fsync tmp; Rename tmp dest; Remove tmp ].

Fixpoint slashes (n : nat) : string :=
  match n with
  | 0 => ""
  | S n' => String "/" (slashes n')
  end.

(** The error of [download] for a response that is not [200 OK], as
    [processFile] returns it. *)
Definition status_error (file : fileSpec) (resp : Response) : error :=
  fmt_Errorf_w ("download " +:+ strings_TrimLeft (Src file) "/" +:+ ": ")
    (errors_New ("unexpected status " +:+ Status resp)).

(** What [download] does with the response of the server. *)
Definition store_response (env : Env) (dest : string) (resp : Response) : M unit :=
  if negb (StatusCode resp =? 200)%Z
  then fail (errors_New ("unexpected status " +:+ Status resp))
  else
    wrap "create destination directory: "
      (os_MkdirAll env (filepath_Dir dest)) ;;;
    tmpFile <- wrap "create temp file: "
      (os_CreateTemp env (filepath_Dir dest) ".wpt-download-*") ;;
    defer (os_Remove tmpFile)
      (wrap "write temp file: " (io_Copy env tmpFile (Body resp)) ;;;
       wrap "sync temp file: " (File_Sync env tmpFile) ;;;
       wrap "move file into place: " (os_Rename env tmpFile dest)).

(** What [processFile] does after a download that succeeded. *)
Definition patch_stage (env : Env) (root : string) (file : fileSpec)
    (skipPatching : bool) : M unit :=
  if skipPatching || String.eqb (Patch file) "" then ret tt
  else wrap ("apply patch " +:+ Patch file +:+ ": ")
         (applyPatch env root (Patch file)).

(** The patch file [applyPatch] looks at. *)
Definition abs_patch (root patchPath : string) : string :=
  if filepath_IsAbs patchPath then patchPath
  else filepath_Join [root; patchPath].

Definition patched_entry : fileSpec :=
  {| Src := "resources/testharness.js"; Dst := "resources/testharness.js";
     Enabled := Some true; Patch := "patches/testharness.js.patch" |}.

Fixpoint replicate_byte (n : nat) (c : ascii) : string :=
  match n with
  | 0 => ""
  | S n' => String c (replicate_byte n' c)
  end.

(** A patch in the [apply_patch] format that starts with a line of 64 KiB
    of spaces. *)
Definition scanner_buffer : nat := N.to_nat bufio_MaxScanTokenSize.

Definition padded_patch : string :=
  replicate_byte scanner_buffer " " +:+ LF +:+ apply_patch_sentinel +:+ LF.

(** A small patch in the [apply_patch] format, after a blank line. *)
Definition marked_patch : string :=
  bytes [32; 13; 10] +:+ "  *** Begin Patch" +:+ bytes [13; 10]
    +:+ "*** Update File: a/b.js" +:+ LF.

(** The output of [filepath.Clean] for the elements it keeps. *)
Definition render (rooted : bool) (out : list string) : string :=
  if rooted then "/" +:+ String.concat "/" out
  else match out with
       | [] => "."
       | _ => String.concat "/" out
       end.

(** The elements of a path that [filepath.Clean] keeps when there is no
    [..] among them. *)
Definition is_real (e : string) : bool :=
  negb (String.eqb e "") && negb (String.eqb e ".").

Definition real_elems (path : string) : list string :=
  List.filter is_real (splitOn "/"%char path).

Definition escaping_entry : fileSpec := entry "x" "../../etc/passwd".

(** The text that [filepath.Join] hands to [filepath.Clean] for the
    elements [root] and [targetDir] when one of them is not empty. *)
Definition join_base (root targetDir : string) : string :=
  if String.eqb root "" then targetDir else root +:+ String "/" targetDir.

(** The same environment with a JSON decoder that yields [cfg]. *)
Definition with_config (cfg : config) (env : Env) : Env :=
  {| os_Getwd := os_Getwd env;
     os_TempDir := os_TempDir env;
     json_Decode := λ _, inr cfg;
     strconv_Quote := strconv_Quote env;
     http_NewRequest := http_NewRequest env;
     http_Do := http_Do env;
     os_MkdirAll_err := os_MkdirAll_err env;
     os_nextRandom := os_nextRandom env;
     os_OpenFile_err := os_OpenFile_err env;
     io_Copy_err := io_Copy_err env;
     os_Sync_err := os_Sync_err env;
     os_Rename_err := os_Rename_err env;
     exec_Run := exec_Run env |}.

Definition three_entries : config :=
  sample_config [entry "a.js" "a.js"; entry "b.js" "b.js"; entry "c.js" "c.js"].

(** An element that [filepath.Clean] keeps as it is: not empty, not [.],
    not [..], and (being an element) without a separator. *)
Definition is_proper (e : string) : bool :=
  is_real e && negb (String.eqb e "..") && negb (strings_ContainsByte e "/").

(** The states the loop of [filepath.Clean] goes through: the buffer holds
    [dotdot] times [..] (none in a rooted path) and then proper elements. *)
Definition clean_state (rooted : bool) (st : list string * nat) : Prop :=
  ∃ kept, st.1 = rev kept ++ replicate st.2 ".."
          ∧ forallb is_proper kept = true
          ∧ (rooted = true → st.2 = 0).

(** ** Proof steps *)

(** Membership in a list that is written out. *)
Ltac elem_cases H :=
  repeat match type of H with
         | _ ∈ [] => by apply elem_of_nil in H
         | _ ∈ _ :: _ => apply elem_of_cons in H as [H | H]; [try discriminate H |]
         end.

Ltac unfold_calls :=
  unfold http_Client_Do, os_MkdirAll, io_Copy, File_Sync, os_Rename, os_Remove,
    os_Stat, os_Open, exec_Cmd_Run, fmt_Print, emit, fail, check, lift,
    wrap, defer, bind, ret in *.

(** * The rest of the root command: [init], [add] and the dispatch *)

(** ** More of package [strings] *)

(** [s] ends with [suffix]: some tail of [s] is [suffix]. *)
Fixpoint strings_HasSuffix (s suffix : string) : bool :=
  String.eqb s suffix
  || match s with
     | EmptyString => false
     | String _ s' => strings_HasSuffix s' suffix
     end.

(** [strings.TrimSuffix]: [s[:len(s)-len(suffix)]] when [s] ends with
    [suffix]. *)
Definition strings_TrimSuffix (s suffix : string) : string :=
  if strings_HasSuffix s suffix
  then String.substring 0 (String.length s - String.length suffix) s
  else s.

(** [strings.TrimRight] and [strings.Trim] for a cutset of ASCII bytes. *)
Fixpoint strings_TrimRight (s cutset : string) : string :=
  match s with
  | EmptyString => ""
  | String c s' =>
      match strings_TrimRight s' cutset with
      | EmptyString => if strings_ContainsByte cutset c then "" else String c ""
      | r => String c r
      end
  end.

Definition strings_Trim (s cutset : string) : string :=
  strings_TrimLeft (strings_TrimRight s cutset) cutset.

(** ** The listing API *)

Definition wptGitHubAPIURL : string :=
  "https://api.github.com/repos/web-platform-tests/wpt/commits/master".

Definition wptGitHubContentsAPI : string :=
  "https://api.github.com/repos/web-platform-tests/wpt/contents".

Record githubItem : Type := {
  Name : string;
  Path : string;
  Type' : string                (* the field [Type] *)
}.

(** What [init] and [add] need beyond the calls of [sync]: the JSON
    library (not modelled) and the outcome of reading a response and of
    writing the configuration file.  [os.WriteFile] either succeeds, or fails
    before it opened the file ([None]), or fails after it truncated the file
    and wrote so many bytes. *)
Record ApiEnv : Type := {
  sync_env :> Env;
  json_MarshalIndent : config → error + string;
  json_Unmarshal_item : string → error + githubItem;
  json_Unmarshal_items : string → error + list githubItem;
  (** Decoding the commit document and taking its [sha]. *)
  json_Decode_sha : string → error + string;
  io_ReadAll_err : world → option error;
  os_WriteFile_err : world → string → option (option nat * error)
}.

Definition os_WriteFile (env : ApiEnv) (name data : string) : M unit :=
  λ w,
    match os_WriteFile_err env w name with
    | None =>
        (inr tt, set_files (<[name := data]> (files w)) (log (Write name data) w))
    | Some (None, e) => (inl e, log (Write name "") w)
    | Some (Some n, e) =>
        let written := String.substring 0 n data in
        (inl e, set_files (<[name := written]> (files w))
                  (log (Write name written) w))
    end.

Definition contents_url (commit path : string) : string :=
  wptGitHubContentsAPI +:+ "/" +:+ path +:+ "?ref=" +:+ commit.

Definition is_js_file (item : githubItem) : bool :=
  String.eqb (Type' item) "file" && strings_HasSuffix (Path item) ".js".

(** The loop [for _, item := range items] of [listFilesRecursive]; [recurse]
    is the recursive call for a directory.  The accumulator [files] stands
    for [*files]: it keeps what was appended also when an error is returned.
    [None] means that the recursion ran out of fuel. *)
Fixpoint rangeItems
    (recurse : string → list string → world
               → option (option error * list string * world))
    (items : list githubItem) (files : list string) (w : world)
  : option (option error * list string * world) :=
  match items with
  | [] => Some (None, files, w)
  | item :: rest =>
      if String.eqb (Type' item) "file" then
        rangeItems recurse rest
          (if strings_HasSuffix (Path item) ".js"
           then files ++ [Path item] else files) w
      else if String.eqb (Type' item) "dir" then
        match recurse (Path item) files w with
        | None => None
        | Some (Some e, files', w') => Some (Some e, files', w')
        | Some (None, files', w') => rangeItems recurse rest files' w'
        end
      else rangeItems recurse rest files w
  end.

(** [listFilesRecursive].  The depth of the walk is decided by the server,
    so the recursion is bounded by [fuel]. *)
Fixpoint listFilesRecursive (env : ApiEnv) (fuel : nat) (commit path : string)
    (files : list string) (w : world)
  : option (option error * list string * world) :=
  match fuel with
  | 0 => None
  | S fuel' =>
      let url := contents_url commit path in
      match http_NewRequest env url with
      | Some e => Some (Some e, files, w)
      | None =>
          let w1 := log (HttpGet url) w in
          match http_Do env w url with
          | inl e => Some (Some e, files, w1)
          | inr resp =>
              if (StatusCode resp =? 404)%Z then
                Some (Some (errors_New ("path " +:+ strconv_Quote env path
                                        +:+ " not found in repository")),
                      files, w1)
              else if negb (StatusCode resp =? 200)%Z then
                Some (Some (errors_New ("GitHub API returned " +:+ Status resp)),
                      files, w1)
              else
                match io_ReadAll_err env w1 with
                | Some e => Some (Some (fmt_Errorf_w "read response: " e), files, w1)
                | None =>
                    let body := Body resp in
                    let trimmed := strings_TrimLeft body (bytes [32; 9; 10; 13]) in
                    if strings_HasPrefix trimmed "{" then
                      (* single file object *)
                      match json_Unmarshal_item env body with
                      | inl e =>
                          Some (Some (fmt_Errorf_w "decode response: " e), files, w1)
                      | inr singleItem =>
                          Some (None,
                                if is_js_file singleItem
                                then files ++ [Path singleItem] else files,
                                w1)
                      end
                    else
                      (* directory listing *)
                      match json_Unmarshal_items env body with
                      | inl e =>
                          Some (Some (fmt_Errorf_w "decode response: " e), files, w1)
                      | inr items =>
                          rangeItems (listFilesRecursive env fuel' commit)
                            items files w1
                      end
                end
          end
      end
  end.

Definition listFilesInPath (env : ApiEnv) (fuel : nat) (commit pathPrefix : string)
    (w : world) : option ((error + list string) * world) :=
  match listFilesRecursive env fuel commit pathPrefix [] w with
  | None => None
  | Some (Some e, _, w') => Some (inl e, w')
  | Some (None, files, w') => Some (inr files, w')
  end.

(** ** [add] *)

(** [existing := make(map[string]bool)] filled from the configuration. *)
Definition existing_srcs (entries : list fileSpec) : gmap string bool :=
  foldl (λ m f, <[Src f := true]> m) ∅ entries.

(** Reading a Go map: the zero value for a missing key. *)
Definition map_get (m : gmap string bool) (key : string) : bool :=
  default false (m !! key).

(** The destination [add] gives to a source: [.any.js] becomes [.js]. *)
Definition add_dst (src : string) : string :=
  if strings_HasSuffix src ".any.js"
  then strings_TrimSuffix src ".any.js" +:+ ".js"
  else src.

Definition new_entry (src : string) : fileSpec :=
  {| Src := src; Dst := add_dst src; Enabled := None; Patch := "" |}.

(** The loop [for _, src := range files] of [runAdd]: [entries] is
    [cfg.Files], [added] the counter. *)
Fixpoint addLoop (existing : gmap string bool) (files : list string)
    (entries : list fileSpec) (added : nat) : M (list fileSpec * nat) :=
  match files with
  | [] => ret (entries, added)
  | src :: rest =>
      if map_get existing src then addLoop existing rest entries added
      else
        fmt_Print (" + " +:+ src +:+ LF) ;;;
        addLoop existing rest (entries ++ [new_entry src]) (S added)
  end.

(** [runAdd] from the point where the listing has succeeded. *)
Definition addListed (env : ApiEnv) (configPath wptPath : string) (cfg : config)
    (files : list string) : M unit :=
  if bool_decide (length files = 0)
  then fmt_Print ("No .js files found in " +:+ wptPath +:+ LF)
  else
    r <- addLoop (existing_srcs (Files cfg)) files (Files cfg) 0 ;;
    if bool_decide (r.2 = 0)
    then fmt_Print ("No new files to add (all files already in config)." +:+ LF)
    else
      data <- wrap "marshal config: "
                (lift (json_MarshalIndent env
                         {| Commit := Commit cfg; TargetDir := TargetDir cfg;
                            Files := r.1 |})) ;;
      wrap "write config: " (os_WriteFile env configPath data) ;;;
      fmt_Print ("Added " +:+ pretty r.2 +:+ " files to " +:+ configPath +:+ LF).

Definition runAdd (env : ApiEnv) (fuel : nat) (configPath wptPath : string)
    (w : world) : option ((error + unit) * world) :=
  match loadConfig env configPath w with
  | (inl e, w1) => Some (inl e, w1)
  | (inr cfg, w1) =>
      let wptPath := strings_Trim wptPath "/" in
      let w2 := log (Stdout ("Fetching file list from " +:+ wptPath
                             +:+ "..." +:+ LF)) w1 in
      match listFilesInPath env fuel (Commit cfg) wptPath w2 with
      | None => None
      | Some (inl e, w3) => Some (inl (fmt_Errorf_w "list files: " e), w3)
      | Some (inr files, w3) =>
          Some (addListed env configPath wptPath cfg files w3)
      end
  end.

(** ** [init] *)

Definition fetchLatestCommit (env : ApiEnv) : M string :=
  check (http_NewRequest env wptGitHubAPIURL) ;;;
  resp <- http_Client_Do env wptGitHubAPIURL ;;
  if negb (StatusCode resp =? 200)%Z
  then fail (errors_New ("GitHub API returned " +:+ Status resp))
  else
    sha <- wrap "decode response: " (lift (json_Decode_sha env (Body resp))) ;;
    if String.eqb sha "" then fail (errors_New "empty commit SHA in response")
    else ret sha.

Definition initial_config (commit : string) : config :=
  {| Commit := commit; TargetDir := "wpt"; Files := [] |}.

Definition runInit (env : ApiEnv) (configPath : string) : M unit :=
  λ w,
    match os_Stat configPath w with
    | (inr _, w1) =>
        (inl (errors_New ("config file " +:+ strconv_Quote env configPath
                          +:+ " already exists")), w1)
    | (inl _, w1) =>
        (fmt_Print ("Fetching latest WPT commit..." +:+ LF) ;;;
         commit <- wrap "fetch latest commit: " (fetchLatestCommit env) ;;
         data <- wrap "marshal config: "
                   (lift (json_MarshalIndent env (initial_config commit))) ;;
         wrap "write config: " (os_WriteFile env configPath data) ;;;
         fmt_Print ("Created " +:+ configPath +:+ " with commit " +:+ commit
                    +:+ LF)) w1
    end.

(** ** The dispatch of [main] *)

(** What [main] does with [os.Args]: the command it runs and the arguments
    it hands to it, the usage text, or the complaint about an unknown
    command.  With an empty [os.Args] the slice expression [os.Args[1:]] is
    out of range. *)
Inductive invocation : Type :=
| RunSyncCommand (args : list string)
| RunInitCommand (args : list string)
| RunAddCommand (args : list string)
| PrintUsage
| UnknownCommand (name : string)
| SlicePanic.

Definition main (os_Args : list string) : invocation :=
  match os_Args with
  | [] => SlicePanic
  | [_] => RunSyncCommand []
  | _ :: cmd :: rest =>
      if String.eqb cmd "init" then RunInitCommand rest
      else if String.eqb cmd "add" then RunAddCommand rest
      else if String.eqb cmd "sync" then RunSyncCommand rest
      else if String.eqb cmd "help" || String.eqb cmd "-h"
              || String.eqb cmd "--help" then PrintUsage
      else if strings_HasPrefix cmd "-" then RunSyncCommand (cmd :: rest)
      else UnknownCommand cmd
  end.

(** ** Vocabulary for [add] *)

(** The sources of a listing that a configuration does not have yet. *)
Definition fresh_srcs (entries : list fileSpec) (listing : list string)
  : list string :=
  List.filter (λ src, negb (map_get (existing_srcs entries) src)) listing.

Definition added_line (src : string) : event := Stdout (" + " +:+ src +:+ LF).

(** The configuration after [add] found [listing]. *)
Definition with_added (cfg : config) (listing : list string) : config :=
  {| Commit := Commit cfg; TargetDir := TargetDir cfg;
     Files := Files cfg ++ (new_entry <$> fresh_srcs (Files cfg) listing) |}.

Definition sample_listing : list string :=
  ["url/a.any.js"; "url/resources/b.js"; "url/a.js"].

Definition print (text : string) (w : world) : world := log (Stdout text) w.

(** The world after the [ + src] lines of the sources that are added. *)
Definition after_added_lines (cfg : config) (listing : list string) (w : world)
  : world :=
  {| files := files w;
     trace := trace w ++ (added_line <$> fresh_srcs (Files cfg) listing) |}.

(** What a walk of the listing API may do between two states: it leaves the
    files alone, only appends paths that end in [.js] to the accumulator, and
    only makes requests. *)
Definition walk_step (acc : list string) (w : world)
    (acc' : list string) (w' : world) : Prop :=
  files w' = files w
  ∧ (∃ more, acc' = acc ++ more
             ∧ Forall (λ p, strings_HasSuffix p ".js" = true) more)
  ∧ (∃ t, trace w' = trace w ++ t ∧ Forall (λ e, is_network e = true) t).

(** ** A sample server *)

Definition js_item (path : string) : githubItem :=
  {| Name := path; Path := path; Type' := "file" |}.

Definition dir_item (path : string) : githubItem :=
  {| Name := path; Path := path; Type' := "dir" |}.

(** The directory [url] holds two files and the directory [url/resources],
    which holds one script and one other file; nothing else exists.  The
    bodies stand for the JSON documents, which the sample decoder maps to
    their items. *)
Definition sample_api (url : string) : Response :=
  if String.eqb url (contents_url "deadbeef" "url")
  then ok_response "[url]"
  else if String.eqb url (contents_url "deadbeef" "url/resources")
  then ok_response "[url/resources]"
  else if String.eqb url wptGitHubAPIURL
  then ok_response "deadbeef"
  else not_found_response.

Definition sample_items (body : string) : error + list githubItem :=
  if String.eqb body "[url]"
  then inr [js_item "url/a.any.js"; js_item "url/README.md";
            dir_item "url/resources"; js_item "url/a.js"]
  else if String.eqb body "[url/resources]"
  then inr [js_item "url/resources/b.js"; js_item "url/resources/c.json"]
  else inl (errors_New "unexpected end of JSON input").

(** A stand-in for the JSON text of a configuration: the commit, the target
    directory and the sources. *)
Definition sample_marshal (cfg : config) : string :=
  String.concat " " (Commit cfg :: TargetDir cfg :: (Src <$> Files cfg)).

Definition sample_api_env (sync : Env) : ApiEnv :=
  {| sync_env := sync;
     json_MarshalIndent := λ cfg, inr (sample_marshal cfg);
     json_Unmarshal_item := λ _, inl (errors_New "unexpected end of JSON input");
     json_Unmarshal_items := sample_items;
     json_Decode_sha := λ body, inr body;
     io_ReadAll_err := λ _, None;
     os_WriteFile_err := λ _ _, None |}.

Definition listing_env : ApiEnv := sample_api_env (sample_env sample_api None).

(** The sample server with a configuration file that decodes to [cfg]. *)
Definition add_env (cfg : config) : ApiEnv :=
  sample_api_env (with_config cfg (sample_env sample_api None)).

Definition add_world : world :=
  {| files := {[ "wpt.json" := "{}"; "README.md" := "# k6" ]}; trace := [] |}.

(** An environment for [init]: the sample server, and a decoder that reads
    the configuration [init] writes for the commit [deadbeef]. *)
Definition init_env : ApiEnv :=
  sample_api_env (with_config (initial_config "deadbeef")
                    (sample_env sample_api None)).

(** The line the loop prints for an entry before it does anything. *)
Definition entry_line (root : string) (cfg : config) (file : fileSpec) : event :=
  Stdout (if isEnabled file then plan_line root cfg file else skip_line file).

(** A configuration file that [sync] can work with. *)
Definition loads (env : Env) (configPath : string) (w : world) (cfg : config)
  : Prop :=
  ∃ data, files w !! configPath = Some data ∧ json_Decode env data = inr cfg.

(** ** Vocabulary for a whole run of [sync] *)

(** The calls [sync] may make for the entry [file]: the request for its
    URL, the directory and the rename of its destination, the look at its
    patch and the external tool on its patch. *)
Definition entry_call (root : string) (cfg : config) (file : fileSpec)
    (e : event) : Prop :=
  match e with
  | HttpGet url => url = fetch_url cfg file
  | MkdirAll dir | CreateTemp dir _ =>
      dir = filepath_Dir (dest_path root cfg file)
  | Rename _ newpath => newpath = dest_path root cfg file
  | Stat p | Open p => Patch file ≠ "" ∧ p = abs_patch root (Patch file)
  | Exec dir argv =>
      Patch file ≠ "" ∧ dir = root
      ∧ argv = git_apply_argv (abs_patch root (Patch file))
  | Stdout _ | Write _ _ | Fsync _ | Remove _ => True
  end.

(** An event of the loop over [todo]: a printed line, or a call for an
    enabled entry of [todo]. *)
Definition sync_call (root : string) (cfg : config) (todo : list fileSpec)
    (e : event) : Prop :=
  (∃ text, e = Stdout text)
  ∨ ∃ file, file ∈ todo ∧ isEnabled file = true ∧ entry_call root cfg file e.





(** A patch in the format of [git diff] that quotes the sentinel of the
    other format further down. *)
Definition git_patch : string :=
  LF +:+ "diff --git a/b.js b/b.js" +:+ LF +:+ "*** Begin Patch" +:+ LF.

(** A configuration with an enabled entry, a disabled entry and an entry
    with a patch, and a world that holds its file. *)
Definition mixed_config : config :=
  sample_config [entry "/a.js" "a.js"; disabled_entry; patched_entry].

Definition mixed_env : Env :=
  with_config mixed_config (sample_env (λ _, ok_response "console.log(1)") None).

(** A server that knows the single file [url/a.any.js]. *)
Definition file_api (url : string) : Response :=
  if String.eqb url (contents_url "deadbeef" "url/a.any.js")
  then ok_response " {url/a.any.js}"
  else not_found_response.

Definition file_api_env : ApiEnv :=
  {| sync_env := sample_env file_api None;
     json_MarshalIndent := λ cfg, inr (sample_marshal cfg);
     json_Unmarshal_item := λ body,
       if String.eqb body " {url/a.any.js}" then inr (js_item "url/a.any.js")
       else inl (errors_New "unexpected end of JSON input");
     json_Unmarshal_items := λ _,
       inl (errors_New "json: cannot unmarshal object into Go value");
     json_Decode_sha := λ body, inr body;
     io_ReadAll_err := λ _, None;
     os_WriteFile_err := λ _ _, None |}.

(** ** Package [flag] and the three commands *)

(** The ways [FlagSet.Parse] fails; with [flag.ExitOnError] each of them
    ends the process after the message and the usage text. *)
Inductive flagError : Type :=
| BadFlagSyntax (arg : string)              (* bad flag syntax: %s *)
| FlagNotDefined (name : string)            (* flag provided but not defined *)
| InvalidBoolean (value name : string)      (* invalid boolean value %q for -%s *)
| FlagNeedsArgument (name : string)         (* flag needs an argument: -%s *)
| ErrHelp.                                  (* -h or -help, not defined *)

Inductive flagValue : Type :=
| BoolValue (b : bool)
| StringValue (s : string).

(** The flags of a set with their current values. *)
Definition FlagSet : Type := gmap string flagValue.

Definition strconv_ParseBool (s : string) : option bool :=
  if existsb (String.eqb s) ["1"; "t"; "T"; "TRUE"; "true"; "True"]
  then Some true
  else if existsb (String.eqb s) ["0"; "f"; "F"; "FALSE"; "false"; "False"]
  then Some false
  else None.

(** [len(s) >= 2 && s[0] == '-']: the argument is taken as a flag. *)
Definition is_flag_arg (s : string) : bool :=
  match s with
  | String c (String _ _) => Ascii.eqb c "-"
  | _ => false
  end.

(** [s[numMinuses:]] for an argument that is taken as a flag. *)
Definition flag_name (s : string) : string :=
  match s with
  | String _ (String c rest) => if Ascii.eqb c "-" then rest else String c rest
  | _ => ""
  end.

(** [len(name) == 0 || name[0] == '-' || name[0] == '=']. *)
Definition bad_flag_name (name : string) : bool :=
  match name with
  | EmptyString => true
  | String c _ => Ascii.eqb c "-" || Ascii.eqb c "="
  end.

(** The text before and after the first occurrence of [sep]. *)
Fixpoint strings_Cut (s : string) (sep : ascii) : option (string * string) :=
  match s with
  | EmptyString => None
  | String c s' =>
      if Ascii.eqb c sep then Some ("", s')
      else match strings_Cut s' sep with
           | Some (before, after) => Some (String c before, after)
           | None => None
           end
  end.

(** The name and the value of [name=value]; the equals sign cannot be
    first. *)
Definition name_value (name : string) : string * option string :=
  match name with
  | EmptyString => ("", None)
  | String c rest =>
      match strings_Cut rest "=" with
      | Some (before, value) => (String c before, Some value)
      | None => (name, None)
      end
  end.

(** [FlagSet.Parse]: the loop over [parseOne].  The result is the flag set
    and the arguments that are left, the non-flag arguments. *)
Fixpoint FlagSet_Parse (f : FlagSet) (args : list string)
  : flagError + (FlagSet * list string) :=
  match args with
  | [] => inr (f, [])
  | s :: rest =>
      if negb (is_flag_arg s) then inr (f, args)
      else if String.eqb s "--" then inr (f, rest)   (* terminates the flags *)
      else if bad_flag_name (flag_name s) then inl (BadFlagSyntax s)
      else
        let '(name, value) := name_value (flag_name s) in
        match f !! name with
        | None =>
            if String.eqb name "help" || String.eqb name "h" then inl ErrHelp
            else inl (FlagNotDefined name)
        | Some (BoolValue _) =>           (* does not need an argument *)
            match value with
            | Some v =>
                match strconv_ParseBool v with
                | Some b => FlagSet_Parse (<[name := BoolValue b]> f) rest
                | None => inl (InvalidBoolean v name)
                end
            | None => FlagSet_Parse (<[name := BoolValue true]> f) rest
            end
        | Some (StringValue _) =>         (* the value may be the next argument *)
            match value with
            | Some v => FlagSet_Parse (<[name := StringValue v]> f) rest
            | None =>
                match rest with
                | v :: rest' => FlagSet_Parse (<[name := StringValue v]> f) rest'
                | [] => inl (FlagNeedsArgument name)
                end
            end
        end
  end.

Definition flag_String (f : FlagSet) (name : string) : string :=
  match f !! name with
  | Some (StringValue s) => s
  | _ => ""
  end.

Definition flag_Bool (f : FlagSet) (name : string) : bool :=
  match f !! name with
  | Some (BoolValue b) => b
  | _ => false
  end.

Definition initFlags : FlagSet := {[ "config" := StringValue "wpt.json" ]}.

Definition addFlags : FlagSet := {[ "config" := StringValue "wpt.json" ]}.

Definition syncFlags : FlagSet :=
  {[ "config" := StringValue "wpt.json";
     "skip-patches" := BoolValue false;
     "dry-run" := BoolValue false ]}.

(** How a command ends before it calls its function. *)
Inductive exit : Type :=
| FlagFailure (e : flagError)
| MissingPathArgument.      (* wptsync add: missing required path argument *)

(** The arguments [runInitCommand] calls [runInit] with. *)
Definition runInitCommand (args : list string) : exit + string :=
  match FlagSet_Parse initFlags args with
  | inl e => inl (FlagFailure e)
  | inr (f, _) => inr (flag_String f "config")
  end.

(** The arguments [runAddCommand] calls [runAdd] with: the configuration
    path and [addFlags.Arg(0)]. *)
Definition runAddCommand (args : list string) : exit + (string * string) :=
  match FlagSet_Parse addFlags args with
  | inl e => inl (FlagFailure e)
  | inr (f, []) => inl MissingPathArgument
  | inr (f, wptPath :: _) => inr (flag_String f "config", wptPath)
  end.

(** The arguments [runSyncCommand] calls [runSync] with. *)
Definition runSyncCommand (args : list string) : exit + (string * bool * bool) :=
  match FlagSet_Parse syncFlags args with
  | inl e => inl (FlagFailure e)
  | inr (f, _) =>
      inr (flag_String f "config", flag_Bool f "skip-patches",
           flag_Bool f "dry-run")
  end.

(** The arguments are all flags: [Parse] succeeds and leaves nothing. *)
Definition all_flags (f : FlagSet) (args : list string) (f' : FlagSet) : Prop :=
  FlagSet_Parse f args = inr (f', []).

(** * Properties *)

(** ** The monad and the trace *)

Lemma emits_ret {A} P (a : A) : emits P (ret a).
Proof. intros w. exists []. by rewrite app_nil_r. Qed.

Lemma emits_lift {A} P (r : error + A) : emits P (lift r).
Proof. intros w. exists []. by rewrite app_nil_r. Qed.

Lemma emits_check P r : emits P (check r).
Proof. apply emits_lift. Qed.

Lemma emits_emit (P : event → Prop) e : P e → emits P (emit e).
Proof. intros He w. exists [e]. split; [done | by constructor]. Qed.

Lemma emits_bind {A B} P (m : M A) (k : A → M B) :
  emits P m → (∀ a, emits P (k a)) → emits P (bind m k).
Proof.
  intros Hm Hk w. unfold bind.
  destruct (Hm w) as (t & Ht & HP).
  destruct (m w) as [[e | a] w1]; simpl in *.
  - by exists t.
  - destruct (Hk a w1) as (t' & Ht' & HP').
    exists (t ++ t'). rewrite Ht', Ht, app_assoc. split; [done |].
    by apply Forall_app.
Qed.

Lemma emits_wrap {A} P prefix (m : M A) : emits P m → emits P (wrap prefix m).
Proof.
  intros Hm w. unfold wrap. destruct (Hm w) as (t & Ht & HP).
  destruct (m w) as [[e | a] w1]; by exists t.
Qed.

Lemma emits_defer {A} P (f : world → world) (m : M A) :
  emits_after P f → emits P m → emits P (defer f m).
Proof.
  intros Hf Hm w. unfold defer. destruct (Hm w) as (t & Ht & HP).
  destruct (m w) as [r w1]; simpl in *.
  destruct (Hf w1) as (t' & Ht' & HP').
  exists (t ++ t'). rewrite Ht', Ht, app_assoc. split; [done |].
  by apply Forall_app.
Qed.

Lemma emits_weaken {A} (P Q : event → Prop) (m : M A) :
  (∀ e, P e → Q e) → emits P m → emits Q m.
Proof.
  intros HPQ Hm w. destruct (Hm w) as (t & Ht & HP).
  exists t. split; [done |]. eapply Forall_impl; eauto.
Qed.

(** ** What each part of the program can emit *)

Lemma emits_http_Client_Do env P url :
  P (HttpGet url) → emits P (http_Client_Do env url).
Proof. intros He w. exists [HttpGet url]. split; [done | by constructor]. Qed.

Lemma emits_os_MkdirAll env P path :
  P (MkdirAll path) → emits P (os_MkdirAll env path).
Proof. intros He w. exists [MkdirAll path]. split; [done | by constructor]. Qed.

Lemma emits_os_CreateTemp env P dir pattern :
  P (CreateTemp dir pattern) → emits P (os_CreateTemp env dir pattern).
Proof.
  intros He w. exists [CreateTemp dir pattern]. split; [| by constructor].
  unfold os_CreateTemp. repeat case_match; done.
Qed.

Lemma emits_io_Copy env P name body :
  (∀ data, P (Write name data)) → emits P (io_Copy env name body).
Proof.
  intros He w. unfold io_Copy.
  destruct (io_Copy_err env w) as [[n e] |]; simpl.
  - exists [Write name (String.substring 0 n body)]. split; [done | by constructor].
  - exists [Write name body]. split; [done | by constructor].
Qed.

Lemma emits_File_Sync env P name : P (Fsync name) → emits P (File_Sync env name).
Proof. intros He w. exists [Fsync name]. split; [done | by constructor]. Qed.

Lemma emits_os_Rename env P old new :
  P (Rename old new) → emits P (os_Rename env old new).
Proof.
  intros He w. exists [Rename old new]. split; [| by constructor].
  unfold os_Rename. repeat case_match; done.
Qed.

Lemma emits_os_Remove P name : P (Remove name) → emits_after P (os_Remove name).
Proof. intros He w. exists [Remove name]. split; [done | by constructor]. Qed.

Lemma emits_os_Stat P name : P (Stat name) → emits P (os_Stat name).
Proof.
  intros He w. exists [Stat name]. split; [| by constructor].
  unfold os_Stat. by case_match.
Qed.

Lemma emits_os_Open P name : P (Open name) → emits P (os_Open name).
Proof.
  intros He w. exists [Open name]. split; [| by constructor].
  unfold os_Open. by case_match.
Qed.

Lemma emits_exec_Cmd_Run env P dir argv :
  P (Exec dir argv) → emits P (exec_Cmd_Run env dir argv).
Proof.
  intros He w. exists [Exec dir argv]. split; [| by constructor].
  unfold exec_Cmd_Run. by destruct (exec_Run env w dir argv).
Qed.

Lemma emits_download env url dest : emits is_download (download env url dest).
Proof.
  unfold download.
  apply emits_bind; [apply emits_check |]. intros _.
  apply emits_bind; [apply emits_http_Client_Do; by left |]. intros resp.
  case_match; [apply emits_lift |].
  apply emits_bind; [apply emits_wrap, emits_os_MkdirAll; by right |]. intros _.
  apply emits_bind; [apply emits_wrap, emits_os_CreateTemp; by right |]. intros tmp.
  apply emits_defer; [apply emits_os_Remove; by right |].
  apply emits_bind; [apply emits_wrap, emits_io_Copy; by right |]. intros _.
  apply emits_bind; [apply emits_wrap, emits_File_Sync; by right |]. intros _.
  apply emits_wrap, emits_os_Rename; by right.
Qed.

Lemma emits_applyPatch env root patchPath :
  emits (λ e, is_patch e = true) (applyPatch env root patchPath).
Proof.
  unfold applyPatch, ensureSupportedPatchFormat.
  apply emits_bind; [by apply emits_wrap, emits_os_Stat |]. intros _.
  apply emits_bind.
  - apply emits_bind; [by apply emits_wrap, emits_os_Open |]. intros data.
    apply emits_check.
  - intros _. by apply emits_wrap, emits_exec_Cmd_Run.
Qed.

Lemma emits_processFile env root cfg file skip dry :
  emits (λ _, True) (processFile env root cfg file skip dry).
Proof.
  unfold processFile.
  apply emits_bind; [by apply emits_emit |]. intros _.
  destruct dry; [apply emits_ret |].
  apply emits_bind.
  { apply emits_wrap. eapply emits_weaken; [| apply emits_download]. done. }
  intros _. case_match; [apply emits_ret |].
  apply emits_wrap. eapply emits_weaken; [| apply emits_applyPatch]. done.
Qed.

Lemma emits_syncEntry env root cfg skip dry file :
  emits (λ _, True) (syncEntry env root cfg skip dry file).
Proof.
  unfold syncEntry. case_match; [by apply emits_emit | apply emits_processFile].
Qed.

Lemma emits_syncFiles env root cfg skip dry todo :
  emits (λ _, True) (syncFiles env root cfg skip dry todo).
Proof.
  induction todo as [| file rest IH]; simpl; [apply emits_ret |].
  apply emits_bind; [apply emits_syncEntry | done].
Qed.

(** ** Validation *)

Lemma eqb_empty_false (s : string) : String.eqb s "" = false ↔ s ≠ "".
Proof. by rewrite String.eqb_neq. Qed.

Lemma validate_iff_main (c : config) :
  Commit c ≠ "" ∧ TargetDir c ≠ "" → validate c = None.
Proof.
  intros [Hc Ht]. unfold validate.
  apply eqb_empty_false in Hc, Ht. by rewrite Hc, Ht.
Qed.

(** C2, as amended.  The root command accepts a configuration exactly when
    [commit] and [target_dir] are both non-empty, whatever its [files] list
    is; the older [sync-wpt] command also requires a non-empty [files]
    list. *)
Theorem validate_iff (c : config) :
  (validate c = None ↔ Commit c ≠ "" ∧ TargetDir c ≠ "")
  ∧ (∀ fs, validate {| Commit := Commit c; TargetDir := TargetDir c; Files := fs |}
           = validate c)
  ∧ (SyncWpt.validate c = None ↔ Commit c ≠ "" ∧ TargetDir c ≠ "" ∧ Files c ≠ []).
Proof.
  destruct c as [commit target fs]; unfold validate, SyncWpt.validate; simpl.
  destruct (String.eqb commit "") eqn:Hc; [apply String.eqb_eq in Hc | apply eqb_empty_false in Hc];
    (destruct (String.eqb target "") eqn:Ht; [apply String.eqb_eq in Ht | apply eqb_empty_false in Ht]).
  1-3: repeat split; try done; intros; destruct_and?; congruence.
  repeat split; try done.
  - case_bool_decide; [done |]. by destruct fs.
  - intros (_ & _ & Hfs). case_bool_decide; [by destruct fs | done].
Qed.

(** C2 as stated fails on the older command: a configuration with commit
    and target directory but no file entry is rejected there. *)
Lemma validate_empty_files_rejected :
  (Commit (sample_config []) ≠ "" ∧ TargetDir (sample_config []) ≠ "")
  ∧ SyncWpt.validate (sample_config [])
    = Some (errors_New "config: files list cannot be empty")
  ∧ ¬ (SyncWpt.validate (sample_config []) = None
       ↔ Commit (sample_config []) ≠ "" ∧ TargetDir (sample_config []) ≠ "").
Proof.
  split; [done |]. split; [done |].
  intros [_ H]. by discriminate H.
Qed.

(** ** The loop over the entries *)

Lemma syncFiles_app env root cfg skip dry (l1 l2 : list fileSpec) (w : world) :
  syncFiles env root cfg skip dry (l1 ++ l2) w
  = (syncFiles env root cfg skip dry l1 ;;; syncFiles env root cfg skip dry l2) w.
Proof.
  revert w. induction l1 as [| file l1 IH]; intros w; simpl; [done |].
  unfold bind in *.
  destruct (syncEntry env root cfg skip dry file w) as [[e | []] w1]; [done |].
  by rewrite IH.
Qed.

Lemma syncFiles_cons_after env root cfg skip dry pre file post w w1 :
  syncFiles env root cfg skip dry pre w = (inr tt, w1) →
  syncFiles env root cfg skip dry (pre ++ file :: post) w
  = (syncEntry env root cfg skip dry file ;;;
     syncFiles env root cfg skip dry post) w1.
Proof. intros Hpre. rewrite syncFiles_app. unfold bind at 1. by rewrite Hpre. Qed.

Lemma trace_grows {A} (m : M A) (w : world) :
  emits (λ _, True) m → ∃ t, trace (m w).2 = trace w ++ t.
Proof. intros Hm. destruct (Hm w) as (t & Ht & _). by exists t. Qed.

Lemma trace_after_print {A} (text : string) (k : M A) (w : world) :
  emits (λ _, True) k →
  ∃ t, trace ((fmt_Print text ;;; k) w).2 = trace w ++ Stdout text :: t.
Proof.
  intros Hk. unfold bind, fmt_Print, emit.
  destruct (trace_grows k (log (Stdout text) w) Hk) as [t Ht].
  exists t. rewrite Ht. simpl. by rewrite <- app_assoc.
Qed.

(** C4.  An entry counts as enabled exactly when [enabled] is absent or
    true.  An entry with [enabled: false] only produces its skip message:
    nothing is fetched, written or patched, no error arises, and the loop
    goes on with the next entry. *)
Theorem disabled_entry_skipped env root cfg skip dry file pre post w w1 :
  Enabled file = Some false →
  syncFiles env root cfg skip dry pre w = (inr tt, w1) →
  (∀ f, isEnabled f = true ↔ Enabled f = None ∨ Enabled f = Some true)
  ∧ syncEntry env root cfg skip dry file w1
    = (inr tt, log (Stdout (skip_line file)) w1)
  ∧ files (log (Stdout (skip_line file)) w1) = files w1
  ∧ syncFiles env root cfg skip dry (pre ++ file :: post) w
    = syncFiles env root cfg skip dry post (log (Stdout (skip_line file)) w1).
Proof.
  intros Hoff Hpre. split; [| split; [| split]].
  - intros f. unfold isEnabled.
    destruct (Enabled f) as [[] |]; split; auto; try done.
    intros [? | ?]; done.
  - unfold syncEntry, isEnabled. by rewrite Hoff.
  - done.
  - rewrite (syncFiles_cons_after _ _ _ _ _ _ _ _ _ _ Hpre).
    unfold bind, syncEntry, isEnabled. by rewrite Hoff.
Qed.

Lemma disabled_entry_skipped_witness :
  syncFiles (sample_env (λ _, not_found_response) None) "/repo" (sample_config [])
    false false [disabled_entry; disabled_entry] empty_world
  = (inr tt,
     {| files := ∅;
        trace := [Stdout (" - skipping /b.js (disabled)" +:+ LF);
                  Stdout (" - skipping /b.js (disabled)" +:+ LF)] |}).
Proof.
  pose proof (disabled_entry_skipped (sample_env (λ _, not_found_response) None)
                "/repo" (sample_config []) false false
                disabled_entry [disabled_entry] [] empty_world
                (log (Stdout (skip_line disabled_entry)) empty_world)
                eq_refl eq_refl) as (_ & _ & _ & H).
  exact H.
Defined.

Lemma syncFiles_dry_run_quiet env root cfg skip todo :
  emits (λ e, is_network e = false ∧ is_fs_write e = false ∧ is_patch e = false)
    (syncFiles env root cfg skip true todo).
Proof.
  induction todo as [| file rest IH]; simpl; [apply emits_ret |].
  apply emits_bind; [| done].
  unfold syncEntry, processFile. case_match.
  - by apply emits_emit.
  - apply emits_bind; [by apply emits_emit |]. intros _. apply emits_ret.
Qed.

(** C5.  With [-dry-run] an enabled entry only produces its
    [src -> dest] line: no request, no file-system call, no patch call; a run
    without the option starts with the very same line.  Hence a whole dry
    run makes no request, no file-system call and no patch call. *)
Theorem dry_run_only_reports env root cfg skip file w :
  isEnabled file = true →
  syncEntry env root cfg skip true file w
  = (inr tt, log (Stdout (plan_line root cfg file)) w)
  ∧ Forall (λ e, is_network e = false ∧ is_fs_write e = false ∧ is_patch e = false)
      [Stdout (plan_line root cfg file)]
  ∧ files (syncEntry env root cfg skip true file w).2 = files w
  ∧ (∃ t, trace (syncEntry env root cfg skip false file w).2
          = trace w ++ Stdout (plan_line root cfg file) :: t)
  ∧ (∀ todo,
       emits (λ e, is_network e = false ∧ is_fs_write e = false
                   ∧ is_patch e = false)
         (syncFiles env root cfg skip true todo)).
Proof.
  intros Hon. unfold syncEntry. rewrite Hon. simpl.
  split; [done |]. split; [by repeat constructor |]. split; [done |].
  split; [| apply syncFiles_dry_run_quiet].
  unfold processFile. apply trace_after_print.
  apply emits_bind.
  - apply emits_wrap. eapply emits_weaken; [| apply emits_download]. done.
  - intros _. case_match; [apply emits_ret |].
    apply emits_wrap. eapply emits_weaken; [| apply emits_applyPatch]. done.
Qed.

Lemma dry_run_only_reports_witness :
  syncEntry (sample_env (λ _, ok_response "console.log(1)") None) "/repo"
    (sample_config []) false true (entry "/a/b.js" "a/b.js") empty_world
  = (inr tt,
     {| files := ∅; trace := [Stdout (" - a/b.js -> /repo/out/a/b.js" +:+ LF)] |}).
Proof.
  exact (proj1 (dry_run_only_reports
                  (sample_env (λ _, ok_response "console.log(1)") None) "/repo"
                  (sample_config []) false (entry "/a/b.js" "a/b.js")
                  empty_world eq_refl)).
Defined.

Lemma processFile_error_names_entry env root cfg file skip dry w e w' :
  processFile env root cfg file skip dry w = (inl e, w') → names_entry file e.
Proof.
  unfold processFile, bind, fmt_Print, emit. destruct dry; [done |].
  unfold wrap at 1.
  destruct (download env _ _ _) as [[e1 | []] w1].
  { intros [= <- _]. left. by eexists. }
  destruct (skip || String.eqb (Patch file) "") eqn:Hskip; [done |].
  apply orb_false_iff in Hskip as [_ Hpatch]. apply eqb_empty_false in Hpatch.
  unfold wrap.
  destruct (applyPatch env root (Patch file) w1) as [[e2 | []] w2]; [| done].
  intros [= <- _]. right. split; [done | by eexists].
Qed.

(** Both drivers reach the loop with the configuration they loaded, after
    the line that announces the run. *)
Lemma runSync_reaches_loop env configPath skip dry w0 root cfg w1 :
  filepath_Abs (os_Getwd env) (filepath_Dir configPath) = inr root →
  loadConfig env configPath w0 = (inr cfg, w1) →
  validate cfg = None →
  Files cfg ≠ [] →
  runSync env configPath skip dry w0
  = syncFiles env root cfg skip dry (Files cfg)
      (log (Stdout (syncing_line cfg)) w1).
Proof.
  intros Habs Hload Hvalid Hfiles. unfold runSync.
  unfold bind at 1. unfold wrap, lift. rewrite Habs.
  unfold bind at 1. rewrite Hload.
  unfold bind at 1. unfold check, lift. rewrite Hvalid.
  case_bool_decide as Hlen; [by destruct (Files cfg) |].
  by unfold bind, fmt_Print, emit.
Qed.

Lemma run_reaches_loop env configPath skip dry w0 root cfg w1 :
  filepath_Abs (os_Getwd env) (filepath_Dir configPath) = inr root →
  loadConfig env configPath w0 = (inr cfg, w1) →
  SyncWpt.validate cfg = None →
  SyncWpt.run env configPath skip dry w0
  = syncFiles env root cfg skip dry (Files cfg)
      (log (Stdout (syncing_line cfg)) w1).
Proof.
  intros Habs Hload Hvalid. unfold SyncWpt.run.
  unfold bind at 1. unfold wrap, lift. rewrite Habs.
  unfold bind at 1. rewrite Hload.
  unfold bind at 1. unfold check, lift. rewrite Hvalid.
  by unfold bind, fmt_Print, emit.
Qed.

(** C3.  The entries are processed in list order, each in the world the
    previous one left.  When the entries before [file] succeed and [file]
    fails, the loop returns that very error, labelled with the entry's source
    (or patch) path, in the world [file] left: whatever follows [file] in the
    list has no effect at all.  A run of either command whose configuration
    holds these entries returns the same error in the same world. *)
Theorem sync_fails_fast env root cfg skip dry pre file post w w1 e w2 :
  syncFiles env root cfg skip dry pre w = (inr tt, w1) →
  syncEntry env root cfg skip dry file w1 = (inl e, w2) →
  syncFiles env root cfg skip dry (pre ++ file :: post) w = (inl e, w2)
  ∧ names_entry file e
  ∧ (∃ t1 t2, trace w1 = trace w ++ t1 ∧ trace w2 = trace w1 ++ t2)
  ∧ (∀ l1 l2 w0,
       syncFiles env root cfg skip dry (l1 ++ l2) w0
       = (syncFiles env root cfg skip dry l1 ;;;
          syncFiles env root cfg skip dry l2) w0)
  ∧ (∀ configPath w0 w0',
       filepath_Abs (os_Getwd env) (filepath_Dir configPath) = inr root →
       loadConfig env configPath w0 = (inr cfg, w0') →
       Files cfg = pre ++ file :: post →
       w = log (Stdout (syncing_line cfg)) w0' →
       (validate cfg = None →
        runSync env configPath skip dry w0 = (inl e, w2))
       ∧ (SyncWpt.validate cfg = None →
          SyncWpt.run env configPath skip dry w0 = (inl e, w2))).
Proof.
  intros Hpre Hfile.
  assert (syncFiles env root cfg skip dry (pre ++ file :: post) w = (inl e, w2))
    as Hloop.
  { rewrite (syncFiles_cons_after _ _ _ _ _ _ _ _ _ _ Hpre).
    unfold bind. by rewrite Hfile. }
  split; [exact Hloop |]. split; [| split; [| split]].
  - revert Hfile. unfold syncEntry. case_match; [done |].
    apply processFile_error_names_entry.
  - destruct (trace_grows (syncFiles env root cfg skip dry pre) w
                (emits_syncFiles _ _ _ _ _ _)) as [t1 Ht1].
    destruct (trace_grows (syncEntry env root cfg skip dry file) w1
                (emits_syncEntry _ _ _ _ _ _)) as [t2 Ht2].
    rewrite Hpre in Ht1. rewrite Hfile in Ht2. by exists t1, t2.
  - intros. apply syncFiles_app.
  - intros configPath w0 w0' Habs Hload Hfiles ->. split; intros Hvalid.
    + rewrite (runSync_reaches_loop _ _ _ _ _ _ _ _ Habs Hload Hvalid).
      * by rewrite Hfiles.
      * rewrite Hfiles. by destruct pre.
    + rewrite (run_reaches_loop _ _ _ _ _ _ _ _ Habs Hload Hvalid).
      by rewrite Hfiles.
Qed.

Lemma sync_fails_fast_witness :
  (runSync (with_config three_entries (sample_env b_missing None))
     "wpt.json" false false (world_with "wpt.json" "{}")).1
  = inl (fmt_Errorf_w "download b.js: "
           (errors_New "unexpected status 404 Not Found")).
Proof.
  set (env := with_config three_entries (sample_env b_missing None)).
  set (w0' := log (Open "wpt.json") (world_with "wpt.json" "{}")).
  set (w := log (Stdout (syncing_line three_entries)) w0').
  set (w1 := (syncFiles env "/repo" three_entries false false
                [entry "a.js" "a.js"] w).2).
  set (w2 := (syncEntry env "/repo" three_entries false false
                (entry "b.js" "b.js") w1).2).
  assert (syncFiles env "/repo" three_entries false false
            [entry "a.js" "a.js"] w = (inr tt, w1)) as Hpre
    by (vm_compute; reflexivity).
  assert (syncEntry env "/repo" three_entries false false
            (entry "b.js" "b.js") w1
          = (inl (fmt_Errorf_w "download b.js: "
                    (errors_New "unexpected status 404 Not Found")), w2))
    as Hfile by (vm_compute; reflexivity).
  destruct (sync_fails_fast env "/repo" three_entries false false
              [entry "a.js" "a.js"] (entry "b.js" "b.js")
              [entry "c.js" "c.js"] w w1 _ w2 Hpre Hfile)
    as (_ & _ & _ & _ & Hrun).
  destruct (Hrun "wpt.json" (world_with "wpt.json" "{}") w0')
    as [Hmain _]; [reflexivity | reflexivity | reflexivity | reflexivity |].
  rewrite (Hmain eq_refl). reflexivity.
Defined.

(** ** The atomic write *)

Lemma os_CreateTemp_inr env dir pattern w name w1 :
  os_CreateTemp env dir pattern w = (inr name, w1) →
  files w !! name = None
  ∧ w1 = set_files (<[name := ""]> (files w)) (log (CreateTemp dir pattern) w).
Proof.
  unfold os_CreateTemp. repeat case_match; try done.
  all: by intros [= <- <-].
Qed.

Lemma os_CreateTemp_inl env dir pattern w e w1 :
  os_CreateTemp env dir pattern w = (inl e, w1) →
  w1 = log (CreateTemp dir pattern) w.
Proof.
  unfold os_CreateTemp. repeat case_match; try done; by intros [= _ <-].
Qed.

Lemma delete_fresh_insert (fs : gmap string string) (name : string) (x y : string) :
  fs !! name = None →
  delete name (<[name := x]> (<[name := y]> fs)) = fs.
Proof.
  intros Hfresh. rewrite insert_insert_eq, delete_insert_eq.
  by apply delete_id.
Qed.

(** The part of [download] that follows the creation of the temporary
    file, with the deferred removal. *)
Lemma download_failure_after_temp env tmp body dest w1 e w2 :
  defer (os_Remove tmp)
    (wrap "write temp file: " (io_Copy env tmp body) ;;;
     wrap "sync temp file: " (File_Sync env tmp) ;;;
     wrap "move file into place: " (os_Rename env tmp dest)) w1 = (inl e, w2) →
  ∃ data k, files w2 = delete tmp (<[tmp := data]> (files w1))
            ∧ trace w2 = trace w1 ++ Write tmp data
                           :: take k [Fsync tmp; Rename tmp dest] ++ [Remove tmp].
Proof.
  unfold_calls.
  destruct (io_Copy_err env w1) as [[n e1] |] eqn:Hcopy; simpl.
  { intros [= _ <-]. exists (String.substring 0 n body), 0. simpl.
    split; [done |]. by rewrite <- !app_assoc. }
  destruct (os_Sync_err env _ tmp) as [e2 |] eqn:Hsync; simpl.
  { intros [= _ <-]. exists body, 1. simpl.
    split; [done |]. by rewrite <- !app_assoc. }
  destruct (os_Rename_err env _ tmp dest) as [e3 |] eqn:Hrename; simpl.
  { intros [= _ <-]. exists body, 2. simpl.
    split; [done |]. by rewrite <- !app_assoc. }
  rewrite lookup_insert_eq. done.
Qed.

(** C1.  Whenever [download] returns an error (a rejected URL, a failed
    request, a status other than 200, a failure to create the directory or
    the temporary file, to copy, to sync, or to rename) the file system is
    what it was before the call: the destination is absent or holds its old
    content, and no temporary file is left.  A temporary file that was
    written is removed by the last call of the function. *)
Theorem download_failure_leaves_files env url dest w e w' :
  download env url dest w = (inl e, w') →
  files w' = files w
  ∧ files w' !! dest = files w !! dest
  ∧ ∃ t, trace w' = trace w ++ t
         ∧ ∀ name data, Write name data ∈ t →
             files w !! name = None ∧ files w' !! name = None
             ∧ last t = Some (Remove name).
Proof.
  intros Hdl.
  assert (files w' = files w
          ∧ ∃ t, trace w' = trace w ++ t
                 ∧ ∀ name data, Write name data ∈ t →
                     files w !! name = None ∧ last t = Some (Remove name))
    as (Hfiles & t & Ht & Hw).
  { revert Hdl. unfold download. unfold bind at 1. unfold check at 1, lift.
    destruct (http_NewRequest env url) as [e0 |].
    { intros [= _ <-]. split; [done |]. exists []. rewrite app_nil_r.
      split; [done |]. intros ?? Hin. by apply elem_of_nil in Hin. }
    unfold bind at 1. unfold http_Client_Do.
    destruct (http_Do env w url) as [e1 | resp].
    { intros [= _ <-]. split; [done |]. exists [HttpGet url].
      split; [done |]. intros ?? Hin. elem_cases Hin. }
    destruct (negb (StatusCode resp =? 200)%Z).
    { intros [= _ <-]. split; [done |]. exists [HttpGet url].
      split; [done |]. intros ?? Hin. elem_cases Hin. }
    unfold bind at 1. unfold wrap at 1. unfold os_MkdirAll, check, lift.
    destruct (os_MkdirAll_err env _ _) as [e2 |].
    { intros [= _ <-]. split; [done |].
      exists [HttpGet url; MkdirAll (filepath_Dir dest)]. simpl.
      rewrite <- app_assoc. split; [done |]. intros ?? Hin. elem_cases Hin. }
    unfold bind at 1. unfold wrap at 1.
    destruct (os_CreateTemp env _ _ _) as [[e3 | tmp] w1] eqn:Htemp.
    { apply os_CreateTemp_inl in Htemp as ->. intros [= _ <-]. split; [done |].
      exists [HttpGet url; MkdirAll (filepath_Dir dest);
              CreateTemp (filepath_Dir dest) ".wpt-download-*"]. simpl.
      rewrite <- !app_assoc. split; [done |]. intros ?? Hin. elem_cases Hin. }
    apply os_CreateTemp_inr in Htemp as [Hfresh ->].
    intros Hrest.
    apply download_failure_after_temp in Hrest as (data & k & Hfs & Htr).
    simpl in *. split.
    { rewrite Hfs. by apply delete_fresh_insert. }
    exists ([HttpGet url; MkdirAll (filepath_Dir dest);
             CreateTemp (filepath_Dir dest) ".wpt-download-*"]
            ++ Write tmp data :: take k [Fsync tmp; Rename tmp dest]
            ++ [Remove tmp]).
    split.
    { rewrite Htr. simpl. by rewrite <- !app_assoc. }
    intros name data' Hin.
    assert (name = tmp) as ->.
    { destruct k as [| [| [| k]]]; simpl in Hin; elem_cases Hin; congruence. }
    split; [done |].
    by destruct k as [| [| [| k]]]. }
  split; [done |]. split; [by rewrite Hfiles |].
  exists t. split; [done |]. intros name data Hin.
  destruct (Hw name data Hin) as [Hfresh Hlast].
  repeat split; try done. by rewrite Hfiles.
Qed.

Lemma download_failure_leaves_files_witness :
  files (download copy_fails_env
           (wptRepoRawURL +:+ "/deadbeef/a/b.js") "/repo/out/a/b.js"
           (world_with "/repo/out/a/b.js" "old content")).2
  = {[ "/repo/out/a/b.js" := "old content" ]}.
Proof.
  refine (proj1 (download_failure_leaves_files copy_fails_env
                   (wptRepoRawURL +:+ "/deadbeef/a/b.js") "/repo/out/a/b.js"
                   (world_with "/repo/out/a/b.js" "old content")
                   (fmt_Errorf_w "write temp file: " (errors_New "unexpected EOF"))
                   _ _)).
  vm_compute. reflexivity.
Defined.

Lemma os_CreateTemp_name env dir pattern w name w1 :
  os_CreateTemp env dir pattern w = (inr name, w1) →
  name = temp_name env dir pattern w.
Proof.
  unfold os_CreateTemp, temp_name. repeat case_match; try done.
  all: by intros [= <- _].
Qed.

Lemma download_success env url dest w w' :
  download env url dest w = (inr tt, w') →
  ∃ resp tmp,
    http_NewRequest env url = None
    ∧ http_Do env w url = inr resp
    ∧ StatusCode resp = 200%Z
    ∧ tmp = temp_name env (filepath_Dir dest) ".wpt-download-*"
              (log (MkdirAll (filepath_Dir dest)) (log (HttpGet url) w))
    ∧ files w !! tmp = None
    ∧ trace w' = trace w ++ download_calls url dest tmp (Body resp)
    ∧ files w' = delete tmp (<[dest := Body resp]> (delete tmp
                   (<[tmp := Body resp]> (<[tmp := ""]> (files w))))).
Proof.
  unfold download. unfold bind at 1. unfold check at 1, lift.
  destruct (http_NewRequest env url) as [e0 |]; [done |].
  unfold bind at 1. unfold http_Client_Do.
  destruct (http_Do env w url) as [e1 | resp]; [done |].
  destruct (negb (StatusCode resp =? 200)%Z) eqn:Hstatus; [done |].
  apply negb_false_iff, Z.eqb_eq in Hstatus.
  unfold bind at 1. unfold wrap at 1. unfold os_MkdirAll, check, lift.
  destruct (os_MkdirAll_err env _ _) as [e2 |]; [done |].
  unfold bind at 1. unfold wrap at 1.
  destruct (os_CreateTemp env _ _ _) as [[e3 | tmp] w1] eqn:Htemp; [done |].
  pose proof (os_CreateTemp_name _ _ _ _ _ _ Htemp) as Hname.
  apply os_CreateTemp_inr in Htemp as [Hfresh ->].
  unfold_calls.
  destruct (io_Copy_err env _) as [[n e4] |]; [done |]. simpl.
  destruct (os_Sync_err env _ tmp) as [e5 |]; [done |]. simpl.
  destruct (os_Rename_err env _ tmp dest) as [e6 |]; [done |]. simpl.
  rewrite lookup_insert_eq. intros [= <-].
  exists resp, tmp. simpl. repeat split; try done.
  unfold download_calls. by rewrite <- !app_assoc.
Qed.

Lemma download_success_files (fs : gmap string string) (tmp dest body : string) :
  fs !! tmp = None → tmp ≠ dest →
  delete tmp (<[dest := body]> (delete tmp (<[tmp := body]> (<[tmp := ""]> fs))))
  = <[dest := body]> fs.
Proof.
  intros Hfresh Hne.
  rewrite (delete_fresh_insert fs tmp body "" Hfresh).
  rewrite delete_insert_ne by done. by rewrite delete_id.
Qed.

Lemma os_CreateTemp_fresh env dir pattern w :
  prefixAndSuffix pattern ≠ inl (PathError "createtemp" pattern
                                   (errors_New "pattern contains path separator")) →
  os_OpenFile_err env w (temp_name env dir pattern w) = None →
  files w !! temp_name env dir pattern w = None →
  os_CreateTemp env dir pattern w
  = (inr (temp_name env dir pattern w),
     set_files (<[temp_name env dir pattern w := ""]> (files w))
       (log (CreateTemp dir pattern) w)).
Proof.
  unfold os_CreateTemp, temp_name, prefixAndSuffix.
  intros Hpat. repeat case_match; try done; simplify_eq.
  all: by intros -> ->.
Qed.

Lemma download_faultless env url dest w resp :
  faultless env →
  http_Do env w url = inr resp →
  StatusCode resp = 200%Z →
  let tmp := temp_name env (filepath_Dir dest) ".wpt-download-*"
               (log (MkdirAll (filepath_Dir dest)) (log (HttpGet url) w)) in
  files w !! tmp = None →
  download env url dest w
  = (inr tt,
     {| files := delete tmp (<[dest := Body resp]> (delete tmp
                   (<[tmp := Body resp]> (<[tmp := ""]> (files w)))));
        trace := trace w ++ download_calls url dest tmp (Body resp) |}).
Proof.
  intros (Hreq & Hmk & Hopen & Hcopy & Hsync & Hren) Hdo Hstatus tmp Hfresh.
  unfold download. unfold bind at 1. unfold check at 1, lift. rewrite Hreq.
  unfold bind at 1. unfold http_Client_Do. rewrite Hdo, Hstatus. simpl.
  unfold bind at 1. unfold wrap at 1. unfold os_MkdirAll, check, lift.
  rewrite Hmk. unfold bind at 1. unfold wrap at 1.
  rewrite os_CreateTemp_fresh; [| done | apply Hopen | done].
  fold tmp. unfold_calls. rewrite Hcopy. simpl. rewrite Hsync. simpl.
  rewrite Hren. simpl. rewrite lookup_insert_eq. simpl.
  unfold set_files, log, download_calls. simpl. by rewrite <- !app_assoc.
Qed.

Lemma strings_TrimLeft_slash (s : string) :
  (∃ n, s = slashes n +:+ strings_TrimLeft s "/")
  ∧ strings_HasPrefix (strings_TrimLeft s "/") "/" = false.
Proof.
  induction s as [| c s [[n IHn] IHp]]; [split; [by exists 0 | done] |].
  cbn [strings_TrimLeft strings_ContainsByte].
  destruct (Ascii.eqb c "/") eqn:Hc; cbn [orb].
  - apply Ascii.eqb_eq in Hc as ->. split; [| done].
    exists (S n).
    change (String "/" s = String "/" (slashes n +:+ strings_TrimLeft s "/")).
    by rewrite <- IHn.
  - split; [by exists 0 |].
    cbn [strings_HasPrefix]. by rewrite Ascii.eqb_sym, Hc.
Qed.

(** ** Fetching *)

Lemma download_unfold env url dest :
  download env url dest
  = (check (http_NewRequest env url) ;;;
     resp <- http_Client_Do env url ;; store_response env dest resp).
Proof. reflexivity. Qed.

Lemma processFile_unfold env root cfg file skip :
  processFile env root cfg file skip false
  = (fmt_Print (plan_line root cfg file) ;;;
     wrap ("download " +:+ strings_TrimLeft (Src file) "/" +:+ ": ")
       (download env (fetch_url cfg file) (dest_path root cfg file)) ;;;
     patch_stage env root file skip).
Proof. reflexivity. Qed.

Lemma emits_store_response env dest resp :
  emits is_download (store_response env dest resp).
Proof.
  unfold store_response. case_match; [apply emits_lift |].
  apply emits_bind; [apply emits_wrap, emits_os_MkdirAll; by right |]. intros _.
  apply emits_bind; [apply emits_wrap, emits_os_CreateTemp; by right |]. intros tmp.
  apply emits_defer; [apply emits_os_Remove; by right |].
  apply emits_bind; [apply emits_wrap, emits_io_Copy; by right |]. intros _.
  apply emits_bind; [apply emits_wrap, emits_File_Sync; by right |]. intros _.
  apply emits_wrap, emits_os_Rename; by right.
Qed.

Lemma emits_patch_stage env root file skip :
  emits (λ e, is_patch e = true) (patch_stage env root file skip).
Proof.
  unfold patch_stage. case_match; [apply emits_ret |].
  apply emits_wrap, emits_applyPatch.
Qed.

(** Once the request is built, the first call of [download] is the GET. *)
Lemma download_requests env url dest w :
  http_NewRequest env url = None →
  ∃ t, trace (download env url dest w).2 = trace w ++ HttpGet url :: t
       ∧ Forall is_download t.
Proof.
  intros Hreq. rewrite download_unfold. unfold bind at 1.
  unfold check, lift. rewrite Hreq.
  unfold bind, http_Client_Do.
  destruct (http_Do env w url) as [e | resp]; simpl.
  { by exists []. }
  destruct (emits_store_response env dest resp (log (HttpGet url) w))
    as (t & Ht & HP).
  exists t. rewrite Ht. simpl. by rewrite <- app_assoc.
Qed.

Lemma processFile_requests env root cfg file skip w :
  http_NewRequest env (fetch_url cfg file) = None →
  ∃ t, trace (processFile env root cfg file skip false w).2
       = trace w ++ Stdout (plan_line root cfg file)
           :: HttpGet (fetch_url cfg file) :: t.
Proof.
  intros Hreq. rewrite processFile_unfold.
  unfold bind at 1. unfold fmt_Print, emit.
  set (w0 := log (Stdout (plan_line root cfg file)) w).
  destruct (download_requests env (fetch_url cfg file) (dest_path root cfg file)
              w0 Hreq) as (t & Ht & _).
  unfold bind, wrap.
  destruct (download env _ _ w0) as [[e | []] w1]; simpl in *.
  { exists t. rewrite Ht. subst w0. simpl. by rewrite <- app_assoc. }
  destruct (trace_grows (patch_stage env root file skip) w1) as [t' Ht'].
  { eapply emits_weaken; [| apply emits_patch_stage]. done. }
  exists (t ++ t'). rewrite Ht', Ht. subst w0. simpl.
  by rewrite <- !app_assoc.
Qed.

(** C8.  For an enabled entry the URL is the base URL, the commit and the
    source path without its leading separators, joined by ["/"], and it is
    the URL of the GET.  A response whose status is not 200 makes the entry
    fail with an error that carries the status text.  When the download
    succeeds the response was a 200 and its body is what was copied to the
    temporary file and renamed onto the destination, byte for byte, so that
    the destination holds the body (the temporary name being another name
    than the destination).  If no call fails and the temporary name is free,
    the download does succeed. *)
Theorem fetch_url_status_content env root cfg file skip w :
  isEnabled file = true →
  let src := strings_TrimLeft (Src file) "/" in
  let url := fetch_url cfg file in
  let dest := dest_path root cfg file in
  let w0 := log (Stdout (plan_line root cfg file)) w in
  url = wptRepoRawURL +:+ "/" +:+ Commit cfg +:+ "/" +:+ src
  ∧ (∃ n, Src file = slashes n +:+ src)
  ∧ strings_HasPrefix src "/" = false
  ∧ (http_NewRequest env url = None →
     ∃ t, trace (syncEntry env root cfg skip false file w).2
          = trace w0 ++ HttpGet url :: t)
  ∧ (∀ resp,
       http_NewRequest env url = None →
       http_Do env w0 url = inr resp →
       StatusCode resp ≠ 200%Z →
       syncEntry env root cfg skip false file w
       = (inl (status_error file resp), log (HttpGet url) w0))
  ∧ (∀ w1,
       download env url dest w0 = (inr tt, w1) →
       syncEntry env root cfg skip false file w
       = patch_stage env root file skip w1
       ∧ ∃ resp tmp,
           http_Do env w0 url = inr resp
           ∧ StatusCode resp = 200%Z
           ∧ trace w1 = trace w0 ++ download_calls url dest tmp (Body resp)
           ∧ (tmp ≠ dest → files w1 = <[dest := Body resp]> (files w)))
  ∧ (∀ resp,
       faultless env →
       http_Do env w0 url = inr resp →
       StatusCode resp = 200%Z →
       let tmp := temp_name env (filepath_Dir dest) ".wpt-download-*"
                    (log (MkdirAll (filepath_Dir dest)) (log (HttpGet url) w0)) in
       files w !! tmp = None →
       tmp ≠ dest →
       ∃ w1, download env url dest w0 = (inr tt, w1)
             ∧ files w1 = <[dest := Body resp]> (files w)).
Proof.
  intros Hon src url dest w0.
  assert (syncEntry env root cfg skip false file w
          = (wrap ("download " +:+ src +:+ ": ") (download env url dest) ;;;
             patch_stage env root file skip) w0) as Hentry.
  { unfold syncEntry. rewrite Hon. simpl. by rewrite processFile_unfold. }
  destruct (strings_TrimLeft_slash (Src file)) as [Hn Hp].
  split; [done |]. split; [done |]. split; [done |].
  split; [| split; [| split]].
  - intros Hreq. unfold syncEntry. rewrite Hon. simpl.
    destruct (processFile_requests env root cfg file skip w Hreq) as [t Ht].
    exists t. rewrite Ht. subst w0. simpl. by rewrite <- app_assoc.
  - intros resp Hreq Hdo Hstatus. rewrite Hentry.
    unfold bind at 1, wrap. rewrite download_unfold.
    unfold bind at 1. unfold check, lift. rewrite Hreq.
    unfold bind, http_Client_Do. rewrite Hdo. unfold store_response.
    apply Z.eqb_neq in Hstatus. by rewrite Hstatus.
  - intros w1 Hdl. split.
    { rewrite Hentry. unfold bind at 1, wrap. by rewrite Hdl. }
    apply download_success in Hdl
      as (resp & tmp & _ & Hdo & Hstatus & _ & Hfresh & Htr & Hfs).
    exists resp, tmp. repeat split; try done.
    intros Hne. rewrite Hfs. by apply download_success_files.
  - intros resp Hfl Hdo Hstatus tmp Hfresh Hne.
    eexists. split.
    { by apply download_faultless. }
    simpl. by apply download_success_files.
Qed.

Lemma sample_env_faultless http : faultless (sample_env http None).
Proof. by repeat split. Defined.

Lemma fetch_url_status_content_witness :
  ∃ w1, download (sample_env (λ _, ok_response "console.log(1)") None)
          (wptRepoRawURL +:+ "/deadbeef/a/b.js") "/repo/out/a/b.js"
          (log (Stdout (" - a/b.js -> /repo/out/a/b.js" +:+ LF)) empty_world)
        = (inr tt, w1)
        ∧ files w1 = {[ "/repo/out/a/b.js" := "console.log(1)" ]}.
Proof.
  pose proof (fetch_url_status_content
                (sample_env (λ _, ok_response "console.log(1)") None)
                "/repo" (sample_config []) (entry "/a/b.js" "a/b.js") false
                empty_world eq_refl) as (_ & _ & _ & _ & _ & _ & H).
  destruct (H (ok_response "console.log(1)") (sample_env_faultless _)
              eq_refl eq_refl eq_refl) as (w1 & Hdl & Hfs).
  { vm_compute. discriminate. }
  exists w1. split; [exact Hdl |]. rewrite Hfs. reflexivity.
Defined.

(** ** Patching *)

Lemma is_download_not_patch (e : event) : is_download e → is_patch e = false.
Proof. by intros [H | H]; destruct e. Qed.

Lemma applyPatch_starts_with_stat env root patchPath w :
  ∃ t, trace (applyPatch env root patchPath w).2
       = trace w ++ Stat (abs_patch root patchPath) :: t.
Proof.
  unfold applyPatch. fold (abs_patch root patchPath).
  set (p := abs_patch root patchPath).
  unfold bind at 1. unfold wrap at 1. unfold os_Stat.
  destruct (files w !! p) as [data |]; simpl.
  2: { by exists []. }
  match goal with
  | |- context [bind ?m ?k (log ?e w)] =>
      destruct (trace_grows (bind m k) (log e w)) as [t Ht]
  end.
  { apply emits_bind.
    - unfold ensureSupportedPatchFormat.
      apply emits_bind; [by apply emits_wrap, emits_os_Open |].
      intros ?. apply emits_check.
    - intros _. by apply emits_wrap, emits_exec_Cmd_Run. }
  exists t. rewrite Ht. simpl. by rewrite <- app_assoc.
Qed.

Lemma processFile_after_download env root cfg file skip w :
  processFile env root cfg file skip false w
  = match download env (fetch_url cfg file) (dest_path root cfg file)
            (log (Stdout (plan_line root cfg file)) w) with
    | (inl e, w1) =>
        (inl (fmt_Errorf_w
                ("download " +:+ strings_TrimLeft (Src file) "/" +:+ ": ") e), w1)
    | (inr _, w1) => patch_stage env root file skip w1
    end.
Proof.
  rewrite processFile_unfold. unfold bind, wrap, fmt_Print, emit.
  by destruct (download env _ _ _) as [[e | []] w1].
Qed.

Lemma syncFiles_skip_no_patch env root cfg dry todo :
  emits (λ e, is_patch e = false) (syncFiles env root cfg true dry todo).
Proof.
  induction todo as [| file rest IH]; simpl; [apply emits_ret |].
  apply emits_bind; [| done].
  unfold syncEntry, processFile. case_match; [by apply emits_emit |].
  apply emits_bind; [by apply emits_emit |]. intros _.
  destruct dry; [apply emits_ret |].
  apply emits_bind; [| intros _; apply emits_ret].
  apply emits_wrap. eapply emits_weaken; [| apply emits_download].
  apply is_download_not_patch.
Qed.

(** C6.  With [-skip-patches] an enabled entry is fetched and written and
    that is all, whether or not it names a patch: the entry is its plan line
    followed by the download, which starts with the GET and, when it
    succeeds, has copied the body of a 200 response to the temporary file and
    renamed it onto the destination; when no call fails it does succeed.  A
    whole run with the option makes no call of the patch applier.  Without
    the option the fetch and the write happen in exactly the same way, and the
    patch applier runs next exactly when the write succeeded and the entry
    names a patch. *)
Theorem skip_patches env root cfg file w :
  isEnabled file = true →
  let url := fetch_url cfg file in
  let dest := dest_path root cfg file in
  let w0 := log (Stdout (plan_line root cfg file)) w in
  ∃ r1 w1,
    syncEntry env root cfg true false file w = (r1, w1)
    ∧ (∃ t, trace w1 = trace w ++ Stdout (plan_line root cfg file) :: t
            ∧ Forall (λ e, is_download e ∧ is_patch e = false) t)
    ∧ syncEntry env root cfg false false file w
      = match r1 with
        | inl e => (inl e, w1)
        | inr _ =>
            if String.eqb (Patch file) "" then (inr tt, w1)
            else wrap ("apply patch " +:+ Patch file +:+ ": ")
                   (applyPatch env root (Patch file)) w1
        end
    ∧ (r1 = inr tt → Patch file ≠ "" →
       ∃ t, trace (syncEntry env root cfg false false file w).2
            = trace w1 ++ Stat (abs_patch root (Patch file)) :: t)
    ∧ (∀ dry todo,
         emits (λ e, is_patch e = false)
           (syncFiles env root cfg true dry todo))
    ∧ (r1, w1)
      = match download env url dest w0 with
        | (inl e, w') =>
            (inl (fmt_Errorf_w
                    ("download " +:+ strings_TrimLeft (Src file) "/" +:+ ": ")
                    e), w')
        | (inr _, w') => (inr tt, w')
        end
    ∧ (http_NewRequest env url = None →
       ∃ t, trace w1 = trace w0 ++ HttpGet url :: t)
    ∧ (r1 = inr tt →
       ∃ resp tmp,
         http_Do env w0 url = inr resp
         ∧ StatusCode resp = 200%Z
         ∧ trace w1 = trace w0 ++ download_calls url dest tmp (Body resp)
         ∧ (tmp ≠ dest → files w1 = <[dest := Body resp]> (files w)))
    ∧ (∀ resp,
         faultless env →
         http_Do env w0 url = inr resp →
         StatusCode resp = 200%Z →
         let tmp := temp_name env (filepath_Dir dest) ".wpt-download-*"
                      (log (MkdirAll (filepath_Dir dest)) (log (HttpGet url) w0)) in
         files w !! tmp = None →
         tmp ≠ dest →
         r1 = inr tt ∧ files w1 = <[dest := Body resp]> (files w)).
Proof.
  intros Hon url dest w0. unfold syncEntry. rewrite Hon. cbn [negb].
  rewrite !processFile_after_download. fold url dest w0.
  destruct (emits_download env url dest w0) as (t & Ht & HP).
  pose proof (download_requests env url dest w0) as Hget.
  pose proof (download_success env url dest w0) as Hok.
  pose proof (download_faultless env url dest w0) as Hfaultless.
  destruct (download env url dest w0) as [[e | []] w1]; simpl in *.
  - exists (inl (fmt_Errorf_w ("download " +:+ strings_TrimLeft (Src file) "/" +:+ ": ") e)), w1.
    split; [done |]. split; [| split; [done | split; [done | split]]].
    + exists t. rewrite Ht. rewrite <- app_assoc.
      split; [done |]. eapply Forall_impl; [exact HP |].
      intros x Hx. split; [done | by apply is_download_not_patch].
    + intros. apply syncFiles_skip_no_patch.
    + split; [done |]. split; [| split; [done |]].
      * intros Hreq. destruct (Hget Hreq) as (t' & Ht' & _). by exists t'.
      * intros resp Hfl Hdo Hstatus Hfresh Hne.
        by specialize (Hfaultless resp Hfl Hdo Hstatus Hfresh).
  - exists (inr tt), w1. unfold patch_stage, ret. simpl.
    split; [done |]. split; [| split; [| split; [| split]]].
    + exists t. rewrite Ht. rewrite <- app_assoc.
      split; [done |]. eapply Forall_impl; [exact HP |].
      intros x Hx. split; [done | by apply is_download_not_patch].
    + by destruct (String.eqb (Patch file) "").
    + intros _ Hpatch. apply eqb_empty_false in Hpatch. rewrite Hpatch.
      destruct (applyPatch_starts_with_stat env root (Patch file) w1) as [t' Ht'].
      exists t'. unfold wrap.
      by destruct (applyPatch env root (Patch file) w1) as [[e | []] w2].
    + intros. apply syncFiles_skip_no_patch.
    + destruct (Hok w1 eq_refl)
        as (resp & tmp & _ & Hdo & Hstatus & _ & Hfresh & Htrace & Hfiles).
      split; [done |]. split; [| split].
      * intros Hreq. destruct (Hget Hreq) as (t' & Ht' & _). by exists t'.
      * intros _. exists resp, tmp. split; [done |]. split; [done |].
        split; [done |]. intros Hne. rewrite Hfiles.
        by apply download_success_files.
      * intros resp' Hfl Hdo' Hstatus' Hfresh' Hne. split; [done |].
        specialize (Hfaultless resp' Hfl Hdo' Hstatus' Hfresh').
        injection Hfaultless as ->. simpl.
        by apply download_success_files.
Qed.

Lemma skip_patches_witness :
  trace (syncEntry (sample_env (λ _, ok_response "console.log(1)") None)
           "/repo" (sample_config []) false false patched_entry empty_world).2
  = trace (syncEntry (sample_env (λ _, ok_response "console.log(1)") None)
             "/repo" (sample_config []) true false patched_entry empty_world).2
    ++ [Stat "/repo/patches/testharness.js.patch"]
  ∧ files (syncEntry (sample_env (λ _, ok_response "console.log(1)") None)
             "/repo" (sample_config []) true false patched_entry empty_world).2
    = {[ "/repo/out/resources/testharness.js" := "console.log(1)" ]}.
Proof.
  destruct (skip_patches (sample_env (λ _, ok_response "console.log(1)") None)
              "/repo" (sample_config []) patched_entry empty_world eq_refl)
    as (r1 & w1 & Hskip & _ & Hnoskip & _ & _ & _ & _ & _ & Hwritten).
  destruct (Hwritten (ok_response "console.log(1)") (sample_env_faultless _)
              eq_refl eq_refl eq_refl ltac:(discriminate)) as [_ Hfiles].
  rewrite Hnoskip, Hskip. clear Hnoskip. split.
  - vm_compute in Hskip. injection Hskip as <- <-.
    vm_compute. reflexivity.
  - exact Hfiles.
Defined.

Lemma applyPatch_unfold env root patchPath w :
  let p := abs_patch root patchPath in
  applyPatch env root patchPath w
  = match files w !! p with
    | None => (inl (fmt_Errorf_w "stat patch: " (PathError "stat" p ENOENT)),
               log (Stat p) w)
    | Some data =>
        match scanPatch p (raw_lines data) with
        | Some e => (inl e, log (Open p) (log (Stat p) w))
        | None =>
            wrap "git apply failed: "
              (exec_Cmd_Run env root (git_apply_argv p))
              (log (Open p) (log (Stat p) w))
        end
    end.
Proof.
  intros p. unfold applyPatch, ensureSupportedPatchFormat.
  fold (abs_patch root patchPath). fold p.
  unfold bind at 1. unfold wrap at 1. unfold os_Stat.
  destruct (files w !! p) as [data |] eqn:Hfile; [| done].
  unfold bind at 1. unfold bind at 1. unfold wrap at 1. unfold os_Open.
  simpl. rewrite Hfile. unfold check, lift.
  by destruct (scanPatch p (raw_lines data)).
Qed.

(** What the scanning loop returns for a text whose first non-blank line
    carries the sentinel. *)
Lemma scanPatch_sentinel (path : string) (raws : list string) (l : string) :
  List.find (λ l, negb (blank l)) (dropCR <$> raws) = Some l →
  strings_HasPrefix (strings_TrimSpace l) apply_patch_sentinel = true →
  scanPatch path raws
  = Some (if forallb fits_scanner (upto_first_nonblank raws)
          then wrong_format path
          else fmt_Errorf_w ("read patch " +:+ path +:+ ": ") ErrTooLong).
Proof.
  intros Hfind Hprefix.
  induction raws as [| raw rest IH]; [done |].
  cbn [fmap list_fmap List.find] in Hfind.
  cbn [scanPatch upto_first_nonblank]. unfold Scanner_token.
  destruct (blank (dropCR raw)) eqn:Hblank; cbn [negb] in Hfind;
    unfold blank in Hblank; cbn [forallb].
  - destruct (fits_scanner raw); [| done]. cbn [andb]. rewrite Hblank.
    by apply IH.
  - injection Hfind as <-.
    destruct (fits_scanner raw); [| done]. by rewrite Hblank, Hprefix.
Qed.

Lemma errors_Is_refl (e : error) : errors_Is e e = true.
Proof. destruct e; simpl; by rewrite bool_decide_eq_true_2. Qed.

(** C7, as amended.  A patch path that names no file makes the applier fail
    with the not-found error of [os.Stat].  For an existing patch file whose
    first non-blank line, trimmed, starts with the sentinel, the applier
    fails as well: with the wrong-format error when every line up to and
    including that one fits the scanner's buffer (is shorter than 64 KiB),
    with the scanner's read error otherwise.  In all these cases the only
    calls are the [Stat] and the [Open] of the patch file: the external tool
    is not run. *)
Theorem patch_format_guard env root patchPath w :
  let p := abs_patch root patchPath in
  (files w !! p = None →
   applyPatch env root patchPath w
   = (inl (fmt_Errorf_w "stat patch: " (PathError "stat" p ENOENT)),
      log (Stat p) w)
   ∧ errors_Is (fmt_Errorf_w "stat patch: " (PathError "stat" p ENOENT)) ENOENT
     = true)
  ∧ (∀ data l,
       files w !! p = Some data →
       first_nonblank_line data = Some l →
       strings_HasPrefix (strings_TrimSpace l) apply_patch_sentinel = true →
       applyPatch env root patchPath w
       = (inl (if forallb fits_scanner (upto_first_nonblank (raw_lines data))
               then wrong_format p
               else fmt_Errorf_w ("read patch " +:+ p +:+ ": ") ErrTooLong),
          log (Open p) (log (Stat p) w))
       ∧ Forall (λ e, is_exec e = false) [Stat p; Open p]).
Proof.
  intros p. split.
  - intros Hnone. split.
    + rewrite applyPatch_unfold. fold p. by rewrite Hnone.
    + cbn [errors_Is]. rewrite errors_Is_refl. by rewrite !orb_true_r.
  - intros data l Hfile Hfirst Hprefix. split; [| by repeat constructor].
    rewrite applyPatch_unfold. fold p. rewrite Hfile.
    by rewrite (scanPatch_sentinel p (raw_lines data) l Hfirst Hprefix).
Qed.

Lemma patch_format_guard_witness :
  applyPatch (sample_env (λ _, not_found_response) None) "/repo" "fix.patch"
    (world_with "/repo/fix.patch" marked_patch)
  = (inl (wrong_format "/repo/fix.patch"),
     {| files := {[ "/repo/fix.patch" := marked_patch ]};
        trace := [Stat "/repo/fix.patch"; Open "/repo/fix.patch"] |}).
Proof.
  exact (proj1 (proj2 (patch_format_guard
                         (sample_env (λ _, not_found_response) None)
                         "/repo" "fix.patch"
                         (world_with "/repo/fix.patch" marked_patch))
                  marked_patch "  *** Begin Patch" eq_refl eq_refl eq_refl)).
Defined.

(** *** A line that does not fit the scanner's buffer *)

Lemma replicate_byte_length n c : String.length (replicate_byte n c) = n.
Proof. induction n; simpl; congruence. Qed.

Lemma replicate_byte_lacks n c d :
  Ascii.eqb d c = false → strings_ContainsByte (replicate_byte n c) d = false.
Proof. intros Hne. induction n; simpl; [done |]. by rewrite Hne. Qed.

Lemma splitOn_nonempty c s : splitOn c s ≠ [].
Proof. destruct s as [| d s]; simpl; [done |]. by repeat case_match. Qed.

Lemma splitOn_app_sep c a b :
  strings_ContainsByte a c = false →
  splitOn c (a +:+ String c b) = a :: splitOn c b.
Proof.
  induction a as [| x a IH]; intros Hlacks.
  - change (splitOn c (String c b) = "" :: splitOn c b).
    simpl. by rewrite Ascii.eqb_refl.
  - simpl in Hlacks. apply orb_false_iff in Hlacks as [Hx Ha].
    change (splitOn c (String x (a +:+ String c b)) = String x a :: splitOn c b).
    simpl. rewrite Ascii.eqb_sym, Hx. by rewrite IH.
Qed.

Lemma raw_lines_cons (pad rest : string) :
  strings_ContainsByte pad (byte 10) = false →
  raw_lines (pad +:+ String (byte 10) rest) = pad :: raw_lines rest.
Proof.
  intros Hlacks. unfold raw_lines. rewrite splitOn_app_sep by done.
  pose proof (splitOn_nonempty (byte 10) rest) as Hne.
  destruct (splitOn (byte 10) rest) as [| e es]; [done |].
  change (List.last (pad :: e :: es) "") with (List.last (e :: es) "").
  by destruct (String.eqb (List.last (e :: es) "") "").
Qed.

Lemma strip_prefixes_spaces n :
  strip_prefixes unicode_space n (replicate_byte n " ") = "".
Proof. induction n as [| n IH]; [done |]. exact IH. Qed.

Lemma strings_TrimSpace_spaces n : strings_TrimSpace (replicate_byte n " ") = "".
Proof.
  unfold strings_TrimSpace.
  by rewrite replicate_byte_length, strip_prefixes_spaces.
Qed.

Lemma dropCR_spaces n : dropCR (replicate_byte n " ") = replicate_byte n " ".
Proof.
  unfold dropCR.
  assert (strings_HasSuffixByte (replicate_byte n " ") (byte 13) = false) as ->;
    [| done].
  induction n as [| [| n] IH]; done.
Qed.

Lemma fits_scanner_buffer c : fits_scanner (replicate_byte scanner_buffer c) = false.
Proof.
  unfold fits_scanner. rewrite replicate_byte_length.
  unfold scanner_buffer. by rewrite N2Nat.id.
Qed.

Lemma scanPatch_too_long (path raw : string) (rest : list string) :
  fits_scanner raw = false →
  scanPatch path (raw :: rest)
  = Some (fmt_Errorf_w ("read patch " +:+ path +:+ ": ") ErrTooLong).
Proof.
  intros Hfits. cbn [scanPatch]. unfold Scanner_token. by rewrite Hfits.
Qed.

Lemma padded_patch_lines :
  raw_lines padded_patch
  = [replicate_byte scanner_buffer " "; apply_patch_sentinel].
Proof.
  unfold padded_patch.
  change (LF +:+ apply_patch_sentinel +:+ LF)
    with (String (byte 10) (apply_patch_sentinel +:+ LF)).
  rewrite raw_lines_cons; [done |].
  by apply replicate_byte_lacks.
Qed.

(** C7 as stated fails on a patch file that starts with a line of 64 KiB of
    spaces: its first non-blank line is the sentinel, but the scanner gives
    up on the line before it and the applier returns a read error, not the
    wrong-format error. *)
Lemma padded_patch_read_error :
  files (world_with "/repo/fix.patch" padded_patch) !! abs_patch "/repo" "fix.patch"
  = Some padded_patch
  ∧ first_nonblank_line padded_patch = Some apply_patch_sentinel
  ∧ strings_HasPrefix (strings_TrimSpace apply_patch_sentinel)
      apply_patch_sentinel = true
  ∧ (applyPatch (sample_env (λ _, not_found_response) None) "/repo" "fix.patch"
       (world_with "/repo/fix.patch" padded_patch)).1
    = inl (fmt_Errorf_w "read patch /repo/fix.patch: " ErrTooLong)
  ∧ (applyPatch (sample_env (λ _, not_found_response) None) "/repo" "fix.patch"
       (world_with "/repo/fix.patch" padded_patch)).1
    ≠ inl (wrong_format (abs_patch "/repo" "fix.patch")).
Proof.
  assert (files (world_with "/repo/fix.patch" padded_patch)
            !! abs_patch "/repo" "fix.patch" = Some padded_patch) as Hfile.
  { change (abs_patch "/repo" "fix.patch") with "/repo/fix.patch".
    apply lookup_singleton_eq. }
  assert (first_nonblank_line padded_patch = Some apply_patch_sentinel) as Hfirst.
  { unfold first_nonblank_line, text_lines. rewrite padded_patch_lines.
    cbn [fmap list_fmap List.find]. unfold blank at 1.
    rewrite dropCR_spaces, strings_TrimSpace_spaces. done. }
  assert ((applyPatch (sample_env (λ _, not_found_response) None) "/repo"
             "fix.patch" (world_with "/repo/fix.patch" padded_patch)).1
          = inl (fmt_Errorf_w "read patch /repo/fix.patch: " ErrTooLong)) as Herr.
  { rewrite applyPatch_unfold. cbv zeta. rewrite Hfile, padded_patch_lines.
    rewrite scanPatch_too_long by apply fits_scanner_buffer. done. }
  split; [done |]. split; [done |]. split; [done |]. split; [done |].
  rewrite Herr. discriminate.
Qed.

(** ** Destination paths *)

Lemma append_assoc (a b c : string) : (a +:+ b) +:+ c = a +:+ b +:+ c.
Proof.
  induction a as [| x a IH]; [done |].
  change (String x ((a +:+ b) +:+ c) = String x (a +:+ b +:+ c)). by rewrite IH.
Qed.

Lemma append_nil_r (a : string) : a +:+ "" = a.
Proof.
  induction a as [| x a IH]; [done |].
  change (String x (a +:+ "") = String x a). by rewrite IH.
Qed.

Lemma HasPrefix_append (a b : string) : strings_HasPrefix (a +:+ b) a = true.
Proof.
  induction a as [| x a IH]; [done |].
  change (strings_HasPrefix (String x (a +:+ b)) (String x a) = true).
  cbn [strings_HasPrefix]. by rewrite Ascii.eqb_refl, IH.
Qed.

Lemma HasPrefix_append_nonempty (a b : string) (c : ascii) :
  a ≠ "" →
  strings_HasPrefix (a +:+ b) (String c "") = strings_HasPrefix a (String c "").
Proof. by destruct a. Qed.

Lemma splitOn_app c a b :
  splitOn c (a +:+ String c b) = splitOn c a ++ splitOn c b.
Proof.
  induction a as [| x a IH].
  - change (splitOn c (String c b) = "" :: splitOn c b).
    simpl. by rewrite Ascii.eqb_refl.
  - change (splitOn c (String x (a +:+ String c b))
            = splitOn c (String x a) ++ splitOn c b).
    simpl. rewrite IH. destruct (Ascii.eqb x c); [done |].
    pose proof (splitOn_nonempty c a). by destruct (splitOn c a).
Qed.

Lemma Clean_nonempty (path : string) :
  path ≠ "" →
  filepath_Clean path
  = render (strings_HasPrefix path "/")
      (clean_elems (strings_HasPrefix path "/") (splitOn "/" path)).
Proof.
  intros Hne. unfold filepath_Clean, render.
  apply eqb_empty_false in Hne. by rewrite Hne.
Qed.

Lemma clean_step_trivial rooted st e :
  is_real e = false → clean_step rooted st e = st.
Proof.
  destruct st as [out dotdot]. unfold is_real, clean_step.
  destruct (String.eqb e ""); [done |]. by destruct (String.eqb e ".").
Qed.

Lemma clean_step_real rooted out dotdot e :
  is_real e = true → String.eqb e ".." = false →
  clean_step rooted (out, dotdot) e = (e :: out, dotdot).
Proof.
  unfold is_real, clean_step. intros Hreal ->.
  destruct (String.eqb e ""); [done |]. by destruct (String.eqb e ".").
Qed.

(** Elements without [..] are appended to whatever was kept so far. *)
Lemma clean_fold_plain rooted out dotdot (es : list string) :
  existsb (String.eqb "..") es = false →
  foldl (clean_step rooted) (out, dotdot) es
  = (rev (List.filter is_real es) ++ out, dotdot).
Proof.
  revert out. induction es as [| e es IH]; intros out Hplain; [done |].
  cbn [existsb] in Hplain. apply orb_false_iff in Hplain as [He Hes].
  cbn [foldl List.filter].
  destruct (is_real e) eqn:Hreal.
  - rewrite clean_step_real; [| done | by rewrite String.eqb_sym].
    rewrite IH by done. cbn [rev]. by rewrite <- app_assoc.
  - rewrite clean_step_trivial by done. by apply IH.
Qed.

Lemma clean_elems_plain rooted (base es : list string) :
  existsb (String.eqb "..") es = false →
  clean_elems rooted (base ++ es)
  = clean_elems rooted base ++ List.filter is_real es.
Proof.
  intros Hplain. unfold clean_elems. rewrite foldl_app.
  destruct (foldl (clean_step rooted) ([], 0) base) as [out dotdot].
  rewrite clean_fold_plain by done. cbn [fst].
  by rewrite rev_app_distr, rev_involutive.
Qed.

Lemma clean_elems_skip rooted (base es : list string) (e : string) :
  is_real e = false →
  clean_elems rooted (base ++ e :: es) = clean_elems rooted (base ++ es).
Proof.
  intros Hskip. unfold clean_elems. rewrite !foldl_app. cbn [foldl].
  by rewrite clean_step_trivial.
Qed.

Lemma join_base_nonempty root t : root ≠ "" ∨ t ≠ "" → join_base root t ≠ "".
Proof.
  unfold join_base. intros [Hr | Ht].
  - apply eqb_empty_false in Hr. rewrite Hr. by destruct root.
  - destruct (String.eqb root ""); [done |]. by destruct root.
Qed.

Lemma Join_base2 root t :
  root ≠ "" ∨ t ≠ "" →
  filepath_Join [root; t] = filepath_Clean (join_base root t).
Proof.
  intros Hne. unfold join_base. cbn [filepath_Join].
  destruct (String.eqb root "") eqn:Hroot; [| done].
  destruct Hne as [Hr | Ht]; [by apply String.eqb_eq in Hroot |].
  apply eqb_empty_false in Ht. by rewrite Ht.
Qed.

Lemma Join_base3 root t d :
  root ≠ "" ∨ t ≠ "" →
  filepath_Join [root; t; d] = filepath_Clean (join_base root t +:+ String "/" d).
Proof.
  intros Hne. unfold join_base. cbn [filepath_Join].
  destruct (String.eqb root "") eqn:Hroot.
  - destruct Hne as [Hr | Ht]; [by apply String.eqb_eq in Hroot |].
    apply eqb_empty_false in Ht. by rewrite Ht.
  - cbn [String.concat]. by rewrite append_assoc.
Qed.

Lemma Clean_append_sep (P d : string) :
  P ≠ "" →
  filepath_Clean (P +:+ String "/" d)
  = render (strings_HasPrefix P "/")
      (clean_elems (strings_HasPrefix P "/") (splitOn "/" P ++ splitOn "/" d)).
Proof.
  intros Hne. rewrite Clean_nonempty by (by destruct P).
  by rewrite HasPrefix_append_nonempty, splitOn_app.
Qed.

(** A separator at the start of the last element changes nothing. *)
Lemma Clean_leading_separator (P d : string) :
  P ≠ "" →
  filepath_Clean (P +:+ String "/" (String "/" d))
  = filepath_Clean (P +:+ String "/" d).
Proof.
  intros Hne. rewrite !Clean_append_sep by done.
  change (splitOn "/" (String "/" d)) with ("" :: splitOn "/" d).
  by rewrite clean_elems_skip.
Qed.

(** An empty last element changes nothing. *)
Lemma Clean_empty_element (P : string) :
  P ≠ "" → filepath_Clean (P +:+ String "/" "") = filepath_Clean P.
Proof.
  intros Hne. rewrite Clean_append_sep, Clean_nonempty by done.
  change (splitOn "/" "") with [""].
  by rewrite clean_elems_skip, app_nil_r.
Qed.

Lemma concat_app_nonempty (sep : string) (l1 l2 : list string) :
  l1 ≠ [] → l2 ≠ [] →
  String.concat sep (l1 ++ l2)
  = String.concat sep l1 +:+ sep +:+ String.concat sep l2.
Proof.
  intros H1 H2. induction l1 as [| a l1 IH]; [done |].
  destruct l1 as [| b l1].
  - destruct l2; [done |]. reflexivity.
  - change (a +:+ sep +:+ String.concat sep ((b :: l1) ++ l2)
            = (a +:+ sep +:+ String.concat sep (b :: l1)) +:+ sep
                +:+ String.concat sep l2).
    rewrite IH by done. by rewrite !append_assoc.
Qed.

Lemma path_under_extension (base extra : list string) :
  path_under (render true base) (render true (base ++ extra)) = true.
Proof.
  unfold path_under, render. apply orb_true_iff.
  destruct extra as [| x extra].
  { left. rewrite app_nil_r. apply String.eqb_refl. }
  right. destruct base as [| b base]; [reflexivity |].
  destruct (String.eqb ("/" +:+ String.concat "/" (b :: base)) "/");
    [reflexivity |].
  rewrite concat_app_nonempty by done.
  rewrite <- !append_assoc. rewrite (append_assoc "/" _ "/").
  apply HasPrefix_append.
Qed.

(** Without [..] the last element stays below what precedes it. *)
Lemma Clean_stays_under (P d : string) :
  strings_HasPrefix P "/" = true →
  has_dotdot d = false →
  filepath_Clean (P +:+ String "/" d)
  = render true (clean_elems true (splitOn "/" P) ++ real_elems d)
  ∧ filepath_Clean P = render true (clean_elems true (splitOn "/" P))
  ∧ path_under (filepath_Clean P) (filepath_Clean (P +:+ String "/" d)) = true.
Proof.
  intros Hrooted Hplain.
  assert (P ≠ "") as Hne by (by destruct P).
  rewrite Clean_append_sep, Clean_nonempty by done. rewrite Hrooted.
  rewrite clean_elems_plain by done. fold (real_elems d).
  split; [done |]. split; [done |]. apply path_under_extension.
Qed.

Lemma Clean_leading_separators (P d : string) (n : nat) :
  P ≠ "" →
  filepath_Clean (P +:+ String "/" (slashes n +:+ d))
  = filepath_Clean (P +:+ String "/" d).
Proof.
  intros Hne. induction n as [| n IH]; [done |].
  change (slashes (S n) +:+ d) with (String "/" (slashes n +:+ d)).
  by rewrite Clean_leading_separator.
Qed.

(** *** Cleaning twice *)

Lemma splitOn_elements_lack c s :
  Forall (λ e, strings_ContainsByte e c = false) (splitOn c s).
Proof.
  induction s as [| x s IH]; [by repeat constructor |].
  simpl. destruct (Ascii.eqb x c) eqn:Hx; [by constructor |].
  pose proof (splitOn_nonempty c s) as Hne.
  destruct (splitOn c s) as [| e es]; [done |].
  apply Forall_cons in IH as [He Hes]. constructor; [| done].
  simpl. by rewrite Ascii.eqb_sym, Hx.
Qed.

Lemma splitOn_lacks c s :
  strings_ContainsByte s c = false → splitOn c s = [s].
Proof.
  induction s as [| x s IH]; [done |].
  simpl. intros Hlacks. apply orb_false_iff in Hlacks as [Hx Hs].
  rewrite Ascii.eqb_sym, Hx. by rewrite IH.
Qed.

Lemma splitOn_concat c (es : list string) :
  es ≠ [] →
  Forall (λ e, strings_ContainsByte e c = false) es →
  splitOn c (String.concat (String c "") es) = es.
Proof.
  intros Hne Hlack. induction es as [| e es IH]; [done |].
  apply Forall_cons in Hlack as [He Hes].
  destruct es as [| e' es]; [by apply splitOn_lacks |].
  change (splitOn c (e +:+ String c (String.concat (String c "") (e' :: es)))
          = e :: e' :: es).
  rewrite splitOn_app_sep by done. by rewrite IH.
Qed.

Lemma is_proper_spec e :
  is_proper e = true →
  is_real e = true ∧ String.eqb e ".." = false
  ∧ strings_ContainsByte e "/" = false.
Proof.
  unfold is_proper. intros H.
  apply andb_true_iff in H as [H H3]. apply andb_true_iff in H as [H1 H2].
  by rewrite <- !negb_true_iff.
Qed.

Lemma clean_state_init rooted : clean_state rooted ([], 0).
Proof. by exists []. Qed.

Lemma clean_state_step rooted st e :
  strings_ContainsByte e "/" = false →
  clean_state rooted st → clean_state rooted (clean_step rooted st e).
Proof.
  intros Hlacks Hst. destruct (is_real e) eqn:Hreal.
  2: { by rewrite clean_step_trivial. }
  destruct st as [out dotdot]. destruct Hst as (kept & Hout & Hkept & Hroot).
  simpl in Hout, Hroot.
  destruct (String.eqb e "..") eqn:Hdd.
  - unfold clean_step, is_real in *.
    destruct (String.eqb e ""); [done |]. destruct (String.eqb e "."); [done |].
    rewrite Hdd, Hout, length_app, length_rev, length_replicate.
    destruct kept as [| k kept _] using rev_ind.
    + rewrite Nat.ltb_irrefl. simpl. destruct rooted; [by exists [] |].
      by exists [].
    + rewrite length_app. simpl.
      assert ((dotdot <? length kept + 1 + dotdot) = true) as ->
        by (apply Nat.ltb_lt; lia).
      exists kept. rewrite rev_app_distr. simpl. split; [done |].
      split; [| done]. rewrite forallb_app in Hkept.
      by apply andb_true_iff in Hkept as [? _].
  - rewrite clean_step_real by done. exists (kept ++ [e]). simpl.
    rewrite rev_app_distr, Hout. simpl. split; [done |]. split; [| done].
    rewrite forallb_app, Hkept. simpl. unfold is_proper.
    by rewrite Hreal, Hdd, Hlacks.
Qed.

Lemma clean_state_fold rooted st (es : list string) :
  Forall (λ e, strings_ContainsByte e "/" = false) es →
  clean_state rooted st → clean_state rooted (foldl (clean_step rooted) st es).
Proof.
  revert st. induction es as [| e es IH]; intros st Hes Hst; [done |].
  apply Forall_cons in Hes as [He Hes]. simpl.
  apply IH; [done |]. by apply clean_state_step.
Qed.

Lemma rev_replicate {A} (n : nat) (x : A) : rev (replicate n x) = replicate n x.
Proof.
  induction n as [| n IH]; [done |].
  simpl. rewrite IH. clear IH.
  induction n as [| n IH]; [done |]. simpl. by rewrite IH.
Qed.

Lemma clean_fold_dotdots (n i : nat) :
  foldl (clean_step false) (replicate i "..", i) (replicate n "..")
  = (replicate (n + i) "..", n + i).
Proof.
  revert i. induction n as [| n IH]; intros i; [done |].
  cbn [replicate foldl].
  assert (clean_step false (replicate i "..", i) ".."
          = (replicate (S i) "..", S i)) as ->.
  { unfold clean_step. cbn [String.eqb Ascii.eqb Bool.eqb].
    rewrite length_replicate, Nat.ltb_irrefl. done. }
  rewrite IH. by rewrite Nat.add_succ_r.
Qed.

Lemma forallb_proper_plain (kept : list string) :
  forallb is_proper kept = true →
  existsb (String.eqb "..") kept = false ∧ List.filter is_real kept = kept.
Proof.
  induction kept as [| e kept IH]; [done |].
  cbn [forallb existsb List.filter]. intros H.
  apply andb_true_iff in H as [He Hkept].
  apply is_proper_spec in He as (Hreal & Hdd & _).
  destruct (IH Hkept) as [IH1 IH2].
  rewrite String.eqb_sym, Hdd, Hreal, IH1, IH2. done.
Qed.

(** Running the loop on what it kept gives the same state again. *)
Lemma clean_reprocess rooted out dotdot :
  clean_state rooted (out, dotdot) →
  foldl (clean_step rooted) ([], 0) (rev out) = (out, dotdot).
Proof.
  intros (kept & Hout & Hkept & Hroot). simpl in Hout, Hroot.
  destruct (forallb_proper_plain kept Hkept) as [Hplain Hfilter].
  rewrite Hout, rev_app_distr, rev_involutive, rev_replicate, foldl_app.
  assert (foldl (clean_step rooted) ([], 0) (replicate dotdot "..")
          = (replicate dotdot "..", dotdot)) as ->.
  { destruct rooted.
    - by rewrite Hroot.
    - pose proof (clean_fold_dotdots dotdot 0) as Hdd.
      cbn [replicate] in Hdd. rewrite Hdd. by rewrite Nat.add_0_r. }
  rewrite clean_fold_plain by done. by rewrite Hfilter.
Qed.

Lemma clean_state_elements rooted out dotdot :
  clean_state rooted (out, dotdot) →
  Forall (λ e, e ≠ "" ∧ strings_ContainsByte e "/" = false) (rev out).
Proof.
  intros (kept & Hout & Hkept & _). simpl in Hout.
  rewrite Hout, rev_app_distr, rev_involutive, rev_replicate.
  apply Forall_app. split.
  - apply Forall_forall. intros e He. by apply elem_of_replicate in He as [-> _].
  - clear Hout. induction kept as [| e kept IH]; [constructor |].
    cbn [forallb] in Hkept. apply andb_true_iff in Hkept as [He Hkept].
    apply is_proper_spec in He as (Hreal & _ & Hlacks).
    constructor; [| by apply IH]. split; [| done].
    intros ->. done.
Qed.

Lemma HasPrefix_first_byte (e rest : string) (c : ascii) :
  e ≠ "" → strings_ContainsByte e c = false →
  strings_HasPrefix (e +:+ rest) (String c "") = false.
Proof.
  destruct e as [| x e]; [done |]. intros _ Hlacks.
  simpl in Hlacks. apply orb_false_iff in Hlacks as [Hx _].
  change (Ascii.eqb c x && true = false). by rewrite Hx.
Qed.

(** What the loop makes of the elements of an already cleaned path. *)
Lemma clean_render_elements rooted out dotdot :
  clean_state rooted (out, dotdot) →
  render rooted (rev out) ≠ ""
  ∧ strings_HasPrefix (render rooted (rev out)) "/" = rooted
  ∧ foldl (clean_step rooted) ([], 0) (splitOn "/" (render rooted (rev out)))
    = (out, dotdot).
Proof.
  intros Hst.
  pose proof (clean_state_elements _ _ _ Hst) as Helems.
  pose proof (clean_reprocess _ _ _ Hst) as Hagain.
  destruct (rev out) as [| b B] eqn:HB.
  - (* nothing was kept *)
    assert (out = []) as -> by (by destruct out using rev_ind;
                                 [| rewrite rev_app_distr in HB]).
    simpl in Hagain. destruct rooted; by injection Hagain as <-.
  - apply Forall_cons in Helems as [[Hb Hlacks] HB'].
    assert (splitOn "/" (String.concat "/" (b :: B)) = b :: B) as Hsplit.
    { apply splitOn_concat; [done |]. constructor; [done |].
      eapply Forall_impl; [exact HB' |]. by intros e [_ He]. }
    destruct rooted; unfold render.
    + split; [done |]. split; [done |].
      change (splitOn "/" ("/" +:+ String.concat "/" (b :: B)))
        with ("" :: splitOn "/" (String.concat "/" (b :: B))).
      rewrite Hsplit. exact Hagain.
    + rewrite Hsplit. split; [| split; [| exact Hagain]].
      * destruct B; [done |]. by destruct b.
      * destruct B as [| b' B]; cbn [String.concat].
        -- rewrite <- (append_nil_r b). by apply HasPrefix_first_byte.
        -- by apply HasPrefix_first_byte.
Qed.

(** Cleaning the first part of a path beforehand does not change the
    result. *)
Lemma Clean_Clean_append (P d : string) :
  P ≠ "" →
  filepath_Clean (filepath_Clean P +:+ String "/" d)
  = filepath_Clean (P +:+ String "/" d).
Proof.
  intros Hne. rewrite (Clean_nonempty P) by done.
  set (rooted := strings_HasPrefix P "/").
  assert (clean_state rooted
            (foldl (clean_step rooted) ([], 0) (splitOn "/" P))) as Hst.
  { apply clean_state_fold; [apply splitOn_elements_lack | apply clean_state_init]. }
  unfold clean_elems at 1.
  destruct (foldl (clean_step rooted) ([], 0) (splitOn "/" P))
    as [out dotdot] eqn:Hfold.
  cbn [fst].
  destruct (clean_render_elements _ _ _ Hst) as (Hrender & Hrooted & Hagain).
  rewrite !Clean_append_sep by done. fold rooted. rewrite Hrooted.
  unfold clean_elems. rewrite !foldl_app. by rewrite Hagain, Hfold.
Qed.

Lemma Join_Join root t d :
  root ≠ "" ∨ t ≠ "" →
  filepath_Join [filepath_Join [root; t]; d] = filepath_Join [root; t; d].
Proof.
  intros Hne. pose proof (join_base_nonempty root t Hne) as Hbase.
  rewrite (Join_base3 root t d Hne), (Join_base2 root t Hne).
  rewrite <- Clean_Clean_append by done.
  assert (filepath_Clean (join_base root t) ≠ "") as Hclean.
  { rewrite Clean_nonempty by done.
    set (rooted := strings_HasPrefix (join_base root t) "/").
    assert (clean_state rooted
              (foldl (clean_step rooted) ([], 0)
                 (splitOn "/" (join_base root t)))) as Hst.
    { apply clean_state_fold;
        [apply splitOn_elements_lack | apply clean_state_init]. }
    unfold clean_elems.
    destruct (foldl (clean_step rooted) ([], 0) _) as [out dotdot].
    by destruct (clean_render_elements _ _ _ Hst) as (Hrender & _). }
  cbn [filepath_Join String.concat].
  apply eqb_empty_false in Hclean. by rewrite Hclean.
Qed.

(** C9, as amended.  For a validated configuration the destination is
    [filepath.Join(root, target_dir, dst)], the cleaned form of
    [root/target_dir/dst], and this is [dst] joined to
    [join(root, target_dir)].  Separators at the start of [dst] have no
    effect, so an absolute [dst] is not taken as an absolute path.  When
    [root] is absolute and [dst] has no [..] element, the destination is
    [join(root, target_dir)] followed by the proper elements of [dst], hence
    lies under it.  This is the path [processFile] hands to [download]. *)
Theorem dest_path_relative root cfg file :
  TargetDir cfg ≠ "" →
  dest_path root cfg file
  = filepath_Clean (join_base root (TargetDir cfg) +:+ String "/" (Dst file))
  ∧ dest_path root cfg file
    = filepath_Join [filepath_Join [root; TargetDir cfg]; Dst file]
  ∧ dest_path root cfg file
    = filepath_Join [root; TargetDir cfg; strings_TrimLeft (Dst file) "/"]
  ∧ (strings_HasPrefix root "/" = true →
     has_dotdot (Dst file) = false →
     path_under (filepath_Join [root; TargetDir cfg]) (dest_path root cfg file)
     = true
     ∧ ∃ base, filepath_Join [root; TargetDir cfg] = render true base
               ∧ dest_path root cfg file
                 = render true (base ++ real_elems (Dst file)))
  ∧ (∀ env skip w,
       processFile env root cfg file skip false w
       = match download env (fetch_url cfg file) (dest_path root cfg file)
                 (log (Stdout (plan_line root cfg file)) w) with
         | (inl e, w1) =>
             (inl (fmt_Errorf_w
                     ("download " +:+ strings_TrimLeft (Src file) "/" +:+ ": ")
                     e), w1)
         | (inr _, w1) => patch_stage env root file skip w1
         end).
Proof.
  intros Htarget.
  pose proof (join_base_nonempty root (TargetDir cfg) (or_intror Htarget)) as Hne.
  assert (dest_path root cfg file
          = filepath_Clean (join_base root (TargetDir cfg)
                            +:+ String "/" (Dst file))) as Hclean.
  { unfold dest_path, filepath_FromSlash. by rewrite Join_base3 by (by right). }
  split; [exact Hclean |]. split; [| split; [| split]].
  - rewrite Join_Join by (by right). reflexivity.
  - rewrite Hclean, Join_base3 by (by right).
    destruct (strings_TrimLeft_slash (Dst file)) as [[n Hn] _].
    rewrite Hn at 1. by apply Clean_leading_separators.
  - intros Hrooted Hplain. rewrite Hclean, Join_base2 by (by right).
    assert (strings_HasPrefix (join_base root (TargetDir cfg)) "/" = true)
      as Hbase.
    { unfold join_base. destruct root as [| c root]; [done | exact Hrooted]. }
    destruct (Clean_stays_under _ _ Hbase Hplain) as (Hdest & Hjoin & Hunder).
    split; [done |]. eexists. split; [exact Hjoin | exact Hdest].
  - intros env skip w. apply processFile_after_download.
Qed.

Lemma dest_path_relative_witness :
  dest_path "/repo" (sample_config []) (entry "a.js" "//a/./b.js")
  = "/repo/out/a/b.js"
  ∧ path_under "/repo/out"
      (dest_path "/repo" (sample_config []) (entry "a.js" "//a/./b.js")) = true.
Proof.
  destruct (dest_path_relative "/repo" (sample_config [])
              (entry "a.js" "//a/./b.js")) as (_ & _ & Hjoin & Hunder & _).
  { discriminate. }
  split; [exact Hjoin |].
  exact (proj1 (Hunder eq_refl eq_refl)).
Defined.

(** C9 as stated fails for a [dst] with [..] elements: the destination of
    the entry lies outside [join(root, target_dir)], and that is where the
    file is written. *)
Lemma dotdot_escapes_target_dir :
  dest_path "/repo" (sample_config []) escaping_entry = "/etc/passwd"
  ∧ path_under (filepath_Join ["/repo"; TargetDir (sample_config [])])
      (dest_path "/repo" (sample_config []) escaping_entry) = false
  ∧ files (syncEntry (sample_env (λ _, ok_response "console.log(1)") None)
             "/repo" (sample_config []) false false escaping_entry
             empty_world).2
    = {[ "/etc/passwd" := "console.log(1)" ]}.
Proof. split; [| split]; vm_compute; reflexivity. Qed.

(** C10.  Only [commit] and [target_dir] are validated.  An entry with an
    empty [src] is fetched from [{base}/{commit}/] and an entry with an empty
    [dst] is written to [join(root, target_dir)] itself; such an entry is
    processed like any other: the entry is its plan line followed by the
    download for this URL and this destination (and then the patch stage),
    the download starts with the GET, a download that succeeds ends with the
    rename onto the destination, and when no call fails the download does
    succeed and leaves the body of the response at the destination. *)
Theorem empty_src_dst_processed env root cfg file skip w :
  Commit cfg ≠ "" →
  TargetDir cfg ≠ "" →
  isEnabled file = true →
  let url := fetch_url cfg file in
  let dest := dest_path root cfg file in
  let w0 := log (Stdout (plan_line root cfg file)) w in
  validate cfg = None
  ∧ (Src file = "" →
     fetch_url cfg file = wptRepoRawURL +:+ "/" +:+ Commit cfg +:+ "/")
  ∧ (Dst file = "" →
     dest_path root cfg file = filepath_Join [root; TargetDir cfg])
  ∧ (http_NewRequest env (fetch_url cfg file) = None →
     ∃ t, trace (syncEntry env root cfg skip false file w).2
          = trace w ++ Stdout (plan_line root cfg file)
              :: HttpGet (fetch_url cfg file) :: t)
  ∧ (∀ w1,
       download env (fetch_url cfg file) (dest_path root cfg file)
         (log (Stdout (plan_line root cfg file)) w) = (inr tt, w1) →
       ∃ tmp body,
         trace w1 = trace w ++ Stdout (plan_line root cfg file)
                      :: download_calls (fetch_url cfg file)
                           (dest_path root cfg file) tmp body)
  ∧ syncEntry env root cfg skip false file w
    = match download env url dest w0 with
      | (inl e, w1) =>
          (inl (fmt_Errorf_w
                  ("download " +:+ strings_TrimLeft (Src file) "/" +:+ ": ") e),
           w1)
      | (inr _, w1) => patch_stage env root file skip w1
      end
  ∧ (∀ resp,
       faultless env →
       http_Do env w0 url = inr resp →
       StatusCode resp = 200%Z →
       let tmp := temp_name env (filepath_Dir dest) ".wpt-download-*"
                    (log (MkdirAll (filepath_Dir dest)) (log (HttpGet url) w0)) in
       files w !! tmp = None →
       tmp ≠ dest →
       syncEntry env root cfg skip false file w
       = patch_stage env root file skip
           {| files := <[dest := Body resp]> (files w);
              trace := trace w0 ++ download_calls url dest tmp (Body resp) |})
  ∧ (∀ resp,
       Dst file = "" →
       skip = true ∨ Patch file = "" →
       faultless env →
       http_Do env w0 url = inr resp →
       StatusCode resp = 200%Z →
       let tmp := temp_name env (filepath_Dir dest) ".wpt-download-*"
                    (log (MkdirAll (filepath_Dir dest)) (log (HttpGet url) w0)) in
       files w !! tmp = None →
       tmp ≠ dest →
       (syncEntry env root cfg skip false file w).1 = inr tt
       ∧ files (syncEntry env root cfg skip false file w).2
         = <[filepath_Join [root; TargetDir cfg] := Body resp]> (files w)).
Proof.
  intros Hcommit Htarget Hon url dest w0.
  assert (Dst file = "" → dest = filepath_Join [root; TargetDir cfg]) as Hempty.
  { intros Hdst. unfold dest, dest_path, filepath_FromSlash. rewrite Hdst.
    rewrite Join_base3, Join_base2 by (by right).
    apply Clean_empty_element. apply join_base_nonempty. by right. }
  assert (∀ resp,
            faultless env →
            http_Do env w0 url = inr resp →
            StatusCode resp = 200%Z →
            let tmp := temp_name env (filepath_Dir dest) ".wpt-download-*"
                         (log (MkdirAll (filepath_Dir dest))
                            (log (HttpGet url) w0)) in
            files w !! tmp = None →
            tmp ≠ dest →
            syncEntry env root cfg skip false file w
            = patch_stage env root file skip
                {| files := <[dest := Body resp]> (files w);
                   trace := trace w0 ++ download_calls url dest tmp (Body resp) |})
    as Hwritten.
  { intros resp Hfl Hdo Hstatus tmp Hfresh Hne.
    unfold syncEntry. rewrite Hon. cbn [negb].
    rewrite processFile_after_download. fold url dest w0.
    rewrite (download_faultless env url dest w0 resp Hfl Hdo Hstatus Hfresh).
    fold tmp. by rewrite download_success_files. }
  split; [| split; [| split; [| split; [| split; [| split; [| split]]]]]].
  - apply validate_iff_main. done.
  - intros Hsrc. unfold fetch_url. by rewrite Hsrc.
  - exact Hempty.
  - intros Hreq. unfold syncEntry. rewrite Hon. cbn [negb].
    by apply processFile_requests.
  - intros w1 Hdl.
    apply download_success in Hdl as (resp & tmp & _ & _ & _ & _ & _ & Htr & _).
    exists tmp, (Body resp). rewrite Htr. simpl. by rewrite <- app_assoc.
  - unfold syncEntry. rewrite Hon. cbn [negb].
    apply processFile_after_download.
  - exact Hwritten.
  - intros resp Hdst Hnopatch Hfl Hdo Hstatus tmp Hfresh Hne.
    rewrite (Hwritten resp Hfl Hdo Hstatus Hfresh Hne).
    rewrite <- (Hempty Hdst). unfold patch_stage.
    assert (skip || String.eqb (Patch file) "" = true) as ->; [| done].
    destruct Hnopatch as [-> | ->]; [done | apply orb_true_r].
Qed.

Lemma empty_src_dst_processed_witness :
  validate (sample_config [entry "" ""]) = None
  ∧ fetch_url (sample_config [entry "" ""]) (entry "" "")
    = "https://raw.githubusercontent.com/web-platform-tests/wpt/deadbeef/"
  ∧ dest_path "/repo" (sample_config [entry "" ""]) (entry "" "") = "/repo/out"
  ∧ files (syncEntry (sample_env (λ _, ok_response "console.log(1)") None)
             "/repo" (sample_config [entry "" ""]) false false (entry "" "")
             empty_world).2
    = {[ "/repo/out" := "console.log(1)" ]}.
Proof.
  destruct (empty_src_dst_processed
              (sample_env (λ _, ok_response "console.log(1)") None) "/repo"
              (sample_config [entry "" ""]) (entry "" "") false empty_world)
    as (Hvalid & Hurl & Hdst & _ & _ & _ & _ & Hwritten);
    [discriminate | discriminate | reflexivity |].
  split; [exact Hvalid |]. split; [exact (Hurl eq_refl) |].
  split; [exact (Hdst eq_refl) |].
  exact (proj2 (Hwritten (ok_response "console.log(1)") eq_refl (or_intror eq_refl)
                  (sample_env_faultless _) eq_refl eq_refl eq_refl
                  ltac:(discriminate))).
Defined.


(** * Properties of [init], [add] and the dispatch *)

(** ** Suffixes *)

Lemma append_length (a b : string) :
  String.length (a +:+ b) = String.length a + String.length b.
Proof. induction a as [| x a IH]; [done |]. simpl. by rewrite <- IH. Qed.

Lemma substring_append (a b : string) :
  String.substring 0 (String.length a) (a +:+ b) = a.
Proof.
  induction a as [| x a IH]; [by destruct b |].
  change (String x (String.substring 0 (String.length a) (a +:+ b)) = String x a).
  by rewrite IH.
Qed.

Lemma HasSuffix_refl (s : string) : strings_HasSuffix s s = true.
Proof. destruct s; simpl; by rewrite ?Ascii.eqb_refl, ?String.eqb_refl. Qed.

Lemma HasSuffix_append (a suffix : string) :
  strings_HasSuffix (a +:+ suffix) suffix = true.
Proof.
  induction a as [| x a IH]; [apply HasSuffix_refl |].
  change (strings_HasSuffix (String x (a +:+ suffix)) suffix = true).
  cbn [strings_HasSuffix]. rewrite IH. apply orb_true_r.
Qed.

Lemma HasSuffix_split (s suffix : string) :
  strings_HasSuffix s suffix = true → ∃ a, s = a +:+ suffix.
Proof.
  induction s as [| x s IH]; cbn [strings_HasSuffix]; intros H;
    apply orb_true_iff in H as [H | H]; try done.
  - apply String.eqb_eq in H as <-. by exists "".
  - apply String.eqb_eq in H as <-. by exists "".
  - destruct (IH H) as [a ->]. by exists (String x a).
Qed.

Lemma HasSuffix_trans (s mid suffix : string) :
  strings_HasSuffix s mid = true → strings_HasSuffix mid suffix = true →
  strings_HasSuffix s suffix = true.
Proof.
  intros H1 H2. apply HasSuffix_split in H1 as [a ->].
  apply HasSuffix_split in H2 as [b ->].
  rewrite <- append_assoc. apply HasSuffix_append.
Qed.

Lemma TrimSuffix_append (a suffix : string) :
  strings_TrimSuffix (a +:+ suffix) suffix = a.
Proof.
  unfold strings_TrimSuffix. rewrite HasSuffix_append, append_length.
  rewrite Nat.add_sub. apply substring_append.
Qed.

(** ** The destination of an added entry *)

Lemma add_dst_any (s : string) : add_dst (s +:+ ".any.js") = s +:+ ".js".
Proof. unfold add_dst. by rewrite HasSuffix_append, TrimSuffix_append. Qed.

Lemma add_dst_plain (s : string) :
  strings_HasSuffix s ".any.js" = false → add_dst s = s.
Proof. unfold add_dst. by intros ->. Qed.

(** X1.  The destination [add] gives to a source: a source that ends in
    [.any.js] loses the [.any], any other source is kept as it is; either
    way a source that ends in [.js] gets a destination that ends in [.js]. *)
Theorem add_dst_suffix (s : string) :
  add_dst (s +:+ ".any.js") = s +:+ ".js"
  ∧ (strings_HasSuffix s ".any.js" = false → add_dst s = s)
  ∧ (strings_HasSuffix s ".js" = true → strings_HasSuffix (add_dst s) ".js" = true).
Proof.
  split; [apply add_dst_any |]. split; [apply add_dst_plain |].
  intros Hjs. unfold add_dst.
  destruct (strings_HasSuffix s ".any.js"); [| done]. apply HasSuffix_append.
Qed.

Lemma add_dst_suffix_witness :
  add_dst "url/a.any.js" = "url/a.js"
  ∧ strings_HasSuffix (add_dst "url/resources/b.js") ".js" = true.
Proof.
  split.
  - exact (proj1 (add_dst_suffix "url/a")).
  - exact (proj2 (proj2 (add_dst_suffix "url/resources/b.js")) eq_refl).
Defined.

(** X2.  Two sources of one listing can get the same destination. *)
Theorem add_dst_collision (s : string) :
  strings_HasSuffix (s +:+ ".js") ".any.js" = false →
  s +:+ ".any.js" ≠ s +:+ ".js"
  ∧ Dst (new_entry (s +:+ ".any.js")) = Dst (new_entry (s +:+ ".js")).
Proof.
  intros Hplain. split.
  - intros Heq. by apply (inj (String.app s)) in Heq.
  - simpl. by rewrite add_dst_any, add_dst_plain.
Qed.

Lemma add_dst_collision_witness :
  Dst (new_entry "url/a.any.js") = Dst (new_entry "url/a.js").
Proof. exact (proj2 (add_dst_collision "url/a" eq_refl)). Defined.

(** ** Merging a listing into the configuration *)

Lemma existing_srcs_fold (m : gmap string bool) (entries : list fileSpec)
    (src : string) :
  foldl (λ m f, <[Src f := true]> m) m entries !! src
  = if bool_decide (src ∈ Src <$> entries) then Some true else m !! src.
Proof.
  revert m. induction entries as [| f entries IH]; intros m; [done |].
  cbn [foldl]. rewrite IH. cbn [fmap list_fmap].
  destruct (decide (src ∈ Src <$> entries)) as [Hin | Hnotin].
  - rewrite !bool_decide_eq_true_2; [done | by right | done].
  - rewrite (bool_decide_eq_false_2 _ Hnotin).
    destruct (decide (src = Src f)) as [-> | Hne].
    + rewrite lookup_insert_eq. rewrite bool_decide_eq_true_2; [done | by left].
    + rewrite lookup_insert_ne by done.
      rewrite bool_decide_eq_false_2; [done |].
      intros [? | ?]%elem_of_cons; done.
Qed.

Lemma map_get_existing (entries : list fileSpec) (src : string) :
  map_get (existing_srcs entries) src = bool_decide (src ∈ Src <$> entries).
Proof.
  unfold map_get, existing_srcs. rewrite existing_srcs_fold.
  by case_bool_decide.
Qed.

Lemma addLoop_spec (existing : gmap string bool) (listing : list string)
    (entries : list fileSpec) (added : nat) (w : world) :
  let fresh := List.filter (λ src, negb (map_get existing src)) listing in
  addLoop existing listing entries added w
  = (inr (entries ++ (new_entry <$> fresh), added + length fresh),
     {| files := files w; trace := trace w ++ (added_line <$> fresh) |}).
Proof.
  revert entries added w.
  induction listing as [| src rest IH]; intros entries added w; simpl.
  - unfold ret. rewrite !app_nil_r, Nat.add_0_r. by destruct w.
  - destruct (map_get existing src); simpl; [apply IH |].
    unfold bind, fmt_Print, emit. rewrite IH. simpl.
    rewrite <- !app_assoc. simpl. by rewrite Nat.add_succ_r.
Qed.

Lemma fresh_srcs_elem (entries : list fileSpec) (listing : list string)
    (src : string) :
  src ∈ fresh_srcs entries listing ↔ src ∈ listing ∧ src ∉ Src <$> entries.
Proof.
  unfold fresh_srcs. rewrite list_elem_of_In, filter_In, <- list_elem_of_In.
  rewrite map_get_existing, negb_true_iff, bool_decide_eq_false. done.
Qed.

(** X3.  The loop of [add] keeps the entries of the configuration, in order, and
    appends one entry for every source of the listing that the configuration
    does not have, in the order of the listing: enabled, without patch, with
    the destination [add_dst] gives.  It prints one line for each and counts
    them. *)
Theorem add_merges_listing (cfg : config) (listing : list string) (w : world) :
  addLoop (existing_srcs (Files cfg)) listing (Files cfg) 0 w
  = (inr (Files (with_added cfg listing),
          length (fresh_srcs (Files cfg) listing)),
     after_added_lines cfg listing w)
  ∧ Files (with_added cfg listing)
    = Files cfg ++ (new_entry <$> fresh_srcs (Files cfg) listing)
  ∧ (∀ src, src ∈ fresh_srcs (Files cfg) listing
            ↔ src ∈ listing ∧ src ∉ Src <$> Files cfg)
  ∧ Forall (λ f, isEnabled f = true ∧ Patch f = "" ∧ Dst f = add_dst (Src f))
      (new_entry <$> fresh_srcs (Files cfg) listing).
Proof.
  split; [| split; [done | split]].
  - by rewrite addLoop_spec.
  - intros src. apply fresh_srcs_elem.
  - apply Forall_fmap, Forall_forall. by intros src _.
Qed.

Lemma fresh_srcs_NoDup (entries : list fileSpec) (listing : list string) :
  NoDup listing → NoDup (fresh_srcs entries listing).
Proof.
  unfold fresh_srcs. intros Hnd. apply NoDup_ListNoDup.
  apply List.NoDup_filter. by apply NoDup_ListNoDup.
Qed.

Lemma Src_new_entries (srcs : list string) : Src <$> (new_entry <$> srcs) = srcs.
Proof.
  induction srcs as [| s srcs IH]; [done |].
  cbn [fmap list_fmap] in *. by rewrite IH.
Qed.

(** X4.  A listing without repeats never gives the configuration a second entry
    for a source. *)
Theorem add_keeps_sources_distinct (cfg : config) (listing : list string) :
  NoDup (Src <$> Files cfg) →
  NoDup listing →
  NoDup (Src <$> Files (with_added cfg listing)).
Proof.
  intros Hcfg Hlisting. unfold with_added. cbn [Files].
  rewrite fmap_app, Src_new_entries.
  apply NoDup_app. split; [done |]. split; [| by apply fresh_srcs_NoDup].
  intros src Hin Hfresh. apply fresh_srcs_elem in Hfresh as [_ Hnotin]. done.
Qed.

Lemma add_keeps_sources_distinct_witness :
  NoDup (Src <$> Files (with_added (sample_config [entry "url/a.js" "a.js"])
                          sample_listing)).
Proof.
  apply add_keeps_sources_distinct.
  - apply NoDup_singleton.
  - apply (bool_decide_unpack _). vm_compute. exact I.
Defined.

Lemma fresh_srcs_again (cfg : config) (listing : list string) :
  fresh_srcs (Files (with_added cfg listing)) listing = [].
Proof.
  destruct (fresh_srcs _ listing) as [| src rest] eqn:Hfresh; [done |].
  assert (src ∈ fresh_srcs (Files (with_added cfg listing)) listing) as Hin
    by (rewrite Hfresh; by left).
  apply fresh_srcs_elem in Hin as [Hin Hnotin]. exfalso. apply Hnotin.
  unfold with_added. cbn [Files]. rewrite fmap_app, Src_new_entries.
  apply elem_of_app.
  destruct (decide (src ∈ Src <$> Files cfg)) as [? | Hnew]; [by left | right].
  by apply fresh_srcs_elem.
Qed.

Lemma addListed_spec (env : ApiEnv) (configPath wptPath : string) (cfg : config)
    (listing : list string) (w : world) :
  addListed env configPath wptPath cfg listing w
  = match listing with
    | [] => (inr tt, print ("No .js files found in " +:+ wptPath +:+ LF) w)
    | _ =>
        match fresh_srcs (Files cfg) listing with
        | [] =>
            (inr tt,
             print ("No new files to add (all files already in config)." +:+ LF) w)
        | fresh =>
            let w1 := after_added_lines cfg listing w in
            match json_MarshalIndent env (with_added cfg listing) with
            | inl e => (inl (fmt_Errorf_w "marshal config: " e), w1)
            | inr data =>
                (wrap "write config: " (os_WriteFile env configPath data) ;;;
                 fmt_Print ("Added " +:+ pretty (length fresh) +:+ " files to "
                            +:+ configPath +:+ LF)) w1
            end
        end
    end.
Proof.
  unfold addListed. destruct listing as [| src rest]; [done |].
  rewrite bool_decide_eq_false_2 by done.
  unfold bind at 1. rewrite addLoop_spec. cbv zeta.
  fold (fresh_srcs (Files cfg) (src :: rest)). cbn [fst snd Nat.add].
  fold (after_added_lines cfg (src :: rest) w).
  destruct (fresh_srcs (Files cfg) (src :: rest)) as [| f fresh] eqn:Hfresh.
  - simpl. unfold fmt_Print, emit, print, log, after_added_lines.
    rewrite Hfresh. simpl. by rewrite app_nil_r.
  - rewrite bool_decide_eq_false_2 by done.
    unfold bind at 1. unfold wrap at 1, lift.
    fold (with_added cfg (src :: rest)). rewrite <- Hfresh.
    destruct (json_MarshalIndent env _) as [e | data]; [done |].
    by rewrite Hfresh.
Qed.

(** ** Walking the listing *)

Lemma walk_step_refl acc w : walk_step acc w acc w.
Proof.
  split; [done |]. split.
  - exists []. by rewrite app_nil_r.
  - exists []. by rewrite app_nil_r.
Qed.

Lemma walk_step_trans acc w acc1 w1 acc2 w2 :
  walk_step acc w acc1 w1 → walk_step acc1 w1 acc2 w2 → walk_step acc w acc2 w2.
Proof.
  intros (Hf1 & (m1 & -> & Hm1) & (t1 & Ht1 & Hn1))
         (Hf2 & (m2 & -> & Hm2) & (t2 & Ht2 & Hn2)).
  split; [congruence |]. split.
  - exists (m1 ++ m2). rewrite app_assoc. split; [done | by apply Forall_app].
  - exists (t1 ++ t2). rewrite Ht2, Ht1, app_assoc.
    split; [done | by apply Forall_app].
Qed.

Lemma walk_step_request acc w url : walk_step acc w acc (log (HttpGet url) w).
Proof.
  split; [done |]. split.
  - exists []. by rewrite app_nil_r.
  - exists [HttpGet url]. split; [done | by repeat constructor].
Qed.

Lemma walk_step_append acc w path :
  strings_HasSuffix path ".js" = true → walk_step acc w (acc ++ [path]) w.
Proof.
  intros Hjs. split; [done |]. split.
  - exists [path]. split; [done | by repeat constructor].
  - exists []. by rewrite app_nil_r.
Qed.

Lemma rangeItems_walk recurse items acc w r acc' w' :
  (∀ path acc w r acc' w',
     recurse path acc w = Some (r, acc', w') → walk_step acc w acc' w') →
  rangeItems recurse items acc w = Some (r, acc', w') →
  walk_step acc w acc' w'.
Proof.
  intros Hrec. revert acc w.
  induction items as [| item rest IH]; intros acc w; cbn [rangeItems].
  { intros [= _ <- <-]. apply walk_step_refl. }
  destruct (String.eqb (Type' item) "file").
  { destruct (strings_HasSuffix (Path item) ".js") eqn:Hjs; [| apply IH].
    intros Hrest. eapply walk_step_trans; [| by apply IH].
    by apply walk_step_append. }
  destruct (String.eqb (Type' item) "dir"); [| apply IH].
  destruct (recurse (Path item) acc w) as [[[[e |] acc1] w1] |] eqn:Hsub;
    [| | done].
  - intros [= _ <- <-]. by eapply Hrec.
  - intros Hrest. eapply walk_step_trans; [by eapply Hrec | by apply IH].
Qed.

Lemma listFilesRecursive_walk env fuel commit path acc w r acc' w' :
  listFilesRecursive env fuel commit path acc w = Some (r, acc', w') →
  walk_step acc w acc' w'.
Proof.
  revert path acc w r acc' w'.
  induction fuel as [| fuel IH]; intros path acc w r acc' w'; [done |].
  cbn [listFilesRecursive]. cbv zeta.
  destruct (http_NewRequest env _) as [e0 |].
  { intros [= _ <- <-]. apply walk_step_refl. }
  destruct (http_Do env w _) as [e1 | resp].
  { intros [= _ <- <-]. apply walk_step_request. }
  destruct (StatusCode resp =? 404)%Z.
  { intros [= _ <- <-]. apply walk_step_request. }
  destruct (negb (StatusCode resp =? 200)%Z).
  { intros [= _ <- <-]. apply walk_step_request. }
  destruct (io_ReadAll_err env _) as [e2 |].
  { intros [= _ <- <-]. apply walk_step_request. }
  destruct (strings_HasPrefix _ "{").
  - destruct (json_Unmarshal_item env _) as [e3 | item].
    { intros [= _ <- <-]. apply walk_step_request. }
    intros [= _ <- <-]. eapply walk_step_trans; [apply walk_step_request |].
    unfold is_js_file.
    destruct (String.eqb (Type' item) "file"); [| apply walk_step_refl].
    destruct (strings_HasSuffix (Path item) ".js") eqn:Hjs;
      [by apply walk_step_append | apply walk_step_refl].
  - destruct (json_Unmarshal_items env _) as [e3 | items].
    { intros [= _ <- <-]. apply walk_step_request. }
    intros Hrange. eapply walk_step_trans; [apply walk_step_request |].
    eapply rangeItems_walk; [| exact Hrange]. apply IH.
Qed.

Lemma rangeItems_more_fuel recurse1 recurse2 items acc w out :
  (∀ path acc w out, recurse1 path acc w = Some out → recurse2 path acc w = Some out) →
  rangeItems recurse1 items acc w = Some out →
  rangeItems recurse2 items acc w = Some out.
Proof.
  intros Hrec. revert acc w.
  induction items as [| item rest IH]; intros acc w; cbn [rangeItems]; [done |].
  destruct (String.eqb (Type' item) "file"); [apply IH |].
  destruct (String.eqb (Type' item) "dir"); [| apply IH].
  destruct (recurse1 (Path item) acc w) as [[[[e |] acc1] w1] |] eqn:Hsub;
    [| | done].
  - rewrite (Hrec _ _ _ _ Hsub). done.
  - rewrite (Hrec _ _ _ _ Hsub). apply IH.
Qed.

(** A walk that ends within its fuel ends in the same way with more. *)
Lemma listFilesRecursive_more_fuel env fuel extra commit path acc w out :
  listFilesRecursive env fuel commit path acc w = Some out →
  listFilesRecursive env (fuel + extra) commit path acc w = Some out.
Proof.
  revert path acc w out.
  induction fuel as [| fuel IH]; intros path acc w out; [done |].
  cbn [listFilesRecursive Nat.add]. cbv zeta.
  repeat case_match; try done.
  apply rangeItems_more_fuel. apply IH.
Qed.

Lemma listFilesInPath_walk env fuel commit path w r w' :
  listFilesInPath env fuel commit path w = Some (r, w') →
  files w' = files w
  ∧ (∃ t, trace w' = trace w ++ t ∧ Forall (λ e, is_network e = true) t)
  ∧ (∀ listing, r = inr listing →
       Forall (λ p, strings_HasSuffix p ".js" = true) listing).
Proof.
  unfold listFilesInPath.
  destruct (listFilesRecursive env fuel commit path [] w)
    as [[[[e |] acc] w1] |] eqn:Hwalk; [| | done]; intros [= <- <-];
    destruct (listFilesRecursive_walk _ _ _ _ _ _ _ _ _ Hwalk)
      as (Hf & (more & Hacc & Hjs) & Ht).
  - done.
  - split; [done |]. split; [done |]. intros listing [= <-]. by rewrite Hacc.
Qed.

(** X5.  The listing that [add] works with: the walk leaves every file as it is,
    makes nothing but requests, and every path it returns ends in [.js]; more
    fuel does not change the outcome. *)
Theorem listing_only_scripts env fuel commit path w r w' :
  listFilesInPath env fuel commit path w = Some (r, w') →
  files w' = files w
  ∧ (∃ t, trace w' = trace w ++ t ∧ Forall (λ e, is_network e = true) t)
  ∧ (∀ listing, r = inr listing →
       Forall (λ p, strings_HasSuffix p ".js" = true) listing)
  ∧ (∀ extra, listFilesInPath env (fuel + extra) commit path w = Some (r, w')).
Proof.
  intros Hlist.
  destruct (listFilesInPath_walk _ _ _ _ _ _ _ Hlist) as (Hf & Ht & Hjs).
  split; [done |]. split; [done |]. split; [done |].
  intros extra. revert Hlist. unfold listFilesInPath.
  destruct (listFilesRecursive env fuel commit path [] w) as [out |] eqn:Hwalk;
    [| done].
  by rewrite (listFilesRecursive_more_fuel _ _ extra _ _ _ _ _ Hwalk).
Qed.

Lemma listing_only_scripts_witness :
  listFilesInPath listing_env 2 "deadbeef" "url" empty_world
  = Some (inr ["url/a.any.js"; "url/resources/b.js"; "url/a.js"],
          {| files := ∅;
             trace := [HttpGet (contents_url "deadbeef" "url");
                       HttpGet (contents_url "deadbeef" "url/resources")] |})
  ∧ Forall (λ p, strings_HasSuffix p ".js" = true)
      ["url/a.any.js"; "url/resources/b.js"; "url/a.js"].
Proof.
  assert (listFilesInPath listing_env 2 "deadbeef" "url" empty_world
          = Some (inr ["url/a.any.js"; "url/resources/b.js"; "url/a.js"],
                  {| files := ∅;
                     trace := [HttpGet (contents_url "deadbeef" "url");
                               HttpGet (contents_url "deadbeef" "url/resources")] |}))
    as Hrun by (vm_compute; reflexivity).
  split; [exact Hrun |].
  destruct (listing_only_scripts _ _ _ _ _ _ _ Hrun) as (_ & _ & Hjs & _).
  exact (Hjs _ eq_refl).
Defined.

(** X6.  A directory without sub-directories costs one request and yields the
    paths of its [.js] files, in the order of the response. *)
Theorem flat_directory_listing (env : ApiEnv) fuel commit path acc w resp items :
  http_NewRequest env (contents_url commit path) = None →
  http_Do env w (contents_url commit path) = inr resp →
  StatusCode resp = 200%Z →
  io_ReadAll_err env (log (HttpGet (contents_url commit path)) w) = None →
  strings_HasPrefix (strings_TrimLeft (Body resp) (bytes [32; 9; 10; 13])) "{"
  = false →
  json_Unmarshal_items env (Body resp) = inr items →
  Forall (λ item, Type' item ≠ "dir") items →
  listFilesRecursive env (S fuel) commit path acc w
  = Some (None, acc ++ (Path <$> List.filter is_js_file items),
          log (HttpGet (contents_url commit path)) w).
Proof.
  intros Hreq Hdo Hstatus Hread Hbody Hitems Hflat.
  cbn [listFilesRecursive]. cbv zeta.
  rewrite Hreq, Hdo, Hstatus, Hread, Hbody, Hitems. cbn [Z.eqb Pos.eqb negb].
  generalize (log (HttpGet (contents_url commit path)) w). intros w1.
  clear Hitems. revert acc.
  induction items as [| item rest IH]; intros acc; cbn [rangeItems List.filter].
  { by rewrite app_nil_r. }
  apply Forall_cons in Hflat as [Hitem Hrest]. unfold is_js_file at 1.
  destruct (String.eqb (Type' item) "file") eqn:Hfile; cbn [andb].
  - destruct (strings_HasSuffix (Path item) ".js"); rewrite IH by done.
    + cbn [fmap list_fmap]. by rewrite <- app_assoc.
    + done.
  - apply String.eqb_neq in Hitem. rewrite Hitem. by apply IH.
Qed.

Lemma flat_directory_listing_witness :
  listFilesRecursive listing_env 1 "deadbeef" "url/resources" [] empty_world
  = Some (None, ["url/resources/b.js"],
          log (HttpGet (contents_url "deadbeef" "url/resources")) empty_world).
Proof.
  refine (flat_directory_listing listing_env 0 "deadbeef" "url/resources" []
            empty_world (ok_response "[url/resources]")
            [js_item "url/resources/b.js"; js_item "url/resources/c.json"]
            eq_refl eq_refl eq_refl eq_refl eq_refl eq_refl _).
  repeat constructor; discriminate.
Defined.

(** ** Trimming the path given to [add] *)

Lemma TrimRight_fixed_tail (c : ascii) (s cutset : string) :
  strings_TrimRight (String c s) cutset = String c s →
  strings_TrimRight s cutset = s.
Proof.
  cbn [strings_TrimRight].
  destruct (strings_TrimRight s cutset) as [| d r] eqn:Hr.
  - destruct (strings_ContainsByte cutset c); [done |]. by intros [= <-].
  - by intros [= <-].
Qed.

Lemma TrimRight_idem (s cutset : string) :
  strings_TrimRight (strings_TrimRight s cutset) cutset = strings_TrimRight s cutset.
Proof.
  induction s as [| c s IH]; [done |]. cbn [strings_TrimRight].
  destruct (strings_TrimRight s cutset) as [| d r] eqn:Hr.
  - destruct (strings_ContainsByte cutset c) eqn:Hc; [done |].
    cbn [strings_TrimRight]. by rewrite Hc.
  - change (strings_TrimRight (String c (String d r)) cutset = String c (String d r)).
    cbn [strings_TrimRight] in *. rewrite IH. done.
Qed.

Lemma TrimLeft_keeps_TrimRight (s cutset : string) :
  strings_TrimRight s cutset = s →
  strings_TrimRight (strings_TrimLeft s cutset) cutset = strings_TrimLeft s cutset.
Proof.
  induction s as [| c s IH]; [done |]. intros Hfixed.
  cbn [strings_TrimLeft].
  destruct (strings_ContainsByte cutset c); [| done].
  apply IH. by eapply TrimRight_fixed_tail.
Qed.

Lemma TrimLeft_idem (s cutset : string) :
  strings_TrimLeft (strings_TrimLeft s cutset) cutset = strings_TrimLeft s cutset.
Proof.
  induction s as [| c s IH]; [done |]. cbn [strings_TrimLeft].
  destruct (strings_ContainsByte cutset c) eqn:Hc; [done |].
  cbn [strings_TrimLeft]. by rewrite Hc.
Qed.

Lemma Trim_idem (s cutset : string) :
  strings_Trim (strings_Trim s cutset) cutset = strings_Trim s cutset.
Proof.
  unfold strings_Trim.
  rewrite TrimLeft_keeps_TrimRight by apply TrimRight_idem.
  apply TrimLeft_idem.
Qed.

Lemma TrimRight_trailing (s : string) :
  strings_TrimRight (s +:+ "/") "/" = strings_TrimRight s "/".
Proof.
  induction s as [| c s IH]; [done |].
  change (strings_TrimRight (String c (s +:+ "/")) "/"
          = strings_TrimRight (String c s) "/").
  cbn [strings_TrimRight]. by rewrite IH.
Qed.

Lemma Trim_leading (s : string) :
  strings_Trim ("/" +:+ s) "/" = strings_Trim s "/".
Proof.
  unfold strings_Trim.
  change (strings_TrimRight ("/" +:+ s) "/")
    with (match strings_TrimRight s "/" with
          | EmptyString => ""
          | r => String "/" r
          end).
  by destruct (strings_TrimRight s "/").
Qed.

(** X7.  [add] does not see the separators around the path it is given: the
    path is trimmed before it is printed and requested. *)
Theorem add_ignores_outer_separators (env : ApiEnv) fuel configPath wptPath w :
  runAdd env fuel configPath ("/" +:+ wptPath) w
  = runAdd env fuel configPath wptPath w
  ∧ runAdd env fuel configPath (wptPath +:+ "/") w
    = runAdd env fuel configPath wptPath w
  ∧ runAdd env fuel configPath (strings_Trim wptPath "/") w
    = runAdd env fuel configPath wptPath w.
Proof.
  assert (strings_Trim (wptPath +:+ "/") "/" = strings_Trim wptPath "/") as Htrail.
  { unfold strings_Trim. by rewrite TrimRight_trailing. }
  unfold runAdd. by rewrite Trim_leading, Htrail, Trim_idem.
Qed.

(** ** What [add] does to the file system *)

Lemma loadConfig_spec env configPath w :
  loadConfig env configPath w
  = match files w !! configPath with
    | None =>
        (inl (fmt_Errorf_w ("open config " +:+ strconv_Quote env configPath +:+ ": ")
                (PathError "open" configPath ENOENT)),
         log (Open configPath) w)
    | Some data =>
        (match json_Decode env data with
         | inl e =>
             inl (fmt_Errorf_w
                    ("decode config " +:+ strconv_Quote env configPath +:+ ": ") e)
         | inr cfg => inr cfg
         end, log (Open configPath) w)
    end.
Proof.
  unfold loadConfig, bind, wrap, os_Open, lift.
  destruct (files w !! configPath) as [data |]; [| done].
  by destruct (json_Decode env data).
Qed.

Lemma os_WriteFile_frame (env : ApiEnv) name data w other :
  other ≠ name →
  files (os_WriteFile env name data w).2 !! other = files w !! other.
Proof.
  intros Hne. unfold os_WriteFile.
  destruct (os_WriteFile_err env w name) as [[[n |] e] |]; simpl;
    by rewrite ?lookup_insert_ne.
Qed.

Lemma addListed_frame (env : ApiEnv) configPath wptPath cfg listing w other :
  other ≠ configPath →
  files (addListed env configPath wptPath cfg listing w).2 !! other
  = files w !! other.
Proof.
  intros Hne. rewrite addListed_spec.
  destruct listing as [| src rest]; [done |].
  destruct (fresh_srcs (Files cfg) (src :: rest)) as [| f fresh]; [done |].
  cbv zeta. destruct (json_MarshalIndent env _) as [e | data]; [done |].
  unfold bind, wrap, fmt_Print, emit.
  pose proof (os_WriteFile_frame env configPath data
                (after_added_lines cfg (src :: rest) w) other Hne) as Hframe.
  destruct (os_WriteFile env configPath data _) as [[e | []] w1]; exact Hframe.
Qed.

(** X8.  Whatever [add] returns, the configuration file is the only file it can
    have changed. *)
Theorem add_writes_only_config (env : ApiEnv) fuel configPath wptPath w r w' :
  runAdd env fuel configPath wptPath w = Some (r, w') →
  ∀ other, other ≠ configPath → files w' !! other = files w !! other.
Proof.
  unfold runAdd. rewrite loadConfig_spec.
  destruct (files w !! configPath) as [data0 |] eqn:Hfile.
  2: { by intros [= _ <-]. }
  destruct (json_Decode env data0) as [e | cfg].
  { by intros [= _ <-]. }
  destruct (listFilesInPath env fuel _ _ _) as [[[e | listing] w3] |] eqn:Hlist;
    [| | done].
  - intros [= _ <-] other _.
    by destruct (listFilesInPath_walk _ _ _ _ _ _ _ Hlist) as (-> & _).
  - intros [= Hadd] other Hne.
    destruct (listFilesInPath_walk _ _ _ _ _ _ _ Hlist) as (Hfiles & _).
    replace w' with (addListed env configPath (strings_Trim wptPath "/") cfg
                       listing w3).2 by (by rewrite Hadd).
    rewrite addListed_frame by done. by rewrite Hfiles.
Qed.

Lemma add_writes_only_config_witness :
  ∃ w', runAdd (add_env (sample_config [])) 2 "wpt.json" "url/" add_world
        = Some (inr tt, w')
        ∧ files w' !! "README.md" = Some "# k6".
Proof.
  eexists. split; [vm_compute; reflexivity |].
  refine (add_writes_only_config (add_env (sample_config [])) 2 "wpt.json"
            "url/" add_world (inr tt) _ _ "README.md" _);
    [vm_compute; reflexivity | discriminate].
Defined.

Lemma os_WriteFile_inr (env : ApiEnv) name data w w1 :
  os_WriteFile env name data w = (inr tt, w1) →
  w1 = set_files (<[name := data]> (files w)) (log (Write name data) w).
Proof.
  unfold os_WriteFile.
  destruct (os_WriteFile_err env w name) as [[[n |] e] |]; try done.
  by intros [= <-].
Qed.

(** X9.  When [add] succeeds, the configuration file held a configuration,
    the listing is what the walk of the trimmed path at the commit of that
    configuration returned, it holds scripts only, and either no listed
    source was new and no file has changed, or the configuration file now
    holds the JSON text of the old configuration followed by the entries for
    the listed sources that were new. *)
Theorem add_success (env : ApiEnv) fuel configPath wptPath w w' :
  runAdd env fuel configPath wptPath w = Some (inr tt, w') →
  let path := strings_Trim wptPath "/" in
  ∃ data0 cfg listing w3,
    files w !! configPath = Some data0
    ∧ json_Decode env data0 = inr cfg
    ∧ listFilesInPath env fuel (Commit cfg) path
        (print ("Fetching file list from " +:+ path +:+ "..." +:+ LF)
           (log (Open configPath) w))
      = Some (inr listing, w3)
    ∧ Forall (λ p, strings_HasSuffix p ".js" = true) listing
    ∧ match fresh_srcs (Files cfg) listing with
      | [] => files w' = files w
      | _ =>
          ∃ data, json_MarshalIndent env (with_added cfg listing) = inr data
                  ∧ files w' = <[configPath := data]> (files w)
      end.
Proof.
  intros Hrun path. revert Hrun.
  unfold runAdd. rewrite loadConfig_spec. fold path.
  destruct (files w !! configPath) as [data0 |] eqn:Hfile; [| done].
  destruct (json_Decode env data0) as [e | cfg] eqn:Hdecode; [done |].
  fold (print ("Fetching file list from " +:+ path +:+ "..." +:+ LF)
          (log (Open configPath) w)).
  destruct (listFilesInPath env fuel _ _ _) as [[[e | listing] w3] |] eqn:Hlist;
    [done | | done].
  destruct (listFilesInPath_walk _ _ _ _ _ _ _ Hlist) as (Hfiles & _ & Hjs).
  simpl in Hfiles.
  intros [= Hadd]. exists data0, cfg, listing, w3.
  split; [done |]. split; [done |]. split; [done |].
  split; [by apply Hjs |].
  revert Hadd. rewrite addListed_spec.
  destruct listing as [| src rest].
  { intros [= <-]. done. }
  destruct (fresh_srcs (Files cfg) (src :: rest)) as [| f fresh].
  { intros [= <-]. done. }
  cbv zeta. destruct (json_MarshalIndent env _) as [e | data]; [done |].
  unfold bind, wrap, fmt_Print, emit.
  destruct (os_WriteFile env configPath data _) as [[e | []] w1] eqn:Hwrite;
    [done |].
  apply os_WriteFile_inr in Hwrite as ->. intros [= <-].
  exists data. split; [done |]. simpl. by rewrite Hfiles.
Qed.

Lemma add_success_witness :
  ∃ w', runAdd (add_env (sample_config [entry "url/a.js" "a.js"])) 2
          "wpt.json" "/url" add_world = Some (inr tt, w')
        ∧ files w' !! "wpt.json"
          = Some "deadbeef out url/a.js url/a.any.js url/resources/b.js".
Proof.
  eexists. split; [vm_compute; reflexivity |].
  destruct (add_success (add_env (sample_config [entry "url/a.js" "a.js"])) 2
              "wpt.json" "/url" add_world _ ltac:(vm_compute; reflexivity))
    as (data0 & cfg & listing & w3 & _ & Hcfg & Hlist & _ & Hfiles).
  injection Hcfg as <-. vm_compute in Hlist. injection Hlist as <- _.
  destruct Hfiles as (data & Hdata & Hfiles). injection Hdata as <-.
  rewrite Hfiles. vm_compute. reflexivity.
Defined.

(** X10.  Adding the same listing once more changes nothing: no source is new,
    one line says so, and nothing is written. *)
Theorem add_again_changes_nothing (env : ApiEnv) configPath wptPath cfg listing w :
  listing ≠ [] →
  addListed env configPath wptPath (with_added cfg listing) listing w
  = (inr tt,
     print ("No new files to add (all files already in config)." +:+ LF) w).
Proof.
  intros Hne. rewrite addListed_spec. rewrite fresh_srcs_again.
  by destruct listing.
Qed.

Lemma add_again_changes_nothing_witness :
  (addListed listing_env "wpt.json" "url"
     (with_added (sample_config []) sample_listing) sample_listing
     empty_world).2
  = {| files := ∅;
       trace := [Stdout ("No new files to add (all files already in config)."
                         +:+ LF)] |}.
Proof.
  by rewrite (add_again_changes_nothing listing_env "wpt.json" "url"
                (sample_config []) sample_listing empty_world).
Defined.

(** ** [init] *)

Lemma fetchLatestCommit_spec (env : ApiEnv) w :
  fetchLatestCommit env w
  = match http_NewRequest env wptGitHubAPIURL with
    | Some e => (inl e, w)
    | None =>
        (match http_Do env w wptGitHubAPIURL with
         | inl e => inl e
         | inr resp =>
             if negb (StatusCode resp =? 200)%Z
             then inl (errors_New ("GitHub API returned " +:+ Status resp))
             else match json_Decode_sha env (Body resp) with
                  | inl e => inl (fmt_Errorf_w "decode response: " e)
                  | inr sha =>
                      if String.eqb sha ""
                      then inl (errors_New "empty commit SHA in response")
                      else inr sha
                  end
         end, log (HttpGet wptGitHubAPIURL) w)
    end.
Proof.
  unfold fetchLatestCommit. unfold bind at 1. unfold check, lift.
  destruct (http_NewRequest env wptGitHubAPIURL) as [e |]; [done |].
  unfold bind at 1. unfold http_Client_Do.
  destruct (http_Do env w wptGitHubAPIURL) as [e | resp]; [done |].
  destruct (negb (StatusCode resp =? 200)%Z); [done |].
  unfold bind, wrap, lift, fail, ret.
  destruct (json_Decode_sha env (Body resp)) as [e | sha]; [done |].
  by destruct (String.eqb sha "").
Qed.

Lemma fetchLatestCommit_files (env : ApiEnv) w :
  files (fetchLatestCommit env w).2 = files w.
Proof.
  rewrite fetchLatestCommit_spec.
  by destruct (http_NewRequest env wptGitHubAPIURL).
Qed.

(** X11.  [fetchLatestCommit] makes at most one request, to the commits API,
    changes no file, and a commit it returns is not empty and is what the
    decoder read in the body of a 200 response. *)
Theorem latest_commit_not_empty (env : ApiEnv) w r w' :
  fetchLatestCommit env w = (r, w') →
  files w' = files w
  ∧ (trace w' = trace w ∨ trace w' = trace w ++ [HttpGet wptGitHubAPIURL])
  ∧ (∀ sha, r = inr sha →
       sha ≠ ""
       ∧ ∃ resp, http_Do env w wptGitHubAPIURL = inr resp
                 ∧ StatusCode resp = 200%Z
                 ∧ json_Decode_sha env (Body resp) = inr sha).
Proof.
  rewrite fetchLatestCommit_spec.
  destruct (http_NewRequest env wptGitHubAPIURL) as [e |].
  { intros [= <- <-]. split; [done |]. split; [by left | done]. }
  intros [= <- <-]. split; [done |]. split; [by right |].
  intros sha. destruct (http_Do env w wptGitHubAPIURL) as [e | resp]; [done |].
  destruct (negb (StatusCode resp =? 200)%Z) eqn:Hstatus; [done |].
  apply negb_false_iff, Z.eqb_eq in Hstatus.
  destruct (json_Decode_sha env (Body resp)) as [e | sha'] eqn:Hsha; [done |].
  destruct (String.eqb sha' "") eqn:Hempty; [done |].
  intros [= ->]. apply String.eqb_neq in Hempty. split; [done |]. by exists resp.
Qed.

Lemma latest_commit_not_empty_witness :
  fetchLatestCommit init_env empty_world
  = (inr "deadbeef", log (HttpGet wptGitHubAPIURL) empty_world)
  ∧ "deadbeef" ≠ "".
Proof.
  split; [reflexivity |].
  exact (proj1 (proj2 (proj2 (latest_commit_not_empty init_env empty_world _ _
                                eq_refl)) "deadbeef" eq_refl)).
Defined.

Lemma runInit_spec (env : ApiEnv) configPath w :
  runInit env configPath w
  = match files w !! configPath with
    | Some _ =>
        (inl (errors_New ("config file " +:+ strconv_Quote env configPath
                          +:+ " already exists")), log (Stat configPath) w)
    | None =>
        let w1 := print ("Fetching latest WPT commit..." +:+ LF)
                    (log (Stat configPath) w) in
        match fetchLatestCommit env w1 with
        | (inl e, w2) => (inl (fmt_Errorf_w "fetch latest commit: " e), w2)
        | (inr commit, w2) =>
            match json_MarshalIndent env (initial_config commit) with
            | inl e => (inl (fmt_Errorf_w "marshal config: " e), w2)
            | inr data =>
                match os_WriteFile env configPath data w2 with
                | (inl e, w3) => (inl (fmt_Errorf_w "write config: " e), w3)
                | (inr _, w3) =>
                    (inr tt, print ("Created " +:+ configPath +:+ " with commit "
                                    +:+ commit +:+ LF) w3)
                end
            end
        end
    end.
Proof.
  unfold runInit, os_Stat.
  destruct (files w !! configPath) as [data0 |]; [done |].
  unfold bind at 1. unfold fmt_Print, emit, print. cbv zeta.
  unfold bind at 1. unfold wrap at 1.
  destruct (fetchLatestCommit env _) as [[e | commit] w2]; [done |].
  unfold bind at 1. unfold wrap at 1, lift.
  destruct (json_MarshalIndent env _) as [e | data]; [done |].
  unfold bind, wrap.
  by destruct (os_WriteFile env configPath data w2) as [[e | []] w3].
Qed.

(** X12.  [init] never overwrites: with a file at the configuration path it
    fails after the [Stat], without a request and without touching a file.
    Whatever it returns, no other file changes. *)
Theorem init_never_overwrites (env : ApiEnv) configPath w r w' :
  runInit env configPath w = (r, w') →
  (∀ other, other ≠ configPath → files w' !! other = files w !! other)
  ∧ (is_Some (files w !! configPath) →
     files w' = files w
     ∧ trace w' = trace w ++ [Stat configPath]
     ∧ r = inl (errors_New ("config file " +:+ strconv_Quote env configPath
                            +:+ " already exists"))).
Proof.
  rewrite runInit_spec.
  destruct (files w !! configPath) as [data0 |] eqn:Hfile.
  { intros [= <- <-]. split; [done |]. by intros _. }
  intros Hrun. split; [| by intros [? ?]].
  intros other Hne. revert Hrun. cbv zeta.
  match goal with
  | |- context [fetchLatestCommit env ?w1] =>
      pose proof (fetchLatestCommit_files env w1) as Hfiles
  end.
  destruct (fetchLatestCommit env _) as [[e | commit] w2]; simpl in Hfiles.
  { by intros [= _ <-]; rewrite Hfiles. }
  destruct (json_MarshalIndent env _) as [e | data].
  { by intros [= _ <-]; rewrite Hfiles. }
  pose proof (os_WriteFile_frame env configPath data w2 other Hne) as Hframe.
  destruct (os_WriteFile env configPath data w2) as [[e | []] w3];
    intros [= _ <-]; simpl in *; by rewrite Hframe, Hfiles.
Qed.

Lemma init_never_overwrites_witness :
  runInit init_env "wpt.json" add_world
  = (inl (errors_New "config file wpt.json already exists"),
     log (Stat "wpt.json") add_world).
Proof.
  assert (runInit init_env "wpt.json" add_world
          = (inl (errors_New "config file wpt.json already exists"),
             log (Stat "wpt.json") add_world)) as Hrun by reflexivity.
  destruct (init_never_overwrites init_env "wpt.json" add_world _ _ Hrun)
    as [_ Hkept].
  destruct (Hkept (ex_intro _ "{}" eq_refl)) as (_ & _ & _).
  exact Hrun.
Defined.

Lemma fetchLatestCommit_inr (env : ApiEnv) w sha w' :
  fetchLatestCommit env w = (inr sha, w') →
  sha ≠ ""
  ∧ w' = log (HttpGet wptGitHubAPIURL) w
  ∧ ∃ resp, http_Do env w wptGitHubAPIURL = inr resp
            ∧ StatusCode resp = 200%Z
            ∧ json_Decode_sha env (Body resp) = inr sha.
Proof.
  rewrite fetchLatestCommit_spec.
  destruct (http_NewRequest env wptGitHubAPIURL) as [e |]; [done |].
  destruct (http_Do env w wptGitHubAPIURL) as [e | resp]; [done |].
  destruct (negb (StatusCode resp =? 200)%Z) eqn:Hstatus; [done |].
  apply negb_false_iff, Z.eqb_eq in Hstatus.
  destruct (json_Decode_sha env (Body resp)) as [e | sha'] eqn:Hsha; [done |].
  destruct (String.eqb sha' "") eqn:Hempty; [done |].
  intros [= -> <-]. apply String.eqb_neq in Hempty.
  split; [done |]. split; [done |]. by exists resp.
Qed.

(** X13.  When [init] succeeds there was no file at the configuration path,
    the server answered the request for the latest commit with a 200 whose
    body names a commit that is not empty, and the file now holds the JSON
    text of the configuration with that commit, the target directory [wpt]
    and no entry; the calls were the [Stat], that one request and the write.
    The root command accepts this configuration; the older [sync-wpt] rejects
    it. *)
Theorem init_success (env : ApiEnv) configPath w w' :
  runInit env configPath w = (inr tt, w') →
  let w1 := print ("Fetching latest WPT commit..." +:+ LF)
              (log (Stat configPath) w) in
  files w !! configPath = None
  ∧ ∃ resp commit data,
      http_Do env w1 wptGitHubAPIURL = inr resp
      ∧ StatusCode resp = 200%Z
      ∧ json_Decode_sha env (Body resp) = inr commit
      ∧ commit ≠ ""
      ∧ json_MarshalIndent env (initial_config commit) = inr data
      ∧ files w' = <[configPath := data]> (files w)
      ∧ trace w'
        = trace w ++ [ Stat configPath;
                       Stdout ("Fetching latest WPT commit..." +:+ LF);
                       HttpGet wptGitHubAPIURL;
                       Write configPath data;
                       Stdout ("Created " +:+ configPath +:+ " with commit "
                               +:+ commit +:+ LF) ]
      ∧ validate (initial_config commit) = None
      ∧ SyncWpt.validate (initial_config commit)
        = Some (errors_New "config: files list cannot be empty").
Proof.
  intros Hrun w1. revert Hrun. rewrite runInit_spec.
  destruct (files w !! configPath) as [data0 |] eqn:Hfile; [done |].
  cbv zeta. fold w1.
  destruct (fetchLatestCommit env w1) as [[e | commit] w2] eqn:Hfetch; [done |].
  apply fetchLatestCommit_inr in Hfetch
    as (Hcommit & -> & resp & Hdo & Hstatus & Hsha).
  destruct (json_MarshalIndent env _) as [e | data] eqn:Hdata; [done |].
  destruct (os_WriteFile env configPath data _) as [[e | []] w3] eqn:Hwrite;
    [done |].
  apply os_WriteFile_inr in Hwrite as ->. intros [= <-].
  split; [done |]. exists resp, commit, data.
  split; [done |]. split; [done |]. split; [done |]. split; [done |].
  split; [done |]. split; [done |]. split.
  { subst w1. unfold print, log. simpl. by rewrite <- !app_assoc. }
  unfold validate, SyncWpt.validate. cbn [Commit TargetDir Files initial_config].
  apply String.eqb_neq in Hcommit. by rewrite Hcommit.
Qed.

Lemma init_success_witness :
  ∃ w', runInit init_env "wpt.json" empty_world = (inr tt, w')
        ∧ files w' = {[ "wpt.json" := "deadbeef wpt" ]}.
Proof.
  eexists. split; [reflexivity |].
  destruct (init_success init_env "wpt.json" empty_world _ eq_refl)
    as (_ & resp & commit & data & Hdo & _ & Hsha & _ & Hdata & Hfiles & _).
  injection Hdo as <-. injection Hsha as <-. injection Hdata as <-.
  exact Hfiles.
Defined.

(** ** The drivers of [sync] *)

Lemma runSync_spec env configPath skip dry w :
  runSync env configPath skip dry w
  = match filepath_Abs (os_Getwd env) (filepath_Dir configPath) with
    | inl e => (inl (fmt_Errorf_w "determine repo root from config: " e), w)
    | inr root =>
        match loadConfig env configPath w with
        | (inl e, w1) => (inl e, w1)
        | (inr cfg, w1) =>
            match validate cfg with
            | Some e => (inl e, w1)
            | None =>
                match Files cfg with
                | [] => (inr tt, print ("No files configured to sync." +:+ LF) w1)
                | _ =>
                    syncFiles env root cfg skip dry (Files cfg)
                      (print (syncing_line cfg) w1)
                end
            end
        end
    end.
Proof.
  unfold runSync. unfold bind at 1. unfold wrap, lift.
  destruct (filepath_Abs _ _) as [e | root]; [done |].
  unfold bind at 1.
  destruct (loadConfig env configPath w) as [[e | cfg] w1]; [done |].
  unfold bind at 1. unfold check, lift.
  destruct (validate cfg); [done |].
  destruct (Files cfg) as [| f fs] eqn:Hfiles; [done |].
  rewrite bool_decide_eq_false_2 by done.
  by unfold bind, fmt_Print, emit.
Qed.

Lemma run_spec env configPath skip dry w :
  SyncWpt.run env configPath skip dry w
  = match filepath_Abs (os_Getwd env) (filepath_Dir configPath) with
    | inl e => (inl (fmt_Errorf_w "determine repo root from config: " e), w)
    | inr root =>
        match loadConfig env configPath w with
        | (inl e, w1) => (inl e, w1)
        | (inr cfg, w1) =>
            match SyncWpt.validate cfg with
            | Some e => (inl e, w1)
            | None =>
                syncFiles env root cfg skip dry (Files cfg)
                  (print (syncing_line cfg) w1)
            end
        end
    end.
Proof.
  unfold SyncWpt.run. unfold bind at 1. unfold wrap, lift.
  destruct (filepath_Abs _ _) as [e | root]; [done |].
  unfold bind at 1.
  destruct (loadConfig env configPath w) as [[e | cfg] w1]; [done |].
  unfold bind at 1. unfold check, lift.
  destruct (SyncWpt.validate cfg); [done |].
  by unfold bind, fmt_Print, emit.
Qed.

(** X14.  Without a configuration that loads and passes validation, neither
    command does anything but open the configuration file: it returns an
    error, prints nothing, requests nothing and changes no file.  The error
    for a missing file is the not-found error of the open. *)
Theorem sync_needs_valid_config env configPath skip dry w :
  (¬ (∃ cfg, loads env configPath w cfg ∧ validate cfg = None) →
   ∃ e, (runSync env configPath skip dry w).1 = inl e
        ∧ files (runSync env configPath skip dry w).2 = files w
        ∧ (trace (runSync env configPath skip dry w).2 = trace w
           ∨ trace (runSync env configPath skip dry w).2
             = trace w ++ [Open configPath]))
  ∧ (¬ (∃ cfg, loads env configPath w cfg ∧ SyncWpt.validate cfg = None) →
     ∃ e, (SyncWpt.run env configPath skip dry w).1 = inl e
          ∧ files (SyncWpt.run env configPath skip dry w).2 = files w
          ∧ (trace (SyncWpt.run env configPath skip dry w).2 = trace w
             ∨ trace (SyncWpt.run env configPath skip dry w).2
               = trace w ++ [Open configPath]))
  ∧ (files w !! configPath = None →
     ∀ root e,
       filepath_Abs (os_Getwd env) (filepath_Dir configPath) = inr root →
       (runSync env configPath skip dry w).1 = inl e →
       errors_Is e ENOENT = true).
Proof.
  rewrite runSync_spec, run_spec, loadConfig_spec. split; [| split].
  - intros Hno. destruct (filepath_Abs _ _) as [e | root].
    { eexists. split; [done |]. split; [done | by left]. }
    destruct (files w !! configPath) as [data |] eqn:Hfile.
    2: { eexists. split; [done |]. split; [done | by right]. }
    destruct (json_Decode env data) as [e | cfg] eqn:Hdecode.
    { eexists. split; [done |]. split; [done | by right]. }
    destruct (validate cfg) as [e |] eqn:Hvalid.
    { eexists. split; [done |]. split; [done | by right]. }
    exfalso. apply Hno. exists cfg. split; [by exists data | done].
  - intros Hno. destruct (filepath_Abs _ _) as [e | root].
    { eexists. split; [done |]. split; [done | by left]. }
    destruct (files w !! configPath) as [data |] eqn:Hfile.
    2: { eexists. split; [done |]. split; [done | by right]. }
    destruct (json_Decode env data) as [e | cfg] eqn:Hdecode.
    { eexists. split; [done |]. split; [done | by right]. }
    destruct (SyncWpt.validate cfg) as [e |] eqn:Hvalid.
    { eexists. split; [done |]. split; [done | by right]. }
    exfalso. apply Hno. exists cfg. split; [by exists data | done].
  - intros Hfile root e ->. rewrite Hfile. intros [= <-].
    cbn [errors_Is]. rewrite errors_Is_refl. by rewrite !orb_true_r.
Qed.

Lemma sync_needs_valid_config_witness :
  runSync (sample_env sample_api None) "wpt.json" false false empty_world
  = (inl (fmt_Errorf_w "open config wpt.json: "
            (PathError "open" "wpt.json" ENOENT)),
     log (Open "wpt.json") empty_world)
  ∧ errors_Is (fmt_Errorf_w "open config wpt.json: "
                 (PathError "open" "wpt.json" ENOENT)) ENOENT = true.
Proof.
  split; [reflexivity |].
  exact (proj2 (proj2 (sync_needs_valid_config (sample_env sample_api None)
                         "wpt.json" false false empty_world))
           eq_refl "/repo" _ eq_refl eq_refl).
Defined.

(** X15.  With a valid configuration that has no entry, the root command reports
    that there is nothing to sync and succeeds, the older command fails in
    validation; neither requests or writes anything. *)
Theorem sync_with_no_entries env configPath skip dry w cfg root :
  filepath_Abs (os_Getwd env) (filepath_Dir configPath) = inr root →
  loads env configPath w cfg →
  Commit cfg ≠ "" → TargetDir cfg ≠ "" → Files cfg = [] →
  runSync env configPath skip dry w
  = (inr tt, print ("No files configured to sync." +:+ LF)
               (log (Open configPath) w))
  ∧ SyncWpt.run env configPath skip dry w
    = (inl (errors_New "config: files list cannot be empty"),
       log (Open configPath) w).
Proof.
  intros Habs (data & Hfile & Hdecode) Hcommit Htarget Hfiles.
  rewrite runSync_spec, run_spec, loadConfig_spec, Habs, Hfile, Hdecode.
  unfold validate, SyncWpt.validate.
  apply String.eqb_neq in Hcommit, Htarget.
  by rewrite Hcommit, Htarget, Hfiles.
Qed.

Lemma sync_with_no_entries_witness :
  runSync init_env "wpt.json" false false (world_with "wpt.json" "deadbeef wpt")
  = (inr tt, print ("No files configured to sync." +:+ LF)
               (log (Open "wpt.json") (world_with "wpt.json" "deadbeef wpt"))).
Proof.
  refine (proj1 (sync_with_no_entries init_env "wpt.json" false false
                   (world_with "wpt.json" "deadbeef wpt")
                   (initial_config "deadbeef") "/repo" eq_refl _ _ _ eq_refl));
    [by exists "deadbeef wpt" | discriminate | discriminate].
Defined.

(** X16.  [init] and then [sync]: when the decoder reads back the configuration
    that [init] wrote, the root command finds nothing to sync and succeeds,
    and the older command rejects the configuration. *)
Theorem init_then_sync (env : ApiEnv) configPath w w' root skip dry :
  runInit env configPath w = (inr tt, w') →
  filepath_Abs (os_Getwd env) (filepath_Dir configPath) = inr root →
  ∃ commit data,
    files w' !! configPath = Some data
    ∧ json_MarshalIndent env (initial_config commit) = inr data
    ∧ (json_Decode env data = inr (initial_config commit) →
       runSync env configPath skip dry w'
       = (inr tt, print ("No files configured to sync." +:+ LF)
                    (log (Open configPath) w'))
       ∧ SyncWpt.run env configPath skip dry w'
         = (inl (errors_New "config: files list cannot be empty"),
            log (Open configPath) w')).
Proof.
  rewrite runInit_spec.
  destruct (files w !! configPath) as [data0 |] eqn:Hfile; [done |].
  cbv zeta.
  match goal with
  | |- context [fetchLatestCommit env ?w1] =>
      pose proof (fetchLatestCommit_spec env w1) as Hspec
  end.
  destruct (fetchLatestCommit env _) as [[e | commit] w2]; [done |].
  assert (String.eqb commit "" = false) as Hcommit.
  { revert Hspec. repeat case_match; try done. by intros [= -> _]. }
  destruct (json_MarshalIndent env _) as [e | data] eqn:Hdata; [done |].
  destruct (os_WriteFile env configPath data w2) as [[e | []] w3] eqn:Hwrite;
    [done |].
  apply os_WriteFile_inr in Hwrite as ->. intros [= <-] Habs.
  exists commit, data. split; [apply lookup_insert_eq |]. split; [done |].
  intros Hdecode.
  rewrite runSync_spec, run_spec, loadConfig_spec, Habs. simpl.
  rewrite lookup_insert_eq, Hdecode.
  unfold validate, SyncWpt.validate. simpl. by rewrite Hcommit.
Qed.

Lemma init_then_sync_witness :
  ∃ w', runInit init_env "wpt.json" empty_world = (inr tt, w')
        ∧ (runSync init_env "wpt.json" false false w').1 = inr tt
        ∧ (SyncWpt.run init_env "wpt.json" false false w').1
          = inl (errors_New "config: files list cannot be empty").
Proof.
  eexists. split; [reflexivity |].
  destruct (init_then_sync init_env "wpt.json" empty_world _ "/repo" false false
              eq_refl eq_refl) as (commit & data & _ & _ & _).
  split; reflexivity.
Defined.

(** ** A dry run *)

Lemma syncFiles_dry env root cfg skip todo w :
  syncFiles env root cfg skip true todo w
  = (inr tt, {| files := files w;
                trace := trace w ++ (entry_line root cfg <$> todo) |}).
Proof.
  revert w. induction todo as [| file rest IH]; intros w.
  - simpl. unfold ret. rewrite app_nil_r. by destruct w.
  - cbn [syncFiles]. unfold bind at 1.
    cbn [fmap list_fmap]. unfold entry_line at 1.
    unfold syncEntry, processFile.
    destruct (isEnabled file); cbn [negb];
      unfold bind, fmt_Print, emit, ret; rewrite IH; cbn [log files trace];
      by rewrite <- app_assoc.
Qed.

(** X17.  A dry run of a configuration with entries succeeds and prints, after
    the heading, one line for every entry in the order of the list: the
    [src -> dest] line of an enabled entry, the skip line of a disabled one.
    It does nothing else after it has read the configuration, whether or not
    patches are skipped; both commands behave alike. *)
Theorem dry_run_report env configPath skip w cfg root :
  filepath_Abs (os_Getwd env) (filepath_Dir configPath) = inr root →
  loads env configPath w cfg →
  validate cfg = None →
  Files cfg ≠ [] →
  runSync env configPath skip true w
  = (inr tt,
     {| files := files w;
        trace := trace w ++ Open configPath :: Stdout (syncing_line cfg)
                   :: (entry_line root cfg <$> Files cfg) |})
  ∧ SyncWpt.run env configPath skip true w
    = runSync env configPath skip true w.
Proof.
  intros Habs (data & Hfile & Hdecode) Hvalid Hfiles.
  assert (SyncWpt.validate cfg = None) as Hvalid'.
  { revert Hvalid. unfold validate, SyncWpt.validate.
    repeat case_match; try done.
    by destruct (Files cfg). }
  rewrite runSync_spec, run_spec, loadConfig_spec, Habs, Hfile, Hdecode.
  rewrite Hvalid, Hvalid'.
  destruct (Files cfg) as [| f fs] eqn:HF; [done |].
  split; [| done].
  rewrite syncFiles_dry. unfold print, log. simpl.
  by rewrite <- !app_assoc.
Qed.

Lemma dry_run_report_witness :
  runSync mixed_env "wpt.json" false true (world_with "wpt.json" "{}")
  = (inr tt,
     {| files := {[ "wpt.json" := "{}" ]};
        trace := [ Open "wpt.json";
                   Stdout (syncing_line mixed_config);
                   Stdout (plan_line "/repo" mixed_config (entry "/a.js" "a.js"));
                   Stdout (skip_line disabled_entry);
                   Stdout (plan_line "/repo" mixed_config patched_entry) ] |}).
Proof.
  refine (proj1 (dry_run_report mixed_env "wpt.json" false
                   (world_with "wpt.json" "{}") mixed_config "/repo"
                   eq_refl _ eq_refl _));
    [by exists "{}" | discriminate].
Defined.

(** ** A patch that reaches [git apply] *)

Lemma scanPatch_accepts (path : string) (raws : list string) :
  forallb fits_scanner (upto_first_nonblank raws) = true →
  (∀ l, List.find (λ l, negb (blank l)) (dropCR <$> raws) = Some l →
        strings_HasPrefix (strings_TrimSpace l) apply_patch_sentinel = false) →
  scanPatch path raws = None.
Proof.
  induction raws as [| raw rest IH]; [done |].
  cbn [fmap list_fmap List.find scanPatch upto_first_nonblank].
  unfold Scanner_token.
  destruct (blank (dropCR raw)) eqn:Hblank; cbn [negb forallb];
    unfold blank in Hblank; intros [Hfit Hrest]%andb_true_iff Hfirst;
    rewrite Hfit, Hblank.
  - by apply IH.
  - by rewrite (Hfirst _ eq_refl).
Qed.

(** X18.  The format check looks at the first non-blank line only.  A patch file
    that exists, whose lines up to that one fit the scanner's buffer, and
    whose first non-blank line (if there is one) does not start with the
    sentinel is handed to [git apply] in the repository root, whatever its
    later lines say: the calls are the [Stat], the [Open] and the external
    tool, the files are what the tool leaves, and an error of the tool comes
    back as [git apply failed]. *)
Theorem patch_reaches_git_apply env root patchPath w data :
  let p := abs_patch root patchPath in
  let w1 := log (Open p) (log (Stat p) w) in
  files w !! p = Some data →
  forallb fits_scanner (upto_first_nonblank (raw_lines data)) = true →
  (∀ l, first_nonblank_line data = Some l →
        strings_HasPrefix (strings_TrimSpace l) apply_patch_sentinel = false) →
  applyPatch env root patchPath w
  = (match (exec_Run env w1 root (git_apply_argv p)).1 with
     | Some e => inl (fmt_Errorf_w "git apply failed: " e)
     | None => inr tt
     end,
     {| files := (exec_Run env w1 root (git_apply_argv p)).2;
        trace := trace w ++ [Stat p; Open p; Exec root (git_apply_argv p)] |}).
Proof.
  intros p w1 Hfile Hfit Hfirst.
  rewrite applyPatch_unfold. fold p. rewrite Hfile.
  rewrite scanPatch_accepts by done. fold w1.
  unfold wrap, exec_Cmd_Run, check, lift.
  destruct (exec_Run env w1 root (git_apply_argv p)) as [[e |] fs];
    subst w1; unfold set_files, log; simpl; by rewrite <- !app_assoc.
Qed.

Lemma patch_reaches_git_apply_witness :
  applyPatch (sample_env (λ _, not_found_response) None) "/repo" "fix.patch"
    (world_with "/repo/fix.patch" git_patch)
  = (inr tt,
     {| files := {[ "/repo/fix.patch" := git_patch ]};
        trace := [ Stat "/repo/fix.patch"; Open "/repo/fix.patch";
                   Exec "/repo" ["git"; "apply"; "--allow-empty";
                                 "--whitespace=nowarn"; "/repo/fix.patch"] ] |}).
Proof.
  refine (patch_reaches_git_apply (sample_env (λ _, not_found_response) None)
            "/repo" "fix.patch" (world_with "/repo/fix.patch" git_patch)
            git_patch eq_refl eq_refl _).
  intros l [= <-]. reflexivity.
Defined.

(** ** What a run of [sync] touches *)

Lemma emits_download_entry env root cfg file :
  emits (entry_call root cfg file)
    (download env (fetch_url cfg file) (dest_path root cfg file)).
Proof.
  unfold download.
  apply emits_bind; [apply emits_check |]. intros _.
  apply emits_bind; [by apply emits_http_Client_Do |]. intros resp.
  case_match; [apply emits_lift |].
  apply emits_bind; [by apply emits_wrap, emits_os_MkdirAll |]. intros _.
  apply emits_bind; [by apply emits_wrap, emits_os_CreateTemp |]. intros tmp.
  apply emits_defer; [by apply emits_os_Remove |].
  apply emits_bind; [by apply emits_wrap, emits_io_Copy |]. intros _.
  apply emits_bind; [by apply emits_wrap, emits_File_Sync |]. intros _.
  by apply emits_wrap, emits_os_Rename.
Qed.

Lemma emits_applyPatch_entry env root cfg file :
  Patch file ≠ "" →
  emits (entry_call root cfg file) (applyPatch env root (Patch file)).
Proof.
  intros Hpatch. unfold applyPatch. fold (abs_patch root (Patch file)).
  apply emits_bind; [by apply emits_wrap, emits_os_Stat |]. intros _.
  apply emits_bind.
  - apply emits_bind; [by apply emits_wrap, emits_os_Open |]. intros data.
    apply emits_check.
  - intros _. by apply emits_wrap, emits_exec_Cmd_Run.
Qed.

Lemma emits_processFile_entry env root cfg file skip dry :
  emits (entry_call root cfg file) (processFile env root cfg file skip dry).
Proof.
  unfold processFile.
  apply emits_bind; [by apply emits_emit |]. intros _.
  destruct dry; [apply emits_ret |].
  apply emits_bind; [apply emits_wrap, emits_download_entry |]. intros _.
  destruct (skip || String.eqb (Patch file) "") eqn:Hskip; [apply emits_ret |].
  apply orb_false_iff in Hskip as [_ Hpatch%String.eqb_neq].
  by apply emits_wrap, emits_applyPatch_entry.
Qed.

Lemma emits_syncFiles_calls env root cfg skip dry todo :
  emits (sync_call root cfg todo) (syncFiles env root cfg skip dry todo).
Proof.
  induction todo as [| file rest IH]; cbn [syncFiles]; [apply emits_ret |].
  apply emits_bind.
  - unfold syncEntry. destruct (isEnabled file) eqn:Hen; cbn [negb].
    + eapply emits_weaken; [| apply emits_processFile_entry].
      intros e He. right. exists file. split; [by left | done].
    + apply emits_emit. left. by eexists.
  - intros _. eapply emits_weaken; [| apply IH].
    intros e [He | (f & Hf & Hen & He)]; [by left |].
    right. exists f. split; [by right | done].
Qed.

Lemma fetch_url_prefix cfg file :
  strings_HasPrefix (fetch_url cfg file)
    (wptRepoRawURL +:+ "/" +:+ Commit cfg +:+ "/") = true.
Proof.
  unfold fetch_url.
  replace (wptRepoRawURL +:+ "/" +:+ Commit cfg +:+ "/"
             +:+ strings_TrimLeft (Src file) "/")
    with ((wptRepoRawURL +:+ "/" +:+ Commit cfg +:+ "/")
            +:+ strings_TrimLeft (Src file) "/").
  { apply HasPrefix_append. }
  by rewrite !append_assoc.
Qed.

(** X19.  After it has opened the configuration file, a run of [sync] prints
    lines and makes calls for enabled entries of the configuration, nothing
    else: every request asks the raw-content server for a path at the
    configured commit, every directory it creates is the directory of a
    destination, every rename puts a file at a destination, and the only
    external program is [git apply], run in the repository root on the patch
    of an entry. *)
Theorem sync_calls_configured env configPath skip dry w root cfg :
  filepath_Abs (os_Getwd env) (filepath_Dir configPath) = inr root →
  loads env configPath w cfg →
  ∃ t, trace (runSync env configPath skip dry w).2
       = trace w ++ Open configPath :: t
       ∧ Forall (sync_call root cfg (Files cfg)) t
       ∧ (∀ url, HttpGet url ∈ t →
            strings_HasPrefix url (wptRepoRawURL +:+ "/" +:+ Commit cfg +:+ "/")
            = true)
       ∧ (∀ old new, Rename old new ∈ t →
            ∃ file, file ∈ Files cfg ∧ isEnabled file = true
                    ∧ new = dest_path root cfg file)
       ∧ (∀ dir argv, Exec dir argv ∈ t →
            dir = root
            ∧ ∃ file, file ∈ Files cfg ∧ isEnabled file = true
                      ∧ Patch file ≠ ""
                      ∧ argv = git_apply_argv (abs_patch root (Patch file))).
Proof.
  intros Habs (data & Hfile & Hdecode).
  assert (∃ t, trace (runSync env configPath skip dry w).2
               = trace w ++ Open configPath :: t
               ∧ Forall (sync_call root cfg (Files cfg)) t) as (t & Ht & Hcalls).
  { rewrite runSync_spec, loadConfig_spec, Habs, Hfile, Hdecode.
    destruct (validate cfg) as [e |].
    { exists []. by split. }
    destruct (Files cfg) as [| f fs] eqn:HF.
    { exists [Stdout ("No files configured to sync." +:+ LF)]. simpl.
      rewrite <- app_assoc. split; [done |].
      constructor; [| done]. left. by eexists. }
    destruct (emits_syncFiles_calls env root cfg skip dry (f :: fs)
                (print (syncing_line cfg) (log (Open configPath) w)))
      as (t & Ht & Hcalls).
    exists (Stdout (syncing_line cfg) :: t). rewrite Ht. simpl.
    rewrite <- !app_assoc. split; [done |].
    constructor; [| done]. left. by eexists. }
  exists t. split; [done |]. split; [done |].
  rewrite Forall_forall in Hcalls. split; [| split].
  - intros url Hin.
    destruct (Hcalls _ Hin) as [[text [=]] | (file & _ & _ & ->)].
    apply fetch_url_prefix.
  - intros old new Hin.
    destruct (Hcalls _ Hin) as [[text [=]] | (file & Hfile' & Hen & ->)].
    by exists file.
  - intros dir argv Hin.
    destruct (Hcalls _ Hin)
      as [[text [=]] | (file & Hfile' & Hen & Hp & -> & ->)].
    split; [done |]. by exists file.
Qed.

Lemma sync_calls_configured_witness :
  ∃ t, trace (runSync mixed_env "wpt.json" false false
                (world_with "wpt.json" "{}")).2
       = Open "wpt.json" :: t
       ∧ ∀ url, HttpGet url ∈ t →
           strings_HasPrefix url (wptRepoRawURL +:+ "/deadbeef/") = true.
Proof.
  destruct (sync_calls_configured mixed_env "wpt.json" false false
              (world_with "wpt.json" "{}") "/repo" mixed_config eq_refl)
    as (t & Ht & _ & Hget & _); [by exists "{}" |].
  exists t. split; [exact Ht | exact Hget].
Defined.

(** *** The files the program itself writes *)











(** ** More of the listing *)

(** X21.  A path that names a single file is answered with one JSON object: the
    listing costs one request and holds the path the server gave when that
    names a [.js] file, and nothing otherwise. *)
Theorem single_file_listing (env : ApiEnv) fuel commit path w resp item :
  http_NewRequest env (contents_url commit path) = None →
  http_Do env w (contents_url commit path) = inr resp →
  StatusCode resp = 200%Z →
  io_ReadAll_err env (log (HttpGet (contents_url commit path)) w) = None →
  strings_HasPrefix (strings_TrimLeft (Body resp) (bytes [32; 9; 10; 13])) "{"
  = true →
  json_Unmarshal_item env (Body resp) = inr item →
  listFilesInPath env (S fuel) commit path w
  = Some (inr (if is_js_file item then [Path item] else []),
          log (HttpGet (contents_url commit path)) w).
Proof.
  intros Hreq Hdo Hstatus Hread Hobject Hitem.
  unfold listFilesInPath. cbn [listFilesRecursive].
  rewrite Hreq, Hdo, Hstatus, Hread, Hobject, Hitem. cbn [Z.eqb Pos.eqb negb].
  by destruct (is_js_file item).
Qed.

Lemma single_file_listing_witness :
  listFilesInPath file_api_env 1 "deadbeef" "url/a.any.js" empty_world
  = Some (inr ["url/a.any.js"],
          log (HttpGet (contents_url "deadbeef" "url/a.any.js")) empty_world).
Proof.
  exact (single_file_listing file_api_env 0 "deadbeef" "url/a.any.js"
           empty_world (ok_response " {url/a.any.js}") (js_item "url/a.any.js")
           eq_refl eq_refl eq_refl eq_refl eq_refl eq_refl).
Defined.

(** X22.  When the server answers the first request of [add] with a status other
    than 200, [add] fails with an error that names the path (for a 404) or
    carries the status text, after one request and without writing. *)
Theorem add_rejected_by_server (env : ApiEnv) fuel configPath wptPath w cfg resp :
  let path := strings_Trim wptPath "/" in
  let url := contents_url (Commit cfg) path in
  let w2 := print ("Fetching file list from " +:+ path +:+ "..." +:+ LF)
              (log (Open configPath) w) in
  loads env configPath w cfg →
  http_NewRequest env url = None →
  http_Do env w2 url = inr resp →
  StatusCode resp ≠ 200%Z →
  runAdd env (S fuel) configPath wptPath w
  = Some (inl (fmt_Errorf_w "list files: "
                 (errors_New
                    (if (StatusCode resp =? 404)%Z
                     then "path " +:+ strconv_Quote env path
                          +:+ " not found in repository"
                     else "GitHub API returned " +:+ Status resp))),
          {| files := files w;
             trace := trace w ++ [Open configPath;
                                  Stdout ("Fetching file list from " +:+ path
                                          +:+ "..." +:+ LF);
                                  HttpGet url] |}).
Proof.
  intros path url w2 (data & Hfile & Hdecode) Hreq Hdo Hstatus.
  unfold runAdd. rewrite loadConfig_spec, Hfile, Hdecode.
  fold path. fold (print ("Fetching file list from " +:+ path +:+ "..." +:+ LF)
                     (log (Open configPath) w)). fold w2.
  unfold listFilesInPath. cbn [listFilesRecursive]. fold url.
  rewrite Hreq, Hdo.
  apply Z.eqb_neq in Hstatus. rewrite Hstatus. cbn [negb].
  destruct (StatusCode resp =? 404)%Z; subst w2; unfold print, log; simpl;
    by rewrite <- !app_assoc.
Qed.

Lemma add_rejected_by_server_witness :
  runAdd (add_env (sample_config [])) 1 "wpt.json" "/fetch/" add_world
  = Some (inl (fmt_Errorf_w "list files: "
                 (errors_New "path fetch not found in repository")),
          {| files := files add_world;
             trace := [ Open "wpt.json";
                        Stdout ("Fetching file list from fetch..." +:+ LF);
                        HttpGet (contents_url "deadbeef" "fetch") ] |}).
Proof.
  refine (add_rejected_by_server (add_env (sample_config [])) 0 "wpt.json"
            "/fetch/" add_world (sample_config []) not_found_response
            _ eq_refl eq_refl _);
    [by exists "{}" | discriminate].
Defined.

(** ** The dispatch *)

Lemma dash_not_word (cmd word : string) (c : ascii) :
  strings_HasPrefix cmd "-" = true → c ≠ "-"%char →
  String.eqb cmd (String c word) = false.
Proof.
  intros Hdash Hc. apply String.eqb_neq. intros ->.
  cbn [strings_HasPrefix] in Hdash.
  apply andb_true_iff in Hdash as [Heq%Ascii.eqb_eq _]. done.
Qed.

(** X23.  [sync] is the default command: without arguments, and with a first
    argument that starts with [-] (other than [-h] and [--help], which print
    the usage text), [main] does what it does with [sync] put before the
    arguments.  A first argument that does not start with [-] and is none of
    the four command words is rejected as an unknown command. *)
Theorem sync_is_default (prog cmd : string) (rest : list string) :
  main [prog] = main [prog; "sync"]
  ∧ (strings_HasPrefix cmd "-" = true → cmd ≠ "-h" → cmd ≠ "--help" →
     main (prog :: cmd :: rest) = main (prog :: "sync" :: cmd :: rest))
  ∧ (strings_HasPrefix cmd "-" = false →
     cmd ∉ ["init"; "add"; "sync"; "help"] →
     main (prog :: cmd :: rest) = UnknownCommand cmd).
Proof.
  split; [done |]. split.
  - intros Hdash Hh Hhelp. unfold main.
    rewrite (dash_not_word cmd "nit" "i" Hdash), (dash_not_word cmd "dd" "a" Hdash),
      (dash_not_word cmd "ync" "s" Hdash), (dash_not_word cmd "elp" "h" Hdash)
      by discriminate.
    cbn [orb].
    apply String.eqb_neq in Hh, Hhelp. rewrite Hh, Hhelp, Hdash. done.
  - intros Hdash Hword. unfold main.
    assert (∀ word, word ∈ ["init"; "add"; "sync"; "help"] →
                    String.eqb cmd word = false) as Hne.
    { intros word Hin. apply String.eqb_neq. by intros ->. }
    rewrite !Hne by (repeat first [by left | right]).
    assert (String.eqb cmd "-h" = false) as ->.
    { apply String.eqb_neq. by intros ->. }
    assert (String.eqb cmd "--help" = false) as ->.
    { apply String.eqb_neq. by intros ->. }
    by rewrite Hdash.
Qed.

Lemma sync_is_default_witness :
  main ["wptsync"; "-dry-run"; "-config"; "k6.json"]
  = RunSyncCommand ["-dry-run"; "-config"; "k6.json"].
Proof.
  exact (proj1 (proj2 (sync_is_default "wptsync" "-dry-run"
                         ["-config"; "k6.json"]))
           eq_refl ltac:(discriminate) ltac:(discriminate)).
Defined.

(** ** The command lines *)

Lemma Parse_stops_at_positional (f f' : FlagSet) (pre : list string)
    (v : string) (rest : list string) :
  all_flags f pre f' →
  is_flag_arg v = false →
  FlagSet_Parse f (pre ++ v :: rest) = inr (f', v :: rest).
Proof.
  unfold all_flags. intros Hpre Hv. revert f Hpre.
  induction pre as [pre IH] using (induction_ltof1 _ (@length string)).
  unfold ltof in IH. intros f.
  destruct pre as [| s pre].
  { intros [= ->]. cbn [app FlagSet_Parse]. by rewrite Hv. }
  cbn [app FlagSet_Parse].
  destruct (is_flag_arg s); cbn [negb]; [| done].
  destruct (String.eqb s "--").
  { by intros [= -> ->]. }
  destruct (bad_flag_name (flag_name s)); [done |].
  destruct (name_value (flag_name s)) as [name value].
  destruct (f !! name) as [[b | old] |]; [| | by destruct (_ || _)].
  - destruct value as [val |].
    + destruct (strconv_ParseBool val); [| done]. apply IH. simpl. lia.
    + apply IH. simpl. lia.
  - destruct value as [val |]; [apply IH; simpl; lia |].
    destruct pre as [| val pre]; [done |].
    cbn [app]. apply IH. simpl. lia.
Qed.

(** X24.  Flag parsing stops at the first argument that is not a flag:
    [sync] and [init] take no positional argument, and ignore such an
    argument together with everything that follows it, options included.  A
    Boolean option does not take the next argument as its value, so a value
    written after it ends the options. *)
Theorem options_end_at_positional (pre : list string) (v : string)
    (rest : list string) :
  is_flag_arg v = false →
  (∀ f', all_flags syncFlags pre f' →
         runSyncCommand (pre ++ v :: rest) = runSyncCommand pre)
  ∧ (∀ f', all_flags initFlags pre f' →
           runInitCommand (pre ++ v :: rest) = runInitCommand pre).
Proof.
  intros Hv. split; intros f' Hpre.
  - unfold runSyncCommand.
    by rewrite (Parse_stops_at_positional _ _ _ _ rest Hpre Hv), Hpre.
  - unfold runInitCommand.
    by rewrite (Parse_stops_at_positional _ _ _ _ rest Hpre Hv), Hpre.
Qed.

Lemma options_end_at_positional_witness :
  runSyncCommand ["-skip-patches"; "false"; "-dry-run"]
  = inr ("wpt.json", true, false).
Proof.
  exact (proj1 (options_end_at_positional ["-skip-patches"] "false" ["-dry-run"]
                  eq_refl) _ eq_refl).
Defined.

(** X25.  The path of [add] is the first argument that is not a flag, and
    it ends the options: options written before the path are used, whatever
    follows the path is ignored, so that [add <path> -config <file>] works on
    the default [wpt.json].  Without a path [add] stops with the complaint
    about the missing argument. *)
Theorem add_path_ends_options (pre : list string) (path : string)
    (rest : list string) (f' : FlagSet) :
  all_flags addFlags pre f' →
  is_flag_arg path = false →
  runAddCommand (pre ++ path :: rest) = inr (flag_String f' "config", path)
  ∧ runAddCommand (path :: rest) = inr ("wpt.json", path)
  ∧ runAddCommand pre = inl MissingPathArgument.
Proof.
  intros Hpre Hpath. unfold runAddCommand. split; [| split].
  - by rewrite (Parse_stops_at_positional _ _ _ _ rest Hpre Hpath).
  - cbn [FlagSet_Parse]. by rewrite Hpath.
  - by rewrite Hpre.
Qed.

Lemma add_path_ends_options_witness :
  runAddCommand ["-config"; "k6.json"; "url/"; "-config"; "other.json"]
  = inr ("k6.json", "url/")
  ∧ runAddCommand ["url/"; "-config"; "other.json"] = inr ("wpt.json", "url/").
Proof.
  destruct (add_path_ends_options ["-config"; "k6.json"] "url/"
              ["-config"; "other.json"] _ eq_refl eq_refl) as (Hbefore & Hafter & _).
  split; [exact Hbefore | exact Hafter].
Defined.
